(** * Dynamix web solution: the page script [main.js]

    A shallow embedding of the browser-side script and of the part of the
    browser it talks to (element tree, inline styles, class lists, console,
    listeners, timers, animation frames), followed by the properties of the
    script that the specification states.

    Conventions.
    - The document is a tree of elements.  An element handle is the path
      from [document.documentElement] to the element; a JavaScript variable
      that may hold [null] is an [option Handle].
    - Pixel quantities that the script reads from the browser
      ([pageYOffset], [scrollHeight], [innerHeight]) are integers.
    - Inline styles are stored as the script assigns them; assigning the
      empty string removes the declaration, reading an absent declaration
      gives the empty string.
    - [classList] is an ordered list of tokens without duplicates. *)

From stdpp Require Import gmap strings list pretty.
From Stdlib Require Import Ascii ZArith QArith Qround.

Set Warnings "-register-all,-clear-no-such-hyp".
#[local] Open Scope string_scope.
#[local] Open Scope list_scope.
#[local] Open Scope Z_scope.

(* ================================================================== *)
(** * Elements *)
(* ================================================================== *)

Record ElemData := mkElem {
  tagName : string;
  attributes : gmap string string;
  classList : list string;
  style : gmap string string;
  scrollHeight : Z;
  textContent : string
}.

Definition with_attributes (f : gmap string string → gmap string string)
    (d : ElemData) : ElemData :=
  mkElem (tagName d) (f (attributes d)) (classList d) (style d)
         (scrollHeight d) (textContent d).

Definition with_classList (f : list string → list string)
    (d : ElemData) : ElemData :=
  mkElem (tagName d) (attributes d) (f (classList d)) (style d)
         (scrollHeight d) (textContent d).

Definition with_style (f : gmap string string → gmap string string)
    (d : ElemData) : ElemData :=
  mkElem (tagName d) (attributes d) (classList d) (f (style d))
         (scrollHeight d) (textContent d).

Definition with_text (t : string) (d : ElemData) : ElemData :=
  mkElem (tagName d) (attributes d) (classList d) (style d)
         (scrollHeight d) t.

(** ** [DOMTokenList]: [classList.add] and [classList.remove] *)

Definition token_add (cl : list string) (t : string) : list string :=
  if decide (t ∈ cl) then cl else cl ++ [t].

Definition token_remove (cl : list string) (t : string) : list string :=
  filter (λ c, c ≠ t) cl.

Definition tokens_add (ts : list string) (cl : list string) : list string :=
  foldl token_add cl ts.

Definition tokens_remove (ts : list string) (cl : list string) : list string :=
  foldl token_remove cl ts.

(** ** [CSSStyleDeclaration]: property read and assignment *)

Definition style_get (p : string) (st : gmap string string) : string :=
  default "" (st !! p).

Definition style_set (p v : string) (st : gmap string string)
    : gmap string string :=
  if decide (v = "") then delete p st else <[p := v]> st.

(** ** The element tree *)

Inductive Node := mkNode { nd_data : ElemData; nd_kids : list Node }.

Definition Handle := list nat.

Fixpoint node_lookup (p : Handle) (n : Node) : option Node :=
  match p with
  | [] => Some n
  | i :: p' =>
      match nd_kids n !! i with
      | Some k => node_lookup p' k
      | None => None
      end
  end.

Fixpoint node_alter (f : Node → Node) (p : Handle) (n : Node) : Node :=
  match p with
  | [] => f n
  | i :: p' => mkNode (nd_data n) (alter (node_alter f p') i (nd_kids n))
  end.

Definition elem_data (p : Handle) (n : Node) : option ElemData :=
  nd_data <$> node_lookup p n.

Definition on_data (f : ElemData → ElemData) (n : Node) : Node :=
  mkNode (f (nd_data n)) (nd_kids n).

(** Assigning [textContent] replaces the children by one text node. *)
Definition assign_text (t : string) (n : Node) : Node :=
  mkNode (with_text t (nd_data n)) [].

(** ** Selectors used by the script *)

Inductive Selector :=
| ById (i : string)                      (* "#navbar", getElementById *)
| ByClass (c : string)                   (* ".accordion-content" *)
| ByTag (t : string)                     (* "button" *)
| ByTagAttrPrefix (t a pre : string).    (* a[href^="#"] *)

Definition matches (sel : Selector) (d : ElemData) : bool :=
  match sel with
  | ById i => bool_decide (attributes d !! "id" = Some i)
  | ByClass c => bool_decide (c ∈ classList d)
  | ByTag t => bool_decide (tagName d = t)
  | ByTagAttrPrefix t a pre =>
      bool_decide (tagName d = t) &&
      match attributes d !! a with
      | Some v => String.prefix pre v
      | None => false
      end
  end.

(** Matching elements in document order: [select_in] includes the node it
    starts from, [select_kids] only what is below it. *)
Definition select_kids (rec : Node → list Handle)
    : nat → list Node → list Handle :=
  fix go i ks :=
    match ks with
    | [] => []
    | k :: ks' => ((λ p, i :: p) <$> rec k) ++ go (S i) ks'
    end.

Fixpoint select_in (sel : Selector) (n : Node) : list Handle :=
  match n with
  | mkNode d ks =>
      (if matches sel d then [[]] else []) ++ select_kids (select_in sel) 0%nat ks
  end.

Definition select_below (sel : Selector) (n : Node) : list Handle :=
  select_kids (select_in sel) 0%nat (nd_kids n).

(** [element.querySelectorAll(sel)] and [element.querySelector(sel)]. *)
Definition elem_querySelectorAll (sel : Selector) (e : Handle) (doc : Node)
    : list Handle :=
  match node_lookup e doc with
  | Some n => (λ p, e ++ p) <$> select_below sel n
  | None => []
  end.

Definition elem_querySelector (sel : Selector) (e : Handle) (doc : Node)
    : option Handle :=
  head (elem_querySelectorAll sel e doc).

(** [document.querySelectorAll(sel)], [document.querySelector(sel)] and
    [document.getElementById(i)]. *)
Definition doc_querySelectorAll (sel : Selector) (doc : Node) : list Handle :=
  select_in sel doc.

Definition doc_querySelector (sel : Selector) (doc : Node) : option Handle :=
  head (doc_querySelectorAll sel doc).

(** [document.body]: the first child of the root that is a [body] or a
    [frameset]. *)
Definition is_body (n : Node) : bool :=
  bool_decide (tagName (nd_data n) = "body") ||
  bool_decide (tagName (nd_data n) = "frameset").

Fixpoint find_index {A} (f : A → bool) (i : nat) (l : list A) : option nat :=
  match l with
  | [] => None
  | x :: l' => if f x then Some i else find_index f (S i) l'
  end.

Definition doc_body (doc : Node) : option Handle :=
  (λ i, [i]) <$> find_index is_body 0%nat (nd_kids doc).

(* ================================================================== *)
(** * Browser and script state *)
(* ================================================================== *)

(** The viewport readings the script uses.  [scrollTop] is
    [document.documentElement.scrollTop]. *)
Record Window := mkWindow {
  pageXOffset : Z;
  pageYOffset : Z;
  scrollTop : Z;
  innerHeight : Z
}.

Inductive Level := LLog | LWarn | LError.

(** Function values the script hands to the browser. *)
Inductive Listener :=
| L_initAll          (* DOMContentLoaded *)
| L_setVH            (* resize, orientationchange *)
| L_requestTick      (* scroll *)
| L_menuBtnClick     (* click on #menu-btn *)
| L_menuLinkClick    (* click on a link of the menu *)
| L_closeBtnClick.   (* click on the button inside the menu *)

Inductive TimerCallback :=
| TC_startAnimations (* initAll: the 100 ms wait for GSAP *)
| TC_hideMenu        (* closeMenu: display = 'none' after 300 ms *)
| TC_openFirst.      (* initAccordion: open the first item after 300 ms *)

Inductive FrameCallback :=
| FC_updateNav.

Inductive Target := T_window | T_document | T_element (h : Handle).

#[global] Instance Listener_eq_dec : EqDecision Listener.
Proof. solve_decision. Defined.
#[global] Instance TimerCallback_eq_dec : EqDecision TimerCallback.
Proof. solve_decision. Defined.
#[global] Instance FrameCallback_eq_dec : EqDecision FrameCallback.
Proof. solve_decision. Defined.
#[global] Instance Target_eq_dec : EqDecision Target.
Proof. solve_decision. Defined.

Record Registration := mkReg {
  reg_target : Target;
  reg_type : string;
  reg_listener : Listener
}.

Record Timer := mkTimer { due : Z; timer_callback : TimerCallback }.

#[global] Instance Registration_eq_dec : EqDecision Registration.
Proof. solve_decision. Defined.
#[global] Instance Timer_eq_dec : EqDecision Timer.
Proof. solve_decision. Defined.

(** Names looked up on the global object. *)
Record Globals := mkGlobals {
  gsap_defined : bool;
  ScrollTrigger_defined : bool;
  toggleMenu_defined : bool;
  toggleAccordion_defined : bool
}.

(** Variables of [initNavigation] captured by [updateNav] and
    [requestTick]. *)
Module Nav.
Record Scope := mk {
  navbar : option Handle;
  mainHeader : option Handle;
  isScrolled : bool;
  ticking : bool
}.
End Nav.

(** Variables of [initMobileMenu] captured by [openMenu], [closeMenu] and
    [toggle]. *)
Module Menu.
Record Scope := mk {
  menuBtn : option Handle;
  mainHeader : option Handle;
  mobileMenu : option Handle;
  isOpen : bool;
  scrollPos : Z
}.
End Menu.

(** A JavaScript number that may be [NaN]. *)
Definition Num (A : Type) := option A.

(** Variables of one iteration of [counters.forEach]: the element, the
    parsed target and the animated object [obj = { value: 0 }]. *)
Record CounterScope := mkCounter {
  counter : Handle;
  target : Num Z;
  obj_value : Num Q
}.

(** What the script asks of GSAP. *)
Record ScrollTriggerVars := mkScrollTrigger {
  trigger : Handle;
  start : string;
  toggleActions : option string;
  once : option bool
}.

Record TweenVars := mkVars {
  v_y : option Z;
  v_opacity : option Z;
  v_value : option (Num Z);
  v_duration : option Q;
  v_stagger : option Q;
  v_ease : option string;
  v_delay : option Q;
  v_scrollTrigger : option ScrollTriggerVars;
  v_onUpdate : option nat      (* index of the counter scope it closes over *)
}.

Definition no_vars : TweenVars :=
  mkVars None None None None None None None None None.

Inductive TweenTarget :=
| TT_elements (hs : list Handle)
| TT_counterObj (i : nat).

Inductive GsapCall :=
| G_registerPlugin
| G_from (t : TweenTarget) (vars : TweenVars)
| G_fromTo (t : TweenTarget) (fromVars toVars : TweenVars)
| G_to (t : TweenTarget) (vars : TweenVars).

Record State := mkState {
  document : Node;
  window : Window;
  readyState : string;
  console : list (Level * string);
  listeners : list Registration;
  timers : list Timer;
  frames : list FrameCallback;
  clock : Z;
  globals : Globals;
  nav : option Nav.Scope;
  menu : option Menu.Scope;
  counters : list CounterScope;
  gsapCalls : list GsapCall
}.

Definition set_document (f : Node → Node) (s : State) : State :=
  mkState (f (document s)) (window s) (readyState s) (console s) (listeners s)
    (timers s) (frames s) (clock s) (globals s) (nav s) (menu s) (counters s)
    (gsapCalls s).
Definition set_window (f : Window → Window) (s : State) : State :=
  mkState (document s) (f (window s)) (readyState s) (console s) (listeners s)
    (timers s) (frames s) (clock s) (globals s) (nav s) (menu s) (counters s)
    (gsapCalls s).
Definition set_readyState (r : string) (s : State) : State :=
  mkState (document s) (window s) r (console s) (listeners s)
    (timers s) (frames s) (clock s) (globals s) (nav s) (menu s) (counters s)
    (gsapCalls s).
Definition set_console (f : list (Level * string) → list (Level * string))
    (s : State) : State :=
  mkState (document s) (window s) (readyState s) (f (console s)) (listeners s)
    (timers s) (frames s) (clock s) (globals s) (nav s) (menu s) (counters s)
    (gsapCalls s).
Definition set_listeners (f : list Registration → list Registration)
    (s : State) : State :=
  mkState (document s) (window s) (readyState s) (console s) (f (listeners s))
    (timers s) (frames s) (clock s) (globals s) (nav s) (menu s) (counters s)
    (gsapCalls s).
Definition set_timers (f : list Timer → list Timer) (s : State) : State :=
  mkState (document s) (window s) (readyState s) (console s) (listeners s)
    (f (timers s)) (frames s) (clock s) (globals s) (nav s) (menu s)
    (counters s) (gsapCalls s).
Definition set_frames (f : list FrameCallback → list FrameCallback)
    (s : State) : State :=
  mkState (document s) (window s) (readyState s) (console s) (listeners s)
    (timers s) (f (frames s)) (clock s) (globals s) (nav s) (menu s)
    (counters s) (gsapCalls s).
Definition set_clock (f : Z → Z) (s : State) : State :=
  mkState (document s) (window s) (readyState s) (console s) (listeners s)
    (timers s) (frames s) (f (clock s)) (globals s) (nav s) (menu s)
    (counters s) (gsapCalls s).
Definition set_globals (f : Globals → Globals) (s : State) : State :=
  mkState (document s) (window s) (readyState s) (console s) (listeners s)
    (timers s) (frames s) (clock s) (f (globals s)) (nav s) (menu s)
    (counters s) (gsapCalls s).
Definition set_nav (f : option Nav.Scope → option Nav.Scope) (s : State)
    : State :=
  mkState (document s) (window s) (readyState s) (console s) (listeners s)
    (timers s) (frames s) (clock s) (globals s) (f (nav s)) (menu s)
    (counters s) (gsapCalls s).
Definition set_menu (f : option Menu.Scope → option Menu.Scope) (s : State)
    : State :=
  mkState (document s) (window s) (readyState s) (console s) (listeners s)
    (timers s) (frames s) (clock s) (globals s) (nav s) (f (menu s))
    (counters s) (gsapCalls s).
Definition set_counters (f : list CounterScope → list CounterScope)
    (s : State) : State :=
  mkState (document s) (window s) (readyState s) (console s) (listeners s)
    (timers s) (frames s) (clock s) (globals s) (nav s) (menu s)
    (f (counters s)) (gsapCalls s).
Definition set_gsapCalls (f : list GsapCall → list GsapCall) (s : State)
    : State :=
  mkState (document s) (window s) (readyState s) (console s) (listeners s)
    (timers s) (frames s) (clock s) (globals s) (nav s) (menu s) (counters s)
    (f (gsapCalls s)).

(* ================================================================== *)
(** * A state and exception monad for the script *)
(* ================================================================== *)

Inductive Outcome (A : Type) :=
| Normal (a : A) (s : State)
| Throws (e : string) (s : State).
Arguments Normal {A} a s.
Arguments Throws {A} e s.

Definition JS (A : Type) : Type := State → Outcome A.

Definition final_state {A} (o : Outcome A) : State :=
  match o with Normal _ s => s | Throws _ s => s end.

Definition completes {A} (o : Outcome A) : bool :=
  match o with Normal _ _ => true | Throws _ _ => false end.

#[global] Instance JS_ret : MRet JS := λ A a s, Normal a s.
#[global] Instance JS_bind : MBind JS := λ A B f m s,
  match m s with
  | Normal a s' => f a s'
  | Throws e s' => Throws e s'
  end.

Definition gets {A} (f : State → A) : JS A := λ s, Normal (f s) s.
Definition modify (f : State → State) : JS unit := λ s, Normal () (f s).
Definition throw {A} (e : string) : JS A := λ s, Throws e s.

Fixpoint forEach {A} (l : list A) (f : A → JS unit) : JS unit :=
  match l with
  | [] => mret ()
  | x :: l' => f x ;; forEach l' f
  end.

(** Property access on a value that may be [null]. *)
Definition TypeError : string := "TypeError: null has no properties".

Definition deref {A} (v : option Handle) (k : Handle → JS A) : JS A :=
  match v with
  | Some h => k h
  | None => throw TypeError
  end.

Definition truthy {A} (v : option A) : bool :=
  match v with Some _ => true | None => false end.

(** ** Browser operations *)

Definition console_log (m : string) : JS unit :=
  modify (set_console (λ c, c ++ [(LLog, m)])).
Definition console_warn (m : string) : JS unit :=
  modify (set_console (λ c, c ++ [(LWarn, m)])).

Definition update_elem (h : Handle) (f : ElemData → ElemData) : JS unit :=
  modify (set_document (node_alter (on_data f) h)).

Definition classList_add (v : option Handle) (ts : list string) : JS unit :=
  deref v (λ h, update_elem h (with_classList (tokens_add ts))).

Definition classList_remove (v : option Handle) (ts : list string) : JS unit :=
  deref v (λ h, update_elem h (with_classList (tokens_remove ts))).

Definition style_assign (v : option Handle) (p val : string) : JS unit :=
  deref v (λ h, update_elem h (with_style (style_set p val))).

(** Reading the style of an element that is no longer in the tree gives
    the empty string. *)
Definition style_read (v : option Handle) (p : string) : JS string :=
  deref v (λ h, gets (λ s,
    from_option (λ d, style_get p (style d)) "" (elem_data h (document s)))).

Definition setAttribute (v : option Handle) (a val : string) : JS unit :=
  deref v (λ h, update_elem h (with_attributes <[a := val]>)).

Definition getAttribute (v : option Handle) (a : string)
    : JS (option string) :=
  deref v (λ h, gets (λ s,
    d ← elem_data h (document s); attributes d !! a)).

Definition read_scrollHeight (v : option Handle) : JS Z :=
  deref v (λ h, gets (λ s,
    from_option scrollHeight 0 (elem_data h (document s)))).

Definition assign_textContent (v : option Handle) (t : string) : JS unit :=
  deref v (λ h, modify (set_document (node_alter (assign_text t) h))).

Definition querySelector (v : option Handle) (sel : Selector)
    : JS (option Handle) :=
  deref v (λ h, gets (λ s, elem_querySelector sel h (document s))).

Definition querySelectorAll (v : option Handle) (sel : Selector)
    : JS (list Handle) :=
  deref v (λ h, gets (λ s, elem_querySelectorAll sel h (document s))).

Definition document_querySelector (sel : Selector) : JS (option Handle) :=
  gets (λ s, doc_querySelector sel (document s)).

Definition document_querySelectorAll (sel : Selector) : JS (list Handle) :=
  gets (λ s, doc_querySelectorAll sel (document s)).

Definition document_getElementById (i : string) : JS (option Handle) :=
  gets (λ s, doc_querySelector (ById i) (document s)).

Definition document_body : JS (option Handle) :=
  gets (λ s, doc_body (document s)).

(** [addEventListener] ignores a registration that is already there. *)
Definition addEventListener (t : Target) (ty : string) (l : Listener)
    : JS unit :=
  modify (set_listeners (λ rs,
    if decide (mkReg t ty l ∈ rs) then rs else rs ++ [mkReg t ty l])).

Definition setTimeout (cb : TimerCallback) (delay : Z) : JS unit :=
  modify (λ s, set_timers (λ ts, ts ++ [mkTimer (clock s + delay) cb]) s).

Definition requestAnimationFrame (cb : FrameCallback) : JS unit :=
  modify (set_frames (λ fs, fs ++ [cb])).

(** [window.scrollTo(x, y)]. *)
Definition scrollTo (x y : Z) : JS unit :=
  modify (set_window (λ w, mkWindow x y y (innerHeight w))).

Definition elem_addEventListener (v : option Handle) (ty : string)
    (l : Listener) : JS unit :=
  deref v (λ h, addEventListener (T_element h) ty l).

(** ** JavaScript values *)

(** [a || b] on numbers: [0] is falsy. *)
Definition num_or (a b : Z) : Z := if decide (a = 0) then b else a.

(** [a || b] where [a] is [null] or a string: the empty string is falsy. *)
Definition str_or (a : option string) (b : string) : string :=
  match a with
  | Some v => if decide (v = "") then b else v
  | None => b
  end.

(** [parseInt(s, 10)]: leading white space, an optional sign, then the
    longest run of decimal digits; [NaN] when there is none. *)
Definition is_space (a : ascii) : bool :=
  bool_decide (N_of_ascii a ∈ [9; 10; 11; 12; 13; 32]%N).

Fixpoint skip_spaces (s : string) : string :=
  match s with
  | String a s' => if is_space a then skip_spaces s' else s
  | EmptyString => s
  end.

Definition digit_of (a : ascii) : option Z :=
  let n := Z.of_N (N_of_ascii a) in
  if (48 <=? n) && (n <=? 57) then Some (n - 48) else None.

Fixpoint parse_digits (acc : Num Z) (s : string) : Num Z :=
  match s with
  | String a s' =>
      match digit_of a with
      | Some d => parse_digits (Some (10 * default 0 acc + d)) s'
      | None => acc
      end
  | EmptyString => acc
  end.

Definition parseInt10 (s : string) : Num Z :=
  match skip_spaces s with
  | String "-" s' => Z.opp <$> parse_digits None s'
  | String "+" s' => parse_digits None s'
  | s' => parse_digits None s'
  end.

(** [Math.round]: the nearest integer, halves towards plus infinity. *)
Definition Math_round (v : Num Q) : Num Z :=
  (λ q, Qfloor (q + (1 # 2))%Q) <$> v.

(** The string of a rounded number: the decimal digits of the integer,
    which is what JavaScript gives for the integers it represents
    exactly. *)
Definition num_to_string (v : Num Z) : string :=
  match v with
  | Some z => pretty z
  | None => "NaN"
  end.

(** Double precision arithmetic is used in one place, the product
    [window.innerHeight * 0.01] and its conversion to a string; it is kept
    abstract. *)
Class Double := {
  double : Type;
  double_of_Z : Z → double;
  double_0_01 : double;
  double_mul : double → double → double;
  double_to_string : double → string
}.

(* ================================================================== *)
(** * The script *)
(* ================================================================== *)

(** ** Viewport height fix *)

Definition documentElement : option Handle := Some [].

Definition vh_value `{Double} (h : Z) : string :=
  double_to_string (double_mul (double_of_Z h) double_0_01) +:+ "px".

Definition setVH `{Double} : JS unit :=
  h ← gets (λ s, innerHeight (window s));
  style_assign documentElement "--vh" (vh_value h).

Definition initViewportFix `{Double} : JS unit :=
  setVH;;
  addEventListener T_window "resize" L_setVH;;
  addEventListener T_window "orientationchange" L_setVH.

(** ** Navigation scroll effect *)

Definition nav_var {A} (f : Nav.Scope → A) : JS A := λ s,
  match nav s with
  | Some sc => Normal (f sc) s
  | None => Throws "ReferenceError: navigation scope" s
  end.

Definition nav_assign (f : Nav.Scope → Nav.Scope) : JS unit :=
  _ ← nav_var id; modify (set_nav (fmap f)).

Definition set_isScrolled (b : bool) (sc : Nav.Scope) : Nav.Scope :=
  Nav.mk (Nav.navbar sc) (Nav.mainHeader sc) b (Nav.ticking sc).

Definition set_ticking (b : bool) (sc : Nav.Scope) : Nav.Scope :=
  Nav.mk (Nav.navbar sc) (Nav.mainHeader sc) (Nav.isScrolled sc) b.

Definition expandedClasses : list string :=
  ["max-w-[92%]"; "md:max-w-7xl"; "bg-transparent"].

Definition pillClasses : list string :=
  ["w-[90%]"; "md:w-full"; "max-w-2xl"; "bg-white/90"; "backdrop-blur-lg";
   "shadow-lg"; "border"; "border-slate-200"; "rounded-2xl"; "py-3"].

Definition scrollY_of (w : Window) : Z := num_or (pageYOffset w) (scrollTop w).

Definition updateNav : JS unit :=
  scrollY ← gets (λ s, scrollY_of (window s));
  isScrolled ← nav_var Nav.isScrolled;
  navbar ← nav_var Nav.navbar;
  (if (50 <? scrollY) && negb isScrolled then
     nav_assign (set_isScrolled true);;
     classList_remove navbar expandedClasses;;
     classList_add navbar pillClasses;;
     console_log "📍 Nav: pill mode"
   else if (scrollY <=? 50) && isScrolled then
     nav_assign (set_isScrolled false);;
     classList_add navbar expandedClasses;;
     classList_remove navbar pillClasses;;
     console_log "📍 Nav: transparent mode"
   else mret ());;
  nav_assign (set_ticking false).

Definition requestTick : JS unit :=
  ticking ← nav_var Nav.ticking;
  if negb ticking then
    requestAnimationFrame FC_updateNav;;
    nav_assign (set_ticking true)
  else mret ().

Definition initNavigation : JS unit :=
  navbar ← document_querySelector (ById "navbar");
  mainHeader ← document_querySelector (ById "main-header");
  if negb (truthy navbar) || negb (truthy mainHeader) then
    console_warn "⚠️ Navbar not found"
  else
    console_log "✅ Navigation initialized";;
    modify (set_nav (λ _, Some (Nav.mk navbar mainHeader false false)));;
    addEventListener T_window "scroll" L_requestTick;;
    updateNav.

(** ** Mobile menu *)

Definition menu_var {A} (f : Menu.Scope → A) : JS A := λ s,
  match menu s with
  | Some sc => Normal (f sc) s
  | None => Throws "ReferenceError: menu scope" s
  end.

Definition menu_assign (f : Menu.Scope → Menu.Scope) : JS unit :=
  _ ← menu_var id; modify (set_menu (fmap f)).

Definition set_isOpen (b : bool) (sc : Menu.Scope) : Menu.Scope :=
  Menu.mk (Menu.menuBtn sc) (Menu.mainHeader sc) (Menu.mobileMenu sc) b
          (Menu.scrollPos sc).

Definition set_scrollPos (y : Z) (sc : Menu.Scope) : Menu.Scope :=
  Menu.mk (Menu.menuBtn sc) (Menu.mainHeader sc) (Menu.mobileMenu sc)
          (Menu.isOpen sc) y.

Definition openMenu : JS unit :=
  console_log "📱 Opening menu";;
  menu_assign (set_isOpen true);;
  y ← gets (λ s, pageYOffset (window s));
  menu_assign (set_scrollPos y);;
  mobileMenu ← menu_var Menu.mobileMenu;
  style_assign mobileMenu "display" "flex";;
  classList_remove mobileMenu ["opacity-0"; "pointer-events-none"];;
  classList_add mobileMenu ["mobile-menu-open"];;
  mainHeader ← menu_var Menu.mainHeader;
  style_assign mainHeader "opacity" "0";;
  style_assign mainHeader "pointerEvents" "none";;
  body ← document_body;
  style_assign body "position" "fixed";;
  scrollPos ← menu_var Menu.scrollPos;
  body ← document_body;
  style_assign body "top" ("-" +:+ pretty scrollPos +:+ "px");;
  body ← document_body;
  style_assign body "left" "0";;
  body ← document_body;
  style_assign body "right" "0";;
  body ← document_body;
  style_assign body "width" "100%".

Definition closeMenu : JS unit :=
  console_log "📱 Closing menu";;
  menu_assign (set_isOpen false);;
  mobileMenu ← menu_var Menu.mobileMenu;
  classList_add mobileMenu ["opacity-0"; "pointer-events-none"];;
  classList_remove mobileMenu ["mobile-menu-open"];;
  setTimeout TC_hideMenu 300;;
  mainHeader ← menu_var Menu.mainHeader;
  style_assign mainHeader "opacity" "1";;
  style_assign mainHeader "pointerEvents" "";;
  body ← document_body;
  style_assign body "position" "";;
  body ← document_body;
  style_assign body "top" "";;
  body ← document_body;
  style_assign body "left" "";;
  body ← document_body;
  style_assign body "right" "";;
  body ← document_body;
  style_assign body "width" "";;
  scrollPos ← menu_var Menu.scrollPos;
  scrollTo 0 scrollPos.

(** The arrow function handed to [setTimeout] by [closeMenu]. *)
Definition hideMenu : JS unit :=
  mobileMenu ← menu_var Menu.mobileMenu;
  style_assign mobileMenu "display" "none".

Definition toggle : JS unit :=
  isOpen ← menu_var Menu.isOpen;
  if (isOpen : bool) then closeMenu else openMenu.

Definition set_toggleMenu_defined (b : bool) (g : Globals) : Globals :=
  mkGlobals (gsap_defined g) (ScrollTrigger_defined g) b
            (toggleAccordion_defined g).

Definition set_toggleAccordion_defined (b : bool) (g : Globals) : Globals :=
  mkGlobals (gsap_defined g) (ScrollTrigger_defined g) (toggleMenu_defined g)
            b.

Definition initMobileMenu : JS unit :=
  menuBtn ← document_getElementById "menu-btn";
  mainHeader ← document_getElementById "main-header";
  mobileMenu ← document_getElementById "mobile-menu";
  if negb (truthy menuBtn) || negb (truthy mainHeader)
     || negb (truthy mobileMenu) then
    console_warn "⚠️ Menu elements not found"
  else
    console_log "✅ Mobile menu initialized";;
    modify (set_menu (λ _,
      Some (Menu.mk menuBtn mainHeader mobileMenu false 0)));;
    elem_addEventListener menuBtn "click" L_menuBtnClick;;
    modify (set_globals (set_toggleMenu_defined true));;
    menuLinks ← querySelectorAll mobileMenu (ByTagAttrPrefix "a" "href" "#");
    forEach menuLinks (λ link,
      elem_addEventListener (Some link) "click" L_menuLinkClick);;
    closeBtn ← querySelector mobileMenu (ByTag "button");
    if truthy closeBtn && negb (bool_decide (closeBtn = menuBtn)) then
      elem_addEventListener closeBtn "click" L_closeBtnClick
    else mret ().

(** ** Animations with GSAP *)

Definition gsap_call (c : GsapCall) : JS unit :=
  modify (set_gsapCalls (λ cs, cs ++ [c])).

(** A new scope for one iteration of [counters.forEach]; the result is
    its index in [counters]. *)
Definition new_counter_scope (c : CounterScope) : JS nat :=
  i ← gets (λ s, length (counters s));
  modify (set_counters (λ cs, cs ++ [c]));;
  mret i.

Definition counter_var {A} (i : nat) (f : CounterScope → A) : JS A := λ s,
  match counters s !! i with
  | Some sc => Normal (f sc) s
  | None => Throws "ReferenceError: counter scope" s
  end.

Definition counter_vars (c : Handle) (tgt : Num Z) (i : nat) : TweenVars :=
  mkVars None None (Some tgt) (Some 2%Q) None (Some "power2.out") None
    (Some (mkScrollTrigger c "top 85%" None (Some true)))
    (Some i).

(** The [onUpdate] function of the counter tween with scope [i]. *)
Definition counter_onUpdate (i : nat) : JS unit :=
  counter ← counter_var i counter;
  value ← counter_var i obj_value;
  assign_textContent (Some counter) (num_to_string (Math_round value)).

(** GSAP writes the animated property, then calls [onUpdate]. *)
Definition counter_tick (i : nat) (v : Num Q) : JS unit :=
  modify (set_counters (alter (λ sc, mkCounter (counter sc) (target sc) v) i));;
  counter_onUpdate i.

Definition initAnimations : JS unit :=
  console_log "🎬 Initializing animations";;
  revealTexts ← document_querySelectorAll (ByClass "reveal-text");
  (if (0 <? length revealTexts)%nat then
     gsap_call (G_from (TT_elements revealTexts)
       (mkVars (Some 50) (Some 0) None (Some 1%Q) (Some (1 # 10)%Q)
               (Some "power3.out") (Some (1 # 5)%Q) None None))
   else mret ());;
  revealOpacity ← document_querySelectorAll (ByClass "reveal-opacity");
  (if (0 <? length revealOpacity)%nat then
     gsap_call (G_from (TT_elements revealOpacity)
       (mkVars None (Some 0) None (Some (3 # 2)%Q) None
               (Some "power2.out") (Some (4 # 5)%Q) None None))
   else mret ());;
  fadeUps ← document_querySelectorAll (ByClass "gsap-fade-up");
  forEach fadeUps (λ section,
    gsap_call (G_fromTo (TT_elements [section])
      (mkVars (Some 50) (Some 0) None None None None None None None)
      (mkVars (Some 0) (Some 1) None (Some (4 # 5)%Q) None
              (Some "power3.out") None
              (Some (mkScrollTrigger section "top 85%"
                       (Some "play none none reverse") None))
              None)));;
  projects ← document_querySelectorAll (ByClass "project-card");
  forEach projects (λ card,
    gsap_call (G_from (TT_elements [card])
      (mkVars (Some 100) (Some 0) None (Some 1%Q) None
              (Some "power3.out") None
              (Some (mkScrollTrigger card "top 90%" None None))
              None)));;
  counters ← document_querySelectorAll (ByClass "counter");
  forEach counters (λ counter,
    a ← getAttribute (Some counter) "data-target";
    let target := parseInt10 (str_or a "0") in
    i ← new_counter_scope (mkCounter counter target (Some 0%Q));
    gsap_call (G_to (TT_counterObj i) (counter_vars counter target i)));;
  console_log "✅ Animations initialized".

(** ** Accordion *)

Definition toggleAccordion (element : option Handle) : JS unit :=
  content ← querySelector element (ByClass "accordion-content");
  icon ← querySelector element (ByClass "icon-toggle");
  if negb (truthy content) then mret () else
  allContents ← document_querySelectorAll (ByClass "accordion-content");
  allIcons ← document_querySelectorAll (ByClass "icon-toggle");
  allItems ← document_querySelectorAll (ByClass "accordion-item");
  forEach allContents (λ item,
    if negb (bool_decide (Some item = content)) then
      style_assign (Some item) "height" "0px"
    else mret ());;
  forEach allIcons (λ item,
    if negb (bool_decide (Some item = icon)) then
      classList_remove (Some item) ["rotate-45"; "text-blue-600"];;
      setAttribute (Some item) "icon" "solar:add-linear"
    else mret ());;
  forEach allItems (λ item,
    if negb (bool_decide (Some item = element)) then
      classList_remove (Some item) ["border-blue-500"; "shadow-md"]
    else mret ());;
  height ← style_read content "height";
  if bool_decide (height = "0px") || bool_decide (height = "") then
    sh ← read_scrollHeight content;
    style_assign content "height" (pretty sh +:+ "px");;
    (if truthy icon then
       classList_add icon ["rotate-45"; "text-blue-600"]
     else mret ());;
    classList_add element ["border-blue-500"; "shadow-md"]
  else
    style_assign content "height" "0px";;
    (if truthy icon then
       classList_remove icon ["rotate-45"; "text-blue-600"]
     else mret ());;
    classList_remove element ["border-blue-500"; "shadow-md"].

(** The arrow function handed to [setTimeout] by [initAccordion]. *)
Definition openFirst : JS unit :=
  first ← document_querySelector (ByClass "accordion-item");
  defined ← gets (λ s, toggleAccordion_defined (globals s));
  if truthy first && defined then toggleAccordion first else mret ().

Definition initAccordion : JS unit :=
  console_log "🎵 Accordion initialized";;
  modify (set_globals (set_toggleAccordion_defined true));;
  setTimeout TC_openFirst 300.

(** ** Start-up *)

(** The arrow function handed to [setTimeout] by [initAll]. *)
Definition startAnimations : JS unit :=
  g ← gets (λ s, gsap_defined (globals s));
  st ← gets (λ s, ScrollTrigger_defined (globals s));
  if g && st then
    gsap_call G_registerPlugin;;
    console_log "✅ GSAP loaded";;
    initAnimations
  else
    console_warn "⚠️ GSAP not loaded, skipping animations".

Definition initAll `{Double} : JS unit :=
  console_log "🚀 Initializing website...";;
  setTimeout TC_startAnimations 100;;
  initNavigation;;
  initMobileMenu;;
  initAccordion;;
  initViewportFix.

(** The top level of the script. *)
Definition main `{Double} : JS unit :=
  rs ← gets readyState;
  (if bool_decide (rs = "loading") then
     addEventListener T_document "DOMContentLoaded" L_initAll
   else initAll);;
  console_log "📜 Script loaded successfully".

(* ================================================================== *)
(** * The event loop *)
(* ================================================================== *)

Definition run_listener `{Double} (l : Listener) : JS unit :=
  match l with
  | L_initAll => initAll
  | L_setVH => setVH
  | L_requestTick => requestTick
  | L_menuBtnClick => console_log "🖱️ Menu button clicked";; toggle
  | L_menuLinkClick => console_log "🔗 Menu link clicked";; closeMenu
  | L_closeBtnClick => console_log "❌ Close button clicked";; closeMenu
  end.

(** Listeners that call [e.stopPropagation()]. *)
Definition stops_propagation (l : Listener) : bool :=
  match l with
  | L_menuBtnClick | L_closeBtnClick => true
  | _ => false
  end.

Definition run_timer (cb : TimerCallback) : JS unit :=
  match cb with
  | TC_startAnimations => startAnimations
  | TC_hideMenu => hideMenu
  | TC_openFirst => openFirst
  end.

Definition run_frame (cb : FrameCallback) : JS unit :=
  match cb with
  | FC_updateNav => updateNav
  end.

(** An exception that leaves a callback is reported on the console. *)
Definition settle (o : Outcome unit) : State :=
  match o with
  | Normal _ s => s
  | Throws e s => set_console (λ c, c ++ [(LError, e)]) s
  end.

Definition run_all {A} (run : A → JS unit) (cbs : list A) (s : State)
    : State :=
  foldl (λ s cb, settle (run cb s)) s cbs.

Definition listeners_for (t : Target) (ty : string) (s : State)
    : list Listener :=
  reg_listener <$>
    filter (λ r, reg_target r = t ∧ reg_type r = ty) (listeners s).

(** The element, its ancestors, the document and the window. *)
Definition propagation_path (h : Handle) : list Target :=
  ((λ n, T_element (take n h)) <$> reverse (seq 0 (S (length h))))
  ++ [T_document; T_window].

Fixpoint bubble `{Double} (ty : string) (path : list Target) (s : State)
    : State :=
  match path with
  | [] => s
  | t :: rest =>
      let ls := listeners_for t ty s in
      let s' := run_all run_listener ls s in
      if existsb stops_propagation ls then s' else bubble ty rest s'
  end.

Fixpoint insert_timer (t : Timer) (ts : list Timer) : list Timer :=
  match ts with
  | [] => [t]
  | u :: ts' => if due u <=? due t then u :: insert_timer t ts' else t :: ts
  end.

(** Stable sort by due time. *)
Definition sort_timers (ts : list Timer) : list Timer :=
  foldr insert_timer [] ts.

Inductive Event :=
| E_DOMContentLoaded
| E_library_loaded                       (* GSAP and ScrollTrigger arrive *)
| E_scroll (y top : Z)
| E_resize (h : Z)
| E_orientationchange (h : Z)
| E_click (h : Handle)
| E_call_toggleMenu                      (* inline onclick *)
| E_call_toggleAccordion (h : Handle)    (* inline onclick, [this] *)
| E_frame
| E_elapse (dt : Z)
| E_counter_tick (i : nat) (v : Num Q).  (* GSAP sets obj.value, onUpdate *)

Definition step `{Double} (e : Event) (s : State) : State :=
  match e with
  | E_DOMContentLoaded =>
      if decide (readyState s = "loading") then
        bubble "DOMContentLoaded" [T_document; T_window]
          (set_readyState "interactive" s)
      else s
  | E_library_loaded =>
      set_globals (λ g, mkGlobals true true (toggleMenu_defined g)
                                  (toggleAccordion_defined g)) s
  | E_scroll y top =>
      bubble "scroll" [T_document; T_window]
        (set_window (λ w, mkWindow (pageXOffset w) y top (innerHeight w)) s)
  | E_resize h =>
      bubble "resize" [T_window]
        (set_window (λ w, mkWindow (pageXOffset w) (pageYOffset w)
                                   (scrollTop w) h) s)
  | E_orientationchange h =>
      bubble "orientationchange" [T_window]
        (set_window (λ w, mkWindow (pageXOffset w) (pageYOffset w)
                                   (scrollTop w) h) s)
  | E_click h => bubble "click" (propagation_path h) s
  | E_call_toggleMenu =>
      settle (if toggleMenu_defined (globals s) then toggle s
              else Throws "ReferenceError: toggleMenu is not defined" s)
  | E_call_toggleAccordion h =>
      settle (if toggleAccordion_defined (globals s)
              then toggleAccordion (Some h) s
              else Throws "ReferenceError: toggleAccordion is not defined" s)
  | E_frame =>
      run_all run_frame (frames s) (set_frames (λ _, []) s)
  | E_elapse dt =>
      let now := clock s + Z.max 0 dt in
      let ready := sort_timers (filter (λ t, due t ≤ now) (timers s)) in
      run_all run_timer (timer_callback <$> ready)
        (set_timers (filter (λ t, ¬ due t ≤ now)) (set_clock (λ _, now) s))
  | E_counter_tick i v => settle (counter_tick i v s)
  end.

Definition run `{Double} (es : list Event) (s : State) : State :=
  foldl (λ s e, step e s) s es.

(** The page before the script runs. *)
Definition fresh_page (doc : Node) (w : Window) (rs : string)
    (library : bool) : State :=
  mkState doc w rs [] [] [] [] 0 (mkGlobals library library false false)
    None None [] [].

(** Loading the script. *)
Definition load `{Double} (s : State) : State := settle (main s).

(* ================================================================== *)
(** * A sample page *)
(* ================================================================== *)

Definition elem (tag : string) (id : option string) (cls : list string)
    (more : list (string * string)) (h : Z) (kids : list Node) : Node :=
  mkNode
    (mkElem tag
       (list_to_map (from_option (λ i, [("id", i)]) [] id ++ more))
       cls ∅ h "")
    kids.

Definition sample_document : Node :=
  elem "html" None [] [] 2000 [
    elem "head" None [] [] 0 [];
    elem "body" None [] [] 2000 [
      elem "header" (Some "main-header") [] [] 64 [
        elem "nav" (Some "navbar")
          ["fixed"; "max-w-[92%]"; "md:max-w-7xl"; "bg-transparent"] [] 64 [
          elem "button" (Some "menu-btn") [] [] 24 []
        ]
      ];
      elem "div" (Some "mobile-menu") ["opacity-0"; "pointer-events-none"]
        [] 600 [
        elem "button" None [] [] 24 [];
        elem "a" None [] [("href", "#about")] 20 [];
        elem "a" None [] [("href", "#contact")] 20 []
      ];
      elem "div" None ["accordion-item"] [] 40 [
        elem "span" None ["icon-toggle"] [("icon", "solar:add-linear")] 16 [];
        elem "div" None ["accordion-content"] [] 120 []
      ];
      elem "div" None ["accordion-item"] [] 40 [
        elem "span" None ["icon-toggle"] [("icon", "solar:add-linear")] 16 [];
        elem "div" None ["accordion-content"] [] 80 []
      ];
      elem "span" None ["counter"] [("data-target", "250")] 20 []
    ]
  ].

Definition sample_window : Window := mkWindow 0 0 0 768.

Definition sample_page : State :=
  fresh_page sample_document sample_window "complete" true.

(** A stand-in for double precision arithmetic, exact on hundredths. *)
Definition sample_double : Double := {|
  double := Z;
  double_of_Z := λ z, 100 * z;
  double_0_01 := 1;
  double_mul := λ a b, a * b / 100;
  double_to_string := λ z,
    pretty (z / 100) +:+ "." +:+ pretty (z mod 100 / 10) +:+ pretty (z mod 10)
|}.


(* ================================================================== *)
(** * Notions used to state and prove the properties *)
(* ================================================================== *)

(** A function on elements that keeps the tag name. *)
Definition keeps_tag (f : ElemData → ElemData) : Prop :=
  ∀ d, tagName (f d) = tagName d.

(** ** Weakest preconditions: the computation completes and its result
    satisfies [Q]. *)

Definition wp {A} (m : JS A) (Q : A → State → Prop) (s : State) : Prop :=
  match m s with
  | Normal a s' => Q a s'
  | Throws _ _ => False
  end.

(** ** Invariance of a state predicate and preservation of an
    observation of the state, whether the computation completes or
    throws. *)

Definition invariant {A} (P : State → Prop) (m : JS A) : Prop :=
  ∀ s, P s → P (final_state (m s)).

Definition preserves {A X} (obs : State → X) (m : JS A) : Prop :=
  ∀ s, obs (final_state (m s)) = obs s.


(** ** States and outcomes that the statements name *)

Definition warned (m : string) (s : State) : State :=
  set_console (λ c, c ++ [(LWarn, m)]) s.

Definition logged (m : string) (s : State) : State :=
  set_console (λ c, c ++ [(LLog, m)]) s.

Definition outcome_map {A} (g : State → State) (o : Outcome A) : Outcome A :=
  match o with
  | Normal a s => Normal a (g s)
  | Throws e s => Throws e (g s)
  end.

(** The two class swaps of [updateNav]. *)
Definition to_pill (nb : Handle) (doc : Node) : Node :=
  node_alter (on_data (with_classList (tokens_add pillClasses))) nb
    (node_alter (on_data (with_classList (tokens_remove expandedClasses)))
       nb doc).

Definition to_expanded (nb : Handle) (doc : Node) : Node :=
  node_alter (on_data (with_classList (tokens_remove pillClasses))) nb
    (node_alter (on_data (with_classList (tokens_add expandedClasses)))
       nb doc).

(** The state in which [initNavigation] makes its first call of
    [updateNav]. *)
Definition nav_ready (nb mh : Handle) (s : State) : State :=
  set_listeners (λ rs,
    if decide (mkReg T_window "scroll" L_requestTick ∈ rs) then rs
    else rs ++ [mkReg T_window "scroll" L_requestTick])
    (set_nav (λ _, Some (Nav.mk (Some nb) (Some mh) false false))
       (logged "✅ Navigation initialized" s)).

Definition set_nav_mainHeader (v : option Handle) (sc : Nav.Scope)
    : Nav.Scope :=
  Nav.mk (Nav.navbar sc) v (Nav.isScrolled sc) (Nav.ticking sc).

(** Presence of the elements a feature works on. *)
Definition nav_elements_present (s : State) : bool :=
  truthy (doc_querySelector (ById "navbar") (document s)) &&
  truthy (doc_querySelector (ById "main-header") (document s)).

Definition menu_elements_present (s : State) : bool :=
  truthy (doc_querySelector (ById "menu-btn") (document s)) &&
  truthy (doc_querySelector (ById "main-header") (document s)) &&
  truthy (doc_querySelector (ById "mobile-menu") (document s)).

Definition accordion_elements_present (s : State) : bool :=
  truthy (doc_querySelector (ByClass "accordion-item") (document s)).

(** An initializer that, when its elements are missing, only logs a
    warning. *)
Definition guarded (init : JS unit) (present : State → bool) : Prop :=
  ∀ s, present s = false → ∃ m, init s = Normal () (warned m s).

(** A page without any of the elements the script looks for. *)
Definition bare_document : Node :=
  elem "html" None [] [] 600 [
    elem "head" None [] [] 0 [];
    elem "body" None [] [] 600 []
  ].

Definition bare_page : State :=
  fresh_page bare_document sample_window "complete" false.

(** A page with a [#navbar] but no [#main-header]. *)
Definition navbar_only_document : Node :=
  elem "html" None [] [] 600 [
    elem "body" None [] [] 600 [
      elem "nav" (Some "navbar") expandedClasses [] 64 []
    ]
  ].

Definition navbar_only_page : State :=
  fresh_page navbar_only_document sample_window "complete" false.

(** ** What holds of every state the page can be in *)

(** Each listener is registered on the target and for the event type the
    script registers it with. *)
Definition listener_ok (r : Registration) : Prop :=
  match reg_listener r with
  | L_initAll =>
      reg_target r = T_document ∧ reg_type r = "DOMContentLoaded"
  | L_setVH =>
      reg_target r = T_window ∧
      (reg_type r = "resize" ∨ reg_type r = "orientationchange")
  | L_requestTick => reg_target r = T_window ∧ reg_type r = "scroll"
  | L_menuBtnClick | L_menuLinkClick | L_closeBtnClick =>
      reg_type r = "click" ∧ ∃ h, reg_target r = T_element h
  end.

(** The [ticking] flag; [false] while the navigation scope does not
    exist. *)
Definition ticking_of (s : State) : bool :=
  from_option Nav.ticking false (nav s).

Definition obs_sched (s : State)
    : list Registration * string * option Nav.Scope * list FrameCallback :=
  (listeners s, readyState s, nav s, frames s).

Definition core_inv (s : State) : Prop :=
  Forall listener_ok (listeners s) ∧
  (∀ sc, nav s = Some sc →
     is_Some (Nav.navbar sc) ∧
     mkReg T_window "scroll" L_requestTick ∈ listeners s) ∧
  frames s = (if ticking_of s then [FC_updateNav] else []).

Definition started (s : State) : Prop :=
  mkReg T_window "resize" L_setVH ∈ listeners s ∧
  mkReg T_window "orientationchange" L_setVH ∈ listeners s.

Definition page_inv (s : State) : Prop :=
  core_inv s ∧
  (readyState s = "loading" →
     nav s = None ∧
     mkReg T_document "DOMContentLoaded" L_initAll ∈ listeners s) ∧
  (readyState s ≠ "loading" → started s).

(** The states of a page: the script is loaded into a fresh page, then
    events arrive. *)
Inductive reachable `{Double} : State → Prop :=
| reachable_load (doc : Node) (w : Window) (rs : string) (library : bool) :
    reachable (load (fresh_page doc w rs library))
| reachable_step (e : Event) (s : State) :
    reachable s → reachable (step e s).

(** The invariant while [initAll] runs: no frame callback is pending and
    the document is no longer loading; [b] tells whether the viewport
    listeners are already there. *)
Definition starting (b : bool) (s : State) : Prop :=
  core_inv s ∧ frames s = [] ∧ readyState s ≠ "loading" ∧
  (b = true → started s).


(** Events that leave the listeners, the navigation scope and the frame
    queue alone. *)
Definition quiet (e : Event) : Prop :=
  match e with
  | E_DOMContentLoaded | E_scroll _ _ | E_frame => False
  | _ => True
  end.


(** The sample page, loaded, after a scroll event. *)
Definition loaded_page : State := @load sample_double sample_page.

Definition scrolled_page : State :=
  @step sample_double (E_scroll 120 120) loaded_page.

(** ** Class sets of the navigation bar *)

Definition classes_of (h : Handle) (s : State) : option (list string) :=
  classList <$> elem_data h (document s).

Definition carries (cs cl : list string) : Prop := ∀ c, c ∈ cs → c ∈ cl.

Definition lacks (cs cl : list string) : Prop := ∀ c, c ∈ cs → c ∉ cl.

Definition pill_mode (cl : list string) : Prop :=
  carries pillClasses cl ∧ lacks expandedClasses cl.

Definition expanded_mode (cl : list string) : Prop :=
  carries expandedClasses cl ∧ lacks pillClasses cl.

(** The viewport is scrolled to [w], then the navigation update runs. *)
Definition scroll_update (w : Window) (s : State) : State :=
  final_state (updateNav (set_window (λ _, w) s)).

(** The [isScrolled] flag agrees with the classes of the navbar. *)
Definition nav_in_sync (nb : Handle) (s : State) : Prop :=
  ∃ sc cl, nav s = Some sc ∧ Nav.navbar sc = Some nb ∧
    classes_of nb s = Some cl ∧
    (if Nav.isScrolled sc then pill_mode cl else expanded_mode cl).


(** ** Observations of the document *)

Definition style_at (h : Handle) (p : string) (doc : Node) : string :=
  from_option (λ d, style_get p (style d)) "" (elem_data h doc).

Definition has_class (h : Handle) (c : string) (doc : Node) : option bool :=
  (λ d, bool_decide (c ∈ classList d)) <$> elem_data h doc.

Definition valid (h : Handle) (doc : Node) : Prop := is_Some (elem_data h doc).

(** ** The document updates of the script, one at a time *)

Definition assign_style (h : Handle) (p v : string) (doc : Node) : Node :=
  node_alter (on_data (with_style (style_set p v))) h doc.

Definition add_classes (h : Handle) (ts : list string) (doc : Node) : Node :=
  node_alter (on_data (with_classList (tokens_add ts))) h doc.

Definition remove_classes (h : Handle) (ts : list string) (doc : Node)
    : Node :=
  node_alter (on_data (with_classList (tokens_remove ts))) h doc.

(** What [openMenu] and [closeMenu] do to the document, for the menu
    panel [mm], the header [mh], the body [b] and the saved offset [y]. *)
Definition open_doc (mm mh b : Handle) (y : Z) (doc : Node) : Node :=
  assign_style b "width" "100%"
    (assign_style b "right" "0"
      (assign_style b "left" "0"
        (assign_style b "top" ("-" +:+ pretty y +:+ "px")
          (assign_style b "position" "fixed"
            (assign_style mh "pointerEvents" "none"
              (assign_style mh "opacity" "0"
                (add_classes mm ["mobile-menu-open"]
                  (remove_classes mm ["opacity-0"; "pointer-events-none"]
                    (assign_style mm "display" "flex" doc))))))))).

Definition close_doc (mm mh b : Handle) (doc : Node) : Node :=
  assign_style b "width" ""
    (assign_style b "right" ""
      (assign_style b "left" ""
        (assign_style b "top" ""
          (assign_style b "position" ""
            (assign_style mh "pointerEvents" ""
              (assign_style mh "opacity" "1"
                (remove_classes mm ["mobile-menu-open"]
                  (add_classes mm ["opacity-0"; "pointer-events-none"]
                    doc)))))))).

(** ** The mobile menu *)

(** The inline style properties of the body with which [openMenu] locks
    scrolling. *)
Definition scroll_lock_properties : list string :=
  ["position"; "top"; "left"; "right"; "width"].

(** The class tokens [toggleAccordion] adds or removes. *)
Definition accordion_tokens : list string :=
  ["rotate-45"; "text-blue-600"; "border-blue-500"; "shadow-md"].

(** What the menu functions and the timers share. *)
Definition obs_menu (s : State)
    : option Menu.Scope * Globals * list Timer * Z :=
  (menu s, globals s, timers s, clock s).

(** The menu is open, as far as the script's own state and the classes
    and styles it sets are concerned: [isOpen] is set, the panel [mm] has
    the open class and not the two closed ones, the header [mh] is hidden
    and the body [b] is fixed. *)
Definition menu_shown (mm mh b : Handle) (s : State) : Prop :=
  (∃ sc, menu s = Some sc ∧ Menu.mobileMenu sc = Some mm ∧
         Menu.isOpen sc = true) ∧
  has_class mm "mobile-menu-open" (document s) = Some true ∧
  has_class mm "opacity-0" (document s) = Some false ∧
  has_class mm "pointer-events-none" (document s) = Some false ∧
  style_at mh "opacity" (document s) = "0" ∧
  style_at mh "pointerEvents" (document s) = "none" ∧
  style_at b "position" (document s) = "fixed".

(** The sample page with its menu open. *)
Definition opened_page : State :=
  @step sample_double (E_click [1; 0; 0; 0]%nat) loaded_page.

(** ** The accordion *)

Definition contents (doc : Node) : list Handle :=
  doc_querySelectorAll (ByClass "accordion-content") doc.

Definition scrollHeight_at (h : Handle) (doc : Node) : Z :=
  from_option scrollHeight 0 (elem_data h doc).

(** The test [toggleAccordion] applies to the content it toggles. *)
Definition panel_open (h : Handle) (doc : Node) : Prop :=
  style_at h "height" doc ≠ "0px" ∧ style_at h "height" doc ≠ "".

(** What holds once the other panels are closed, until the panel itself
    is toggled. *)
Definition others_closed (c : Handle) (l : list Handle) (h0 : string)
    (sh0 : Z) (s : State) : Prop :=
  (∀ a, a ∈ l → a ≠ c → style_at a "height" (document s) = "0px") ∧
  style_at c "height" (document s) = h0 ∧
  scrollHeight_at c (document s) = sh0 ∧
  contents (document s) = l ∧
  valid c (document s).

(** The sample page once the timer of [initAccordion] has opened the
    first panel. *)
Definition first_open_page : State :=
  @step sample_double (E_elapse 300) loaded_page.

(** ** The counters *)

Definition text_at (h : Handle) (doc : Node) : string :=
  from_option textContent "" (elem_data h doc).

Definition attribute_at (h : Handle) (a : string) (doc : Node)
    : option string :=
  elem_data h doc ≫= λ d, attributes d !! a.

(** What [initAnimations] computes as the target of the counter [c]. *)
Definition counter_target (c : Handle) (doc : Node) : Num Z :=
  parseInt10 (str_or (attribute_at c "data-target" doc) "0").


(** [Math.round] of a number that is not [NaN]. *)
Definition rounded (v : Q) : Z := Qfloor (v + (1 # 2)).




(** The integers that JavaScript numbers represent exactly. *)
Definition safe_integer (z : Z) : Prop := Z.abs z ≤ 2 ^ 53 - 1.



(** ** Start-up of the animations *)

(** Both globals that [initAll] tests for are defined. *)
Definition library_defined (s : State) : bool :=
  gsap_defined (globals s) && ScrollTrigger_defined (globals s).

(** The test for GSAP is behind: the document is no longer loading and no
    timer is left that would make it. *)
Definition animations_settled (s : State) : Prop :=
  readyState s ≠ "loading" ∧
  ∀ t, t ∈ timers s → timer_callback t ≠ TC_startAnimations.

(** Nothing more is asked of GSAP: the test is behind and the requests
    are [g]. *)
Definition requests_closed (g : list GsapCall) (s : State) : Prop :=
  animations_settled s ∧ gsapCalls s = g.

(** The library is missing and the requests made so far are [g]. *)
Definition library_missing (g : list GsapCall) (s : State) : Prop :=
  library_defined s = false ∧ gsapCalls s = g.

Definition skipped_warning : Level * string :=
  (LWarn, "⚠️ GSAP not loaded, skipping animations").

(** ** What [initAnimations] asks of GSAP *)

(** The requests for the hero: one for all [.reveal-text] elements and one
    for all [.reveal-opacity] elements, each only when there is such an
    element. *)
Definition hero_requests (doc : Node) : list GsapCall :=
  let revealTexts := doc_querySelectorAll (ByClass "reveal-text") doc in
  let revealOpacity := doc_querySelectorAll (ByClass "reveal-opacity") doc in
  (if (0 <? length revealTexts)%nat then
     [G_from (TT_elements revealTexts)
        (mkVars (Some 50) (Some 0) None (Some 1%Q) (Some (1 # 10)%Q)
                (Some "power3.out") (Some (1 # 5)%Q) None None)]
   else []) ++
  (if (0 <? length revealOpacity)%nat then
     [G_from (TT_elements revealOpacity)
        (mkVars None (Some 0) None (Some (3 # 2)%Q) None
                (Some "power2.out") (Some (4 # 5)%Q) None None)]
   else []).

Definition fade_up_request (section : Handle) : GsapCall :=
  G_fromTo (TT_elements [section])
    (mkVars (Some 50) (Some 0) None None None None None None None)
    (mkVars (Some 0) (Some 1) None (Some (4 # 5)%Q) None
            (Some "power3.out") None
            (Some (mkScrollTrigger section "top 85%"
                     (Some "play none none reverse") None))
            None).

Definition card_request (card : Handle) : GsapCall :=
  G_from (TT_elements [card])
    (mkVars (Some 100) (Some 0) None (Some 1%Q) None
            (Some "power3.out") None
            (Some (mkScrollTrigger card "top 90%" None None))
            None).

(** The scope and the request of the counter [c], the [k]-th of the
    document, when [n] scopes exist already. *)
Definition counter_scope_of (doc : Node) (c : Handle) : CounterScope :=
  mkCounter c (counter_target c doc) (Some 0%Q).

Definition counter_request (doc : Node) (n k : nat) (c : Handle) : GsapCall :=
  G_to (TT_counterObj (n + k)) (counter_vars c (counter_target c doc) (n + k)).

Definition animation_requests (doc : Node) (n : nat) : list GsapCall :=
  hero_requests doc ++
  (fade_up_request <$> doc_querySelectorAll (ByClass "gsap-fade-up") doc) ++
  (card_request <$> doc_querySelectorAll (ByClass "project-card") doc) ++
  imap (counter_request doc n) (doc_querySelectorAll (ByClass "counter") doc).

(** The state in which [initAnimations] leaves [s]. *)
Definition animated (s : State) : State :=
  mkState (document s) (window s) (readyState s)
    (console s ++ [(LLog, "🎬 Initializing animations");
                   (LLog, "✅ Animations initialized")])
    (listeners s) (timers s) (frames s) (clock s) (globals s) (nav s)
    (menu s)
    (counters s ++
       (counter_scope_of (document s) <$>
          doc_querySelectorAll (ByClass "counter") (document s)))
    (gsapCalls s ++ animation_requests (document s) (length (counters s))).


(** ** The mobile menu, closed *)

(** The menu is closed, as far as the script's own state and the classes
    and styles it sets are concerned. *)
Definition menu_closed (mm mh b : Handle) (s : State) : Prop :=
  (∃ sc, menu s = Some sc ∧ Menu.mobileMenu sc = Some mm ∧
         Menu.isOpen sc = false) ∧
  has_class mm "mobile-menu-open" (document s) = Some false ∧
  has_class mm "opacity-0" (document s) = Some true ∧
  has_class mm "pointer-events-none" (document s) = Some true ∧
  style_at mh "opacity" (document s) = "1" ∧
  style_at mh "pointerEvents" (document s) = "" ∧
  ∀ p, p ∈ scroll_lock_properties → style_at b p (document s) = "".

(** The listeners that close the menu. *)
Definition closes_menu (l : Listener) : Prop :=
  l = L_menuLinkClick ∨ l = L_closeBtnClick.

(** The panel of the menu is [mm] and it is in the document. *)
Definition panel_is (mm : Handle) (s : State) : Prop :=
  (∃ sc, menu s = Some sc ∧ Menu.mobileMenu sc = Some mm) ∧
  valid mm (document s).

(** ** The listeners of the mobile menu *)

(** The click listeners [initMobileMenu] registers for the button [btn]
    and the panel [mm] of the document [doc]. *)
Definition menu_registration (btn mm : Handle) (doc : Node)
    (r : Registration) : Prop :=
  r = mkReg (T_element btn) "click" L_menuBtnClick ∨
  (∃ a, a ∈ elem_querySelectorAll (ByTagAttrPrefix "a" "href" "#") mm doc ∧
        r = mkReg (T_element a) "click" L_menuLinkClick) ∨
  (∃ cb, elem_querySelector (ByTag "button") mm doc = Some cb ∧ cb ≠ btn ∧
         r = mkReg (T_element cb) "click" L_closeBtnClick).

(** ** A counter with markup inside *)

Definition badge_document : Node :=
  elem "html" None [] [] 600 [
    elem "body" None [] [] 600 [
      elem "span" None ["counter"] [("data-target", "12")] 20 [
        elem "sup" None [] [] 10 []
      ];
      elem "p" None [] [] 20 []
    ]
  ].

(** The page once [initAnimations] has run. *)
Definition badge_page : State :=
  final_state
    (initAnimations (fresh_page badge_document sample_window "complete" true)).

(** ** What an event leaves alone *)

(** The script's own state and queues, the console apart. *)
Definition obs_script (s : State)
    : list Registration * list Timer * list FrameCallback *
      option Nav.Scope * option Menu.Scope * list CounterScope *
      list GsapCall * Globals :=
  (listeners s, timers s, frames s, nav s, menu s, counters s, gsapCalls s,
   globals s).

(** The variables of the navigation that [requestTick] does not assign. *)
Definition nav_mode (s : State) : option (option Handle * bool) :=
  (λ sc, (Nav.navbar sc, Nav.isScrolled sc)) <$> nav s.

(** ** The accordion: items and icons *)

Definition items (doc : Node) : list Handle :=
  doc_querySelectorAll (ByClass "accordion-item") doc.

Definition icons (doc : Node) : list Handle :=
  doc_querySelectorAll (ByClass "icon-toggle") doc.

(** The tokens that mark the icon and the item of an open panel. *)
Definition icon_tokens : list string := ["rotate-45"; "text-blue-600"].
Definition item_tokens : list string := ["border-blue-500"; "shadow-md"].

Definition marked (h : Handle) (ts : list string) (doc : Node) : Prop :=
  ∀ t, t ∈ ts → has_class h t doc = Some true.

Definition unmarked (h : Handle) (ts : list string) (doc : Node) : Prop :=
  ∀ t, t ∈ ts → has_class h t doc = Some false.

(** The two parts of [toggleAccordion], after its queries: closing the
    others (three loops) and toggling the current panel. *)
Definition close_others (element content icon : option Handle)
    (allContents allIcons allItems : list Handle) : JS unit :=
  forEach allContents (λ item,
    if negb (bool_decide (Some item = content)) then
      style_assign (Some item) "height" "0px"
    else mret ());;
  forEach allIcons (λ item,
    if negb (bool_decide (Some item = icon)) then
      classList_remove (Some item) ["rotate-45"; "text-blue-600"];;
      setAttribute (Some item) "icon" "solar:add-linear"
    else mret ());;
  forEach allItems (λ item,
    if negb (bool_decide (Some item = element)) then
      classList_remove (Some item) ["border-blue-500"; "shadow-md"]
    else mret ()).

Definition toggle_current (element content icon : option Handle) : JS unit :=
  height ← style_read content "height";
  if bool_decide (height = "0px") || bool_decide (height = "") then
    sh ← read_scrollHeight content;
    style_assign content "height" (pretty sh +:+ "px");;
    (if truthy icon then
       classList_add icon ["rotate-45"; "text-blue-600"]
     else mret ());;
    classList_add element ["border-blue-500"; "shadow-md"]
  else
    style_assign content "height" "0px";;
    (if truthy icon then
       classList_remove icon ["rotate-45"; "text-blue-600"]
     else mret ());;
    classList_remove element ["border-blue-500"; "shadow-md"].

(** What a call of [toggleAccordion] on [e], whose content is [c], makes
    of the heights and of the item classes. *)
Definition toggled (e c : Handle) (doc : Node) (s' : State) : Prop :=
  (∀ a, a ∈ contents doc → a ≠ c → style_at a "height" (document s') = "0px") ∧
  (¬ panel_open c doc →
     style_at c "height" (document s')
       = pretty (scrollHeight_at c doc) +:+ "px" ∧
     marked e item_tokens (document s')) ∧
  (panel_open c doc →
     style_at c "height" (document s') = "0px" ∧
     unmarked e item_tokens (document s')).

(** ** The timer that opens the first panel *)

(** What [openFirst] looks at: the global, the first item [e] with its
    content [c], and what [toggleAccordion] reads of the contents. *)
Definition first_panel (e c : Handle) (l : list Handle) (h0 : string)
    (sh0 : Z) (s : State) : Prop :=
  toggleAccordion_defined (globals s) = true ∧
  doc_querySelector (ByClass "accordion-item") (document s) = Some e ∧
  elem_querySelector (ByClass "accordion-content") e (document s) = Some c ∧
  contents (document s) = l ∧
  style_at c "height" (document s) = h0 ∧
  scrollHeight_at c (document s) = sh0.

(** The timers that call [openFirst]. *)
Definition opens_first (t : Timer) : Prop := timer_callback t = TC_openFirst.

(** ** Start-up, at once or on [DOMContentLoaded] *)

(** A computation that does not look at what [g] changes: it does to
    [g s] what it does to [s]. *)
Definition commutes {A} (g : State → State) (m : JS A) : Prop :=
  ∀ s, m (g s) = outcome_map g (m s).

(** The listener that the script registers while the document loads, and
    its last message. *)
Definition start_registration : Registration :=
  mkReg T_document "DOMContentLoaded" L_initAll.

Definition loaded_message : Level * string :=
  (LLog, "📜 Script loaded successfully").

(** What is in the state when [initAll] runs on [DOMContentLoaded] and
    is not when it runs at once. *)
Definition deferred (s : State) : State :=
  set_listeners (λ rs, start_registration :: rs)
    (set_console (λ c, loaded_message :: c) s).

(** ** What each feature writes in the document *)

Record Footprint := mkFootprint {
  fp_styles : list string;
  fp_tokens : list string;
  fp_attributes : list string
}.

Definition accordion_footprint : Footprint :=
  mkFootprint ["height"] accordion_tokens ["icon"].

Definition menu_footprint : Footprint :=
  mkFootprint
    ["display"; "opacity"; "pointerEvents"; "position"; "top"; "left";
     "right"; "width"]
    ["opacity-0"; "pointer-events-none"; "mobile-menu-open"] [].

Definition navigation_footprint : Footprint :=
  mkFootprint [] (expandedClasses ++ pillClasses) [].

Definition viewport_footprint : Footprint := mkFootprint ["--vh"] [] [].

(** [m] writes no style property, class token or attribute outside [fp],
    and no tag or text, on any element. *)
Definition within (fp : Footprint) (m : JS unit) : Prop :=
  ∀ q,
    (∀ p, p ∉ fp_styles fp → preserves (λ s, style_at q p (document s)) m) ∧
    (∀ t, t ∉ fp_tokens fp → preserves (λ s, has_class q t (document s)) m) ∧
    (∀ a, a ∉ fp_attributes fp →
          preserves (λ s, attribute_at q a (document s)) m) ∧
    preserves (λ s, tagName <$> elem_data q (document s)) m ∧
    preserves (λ s, text_at q (document s)) m.

Definition disjoint_footprints (f1 f2 : Footprint) : Prop :=
  (∀ p, p ∈ fp_styles f1 → p ∉ fp_styles f2) ∧
  (∀ t, t ∈ fp_tokens f1 → t ∉ fp_tokens f2) ∧
  (∀ a, a ∈ fp_attributes f1 → a ∉ fp_attributes f2).

(** ** The page after start-up *)

(** What [initAll] writes in the document: the classes of the navigation
    and the [--vh] property. *)
Definition start_footprint : Footprint :=
  mkFootprint ["--vh"] (expandedClasses ++ pillClasses) [].

(** The two timers of [initAll]. *)
Definition start_timers (now : Z) : list Timer :=
  [mkTimer (now + 100) TC_startAnimations; mkTimer (now + 300) TC_openFirst].

(** What the timers and the accordion find of the state. *)
Definition obs_start (s : State) : Z * bool * list CounterScope * list GsapCall :=
  (clock s, library_defined s, counters s, gsapCalls s).
(* ================================================================== *)
(** * Facts about class lists and inline styles *)
(* ================================================================== *)

Lemma elem_of_token_add (t u : string) (cl : list string) :
  t ∈ token_add cl u ↔ t ∈ cl ∨ t = u.
Proof.
  unfold token_add. case_decide as Hu.
  - split; [auto|]. intros [?| ->]; done.
  - rewrite elem_of_app, list_elem_of_singleton. done.
Qed.

Lemma elem_of_token_remove (t u : string) (cl : list string) :
  t ∈ token_remove cl u ↔ t ∈ cl ∧ t ≠ u.
Proof. unfold token_remove. rewrite list_elem_of_filter. tauto. Qed.

Lemma elem_of_tokens_add (t : string) (ts cl : list string) :
  t ∈ tokens_add ts cl ↔ t ∈ cl ∨ t ∈ ts.
Proof.
  unfold tokens_add. revert cl.
  induction ts as [|u ts IH]; intros cl; simpl.
  - rewrite elem_of_nil. tauto.
  - rewrite IH, elem_of_token_add, elem_of_cons. tauto.
Qed.

Lemma elem_of_tokens_remove (t : string) (ts cl : list string) :
  t ∈ tokens_remove ts cl ↔ t ∈ cl ∧ t ∉ ts.
Proof.
  unfold tokens_remove. revert cl.
  induction ts as [|u ts IH]; intros cl; simpl.
  - rewrite elem_of_nil. tauto.
  - rewrite IH, elem_of_token_remove, not_elem_of_cons. tauto.
Qed.

Lemma style_get_set (p q v : string) (st : gmap string string) :
  style_get q (style_set p v st) = if decide (p = q) then v else style_get q st.
Proof.
  unfold style_get, style_set.
  destruct (decide (v = "")) as [->|Hv].
  - rewrite lookup_delete. destruct (decide (p = q)); done.
  - rewrite lookup_insert. destruct (decide (p = q)); done.
Qed.

Lemma style_get_set_eq (p v : string) (st : gmap string string) :
  style_get p (style_set p v st) = v.
Proof. rewrite style_get_set. by rewrite decide_True. Qed.

Lemma style_get_set_ne (p q v : string) (st : gmap string string) :
  p ≠ q → style_get q (style_set p v st) = style_get q st.
Proof. intros. rewrite style_get_set. by rewrite decide_False. Qed.

(** Clearing a declaration that an assignment introduced gives back the
    style the element had. *)
Lemma style_set_clear (p v : string) (st : gmap string string) :
  st !! p = None → style_set p "" (style_set p v st) = st.
Proof.
  intros Hp. unfold style_set. rewrite decide_True by done.
  destruct (decide (v = "")).
  - by rewrite !delete_id by (by rewrite ?lookup_delete_eq).
  - rewrite delete_insert_eq. by rewrite delete_id.
Qed.

(* ================================================================== *)
(** * Facts about the element tree *)
(* ================================================================== *)

Lemma Node_ind' (P : Node → Prop) :
  (∀ d ks, Forall P ks → P (mkNode d ks)) → ∀ n, P n.
Proof.
  intros H. fix IH 1. intros [d ks]. apply H.
  induction ks as [|k ks IHks]; constructor; [apply IH | apply IHks].
Qed.

Lemma node_lookup_app (p q : Handle) (n : Node) :
  node_lookup (p ++ q) n = node_lookup p n ≫= node_lookup q.
Proof.
  revert n. induction p as [|i p IH]; intros n; simpl; [done|].
  destruct (nd_kids n !! i); simpl; [apply IH | done].
Qed.

Lemma elem_data_alter (f : ElemData → ElemData) (p q : Handle) (n : Node) :
  elem_data q (node_alter (on_data f) p n) =
  if decide (p = q) then f <$> elem_data q n else elem_data q n.
Proof.
  unfold elem_data. revert p n.
  induction q as [|j q IH]; intros p n.
  - destruct p as [|i p]; [by rewrite decide_True | by rewrite decide_False].
  - destruct p as [|i p]; [by rewrite decide_False|].
    cbn [node_alter node_lookup nd_kids].
    destruct (decide (i = j)) as [->|Hij].
    + rewrite list_lookup_alter_eq.
      destruct (nd_kids n !! j) as [k|]; cbn [fmap option_fmap option_map].
      * rewrite IH. destruct (decide (p = q)) as [->|Hpq].
        -- by rewrite !decide_True.
        -- by rewrite !decide_False by congruence.
      * by case_decide.
    + rewrite list_lookup_alter_ne by done.
      rewrite decide_False; [done|congruence].
Qed.

Lemma elem_data_alter_eq (f : ElemData → ElemData) (p : Handle) (n : Node) :
  elem_data p (node_alter (on_data f) p n) = f <$> elem_data p n.
Proof. rewrite elem_data_alter. by rewrite decide_True. Qed.

Lemma elem_data_alter_ne (f : ElemData → ElemData) (p q : Handle) (n : Node) :
  p ≠ q → elem_data q (node_alter (on_data f) p n) = elem_data q n.
Proof. intros. rewrite elem_data_alter. by rewrite decide_False. Qed.

Lemma elem_data_alter_is_Some (f : ElemData → ElemData) (p q : Handle)
    (n : Node) :
  is_Some (elem_data q (node_alter (on_data f) p n)) ↔ is_Some (elem_data q n).
Proof.
  rewrite elem_data_alter. case_decide; [|done].
  by rewrite fmap_is_Some.
Qed.

(** *** Selection is stable under changes of element data that keep the
    selector's verdict. *)

Lemma select_kids_ext (r1 r2 : Node → list Handle) (i : nat) (ks : list Node) :
  Forall (λ k, r1 k = r2 k) ks → select_kids r1 i ks = select_kids r2 i ks.
Proof.
  intros H. revert i. induction H as [|k ks Hk _ IH]; intros i; simpl; [done|].
  by rewrite Hk, IH.
Qed.

Lemma select_kids_alter (r : Node → list Handle) (g : Node → Node)
    (i j : nat) (ks : list Node) :
  (∀ k, r (g k) = r k) →
  select_kids r i (alter g j ks) = select_kids r i ks.
Proof.
  intros Hg. revert i j. induction ks as [|k ks IH]; intros i j; [done|].
  destruct j as [|j]; simpl.
  - by rewrite Hg.
  - f_equal. apply IH.
Qed.

Lemma select_in_unfold (sel : Selector) (n : Node) :
  select_in sel n =
  (if matches sel (nd_data n) then [[]] else []) ++ select_below sel n.
Proof. by destruct n. Qed.

Lemma select_in_alter (sel : Selector) (f : ElemData → ElemData)
    (p : Handle) (n : Node) :
  (∀ d, matches sel (f d) = matches sel d) →
  select_in sel (node_alter (on_data f) p n) = select_in sel n.
Proof.
  intros Hf. revert n. induction p as [|i p IH]; intros [d ks]; simpl.
  - by rewrite Hf.
  - f_equal. by apply select_kids_alter.
Qed.

Lemma elem_of_select_kids (r : Node → list Handle) (i : nat)
    (ks : list Node) (q : Handle) :
  q ∈ select_kids r i ks ↔
  ∃ j k p, ks !! j = Some k ∧ p ∈ r k ∧ q = (i + j)%nat :: p.
Proof.
  revert i. induction ks as [|k ks IH]; intros i; simpl.
  - rewrite elem_of_nil. split; [done|]. by intros (j & k & p & ? & _).
  - rewrite elem_of_app, list_elem_of_fmap, IH. split.
    + intros [(p & -> & Hp)|(j & k' & p & Hj & Hp & ->)].
      * exists 0%nat, k, p. by rewrite Nat.add_0_r.
      * exists (S j), k', p. split_and!; [done..|]. f_equal. lia.
    + intros (j & k' & p & Hj & Hp & ->). destruct j as [|j]; simpl in Hj.
      * left. exists p. rewrite Nat.add_0_r. by simplify_eq.
      * right. exists j, k', p. split_and!; [done..|]. f_equal. lia.
Qed.

(** Every selected handle designates an element of the tree, and that
    element matches the selector. *)
Lemma select_in_sound (sel : Selector) (n : Node) (q : Handle) :
  q ∈ select_in sel n →
  ∃ d, elem_data q n = Some d ∧ matches sel d = true.
Proof.
  revert q. induction n as [d ks IH] using Node_ind'; intros q.
  rewrite select_in_unfold, elem_of_app. intros [Hq|Hq].
  - simpl in Hq. destruct (matches sel d) eqn:Hm.
    + apply list_elem_of_singleton in Hq as ->. by exists d.
    + by apply elem_of_nil in Hq.
  - unfold select_below in Hq. simpl in Hq.
    apply elem_of_select_kids in Hq as (j & k & p & Hj & Hp & ->).
    rewrite Forall_lookup in IH. apply (IH _ _ Hj) in Hp as (d' & Hd & Hm).
    exists d'. split; [|done]. unfold elem_data in *. simpl. by rewrite Hj.
Qed.

Lemma select_in_complete (sel : Selector) (n : Node) (q : Handle) (d : ElemData) :
  elem_data q n = Some d → matches sel d = true → q ∈ select_in sel n.
Proof.
  revert n. induction q as [|j q IH]; intros [d0 ks] Hd Hm.
  - unfold elem_data in Hd. simpl in Hd. simplify_eq.
    rewrite select_in_unfold. simpl. rewrite Hm. set_solver.
  - unfold elem_data in Hd. simpl in Hd.
    destruct (ks !! j) as [k|] eqn:Hj; [|done].
    rewrite select_in_unfold, elem_of_app. right.
    unfold select_below. simpl. apply elem_of_select_kids.
    exists j, k, q. split_and!; [done| |done]. by apply IH.
Qed.

Lemma elem_of_select_in (sel : Selector) (n : Node) (q : Handle) :
  q ∈ select_in sel n ↔ ∃ d, elem_data q n = Some d ∧ matches sel d = true.
Proof.
  split; [apply select_in_sound|]. intros (d & ? & ?).
  by eapply select_in_complete.
Qed.

Lemma elem_querySelectorAll_sound (sel : Selector) (e q : Handle) (n : Node) :
  q ∈ elem_querySelectorAll sel e n →
  ∃ d, elem_data q n = Some d ∧ matches sel d = true.
Proof.
  unfold elem_querySelectorAll.
  destruct (node_lookup e n) as [m|] eqn:He; [|by rewrite elem_of_nil].
  rewrite list_elem_of_fmap. intros (p & -> & Hp).
  unfold select_below in Hp.
  apply elem_of_select_kids in Hp as (j & k & p' & Hj & Hp & ->).
  apply select_in_sound in Hp as (d & Hd & Hm). exists d. split; [|done].
  unfold elem_data in *. rewrite node_lookup_app, He. simpl. by rewrite Hj.
Qed.

Lemma elem_querySelector_sound (sel : Selector) (e q : Handle) (n : Node) :
  elem_querySelector sel e n = Some q →
  ∃ d, elem_data q n = Some d ∧ matches sel d = true.
Proof.
  unfold elem_querySelector. intros Hq.
  apply (elem_querySelectorAll_sound sel e). by eapply head_Some_elem_of.
Qed.

Lemma doc_querySelector_sound (sel : Selector) (q : Handle) (n : Node) :
  doc_querySelector sel n = Some q →
  ∃ d, elem_data q n = Some d ∧ matches sel d = true.
Proof.
  unfold doc_querySelector, doc_querySelectorAll. intros Hq.
  apply select_in_sound. by eapply head_Some_elem_of.
Qed.

(** *** [document.body] *)

Lemma find_index_Some {A} (f : A → bool) (i j : nat) (l : list A) :
  find_index f i l = Some j →
  ∃ x, l !! (j - i)%nat = Some x ∧ f x = true ∧ (i ≤ j)%nat.
Proof.
  revert i. induction l as [|x l IH]; intros i; simpl; [done|].
  destruct (f x) eqn:Hx.
  - intros [= ->]. exists x. by rewrite Nat.sub_diag.
  - intros (y & Hy & Hfy & Hle)%IH. exists y.
    replace (j - i)%nat with (S (j - S i)) by lia. split_and!; [done..|lia].
Qed.

Lemma find_index_ext {A} (f : A → bool) (i : nat) (l l' : list A) :
  Forall2 (λ x y, f x = f y) l l' → find_index f i l = find_index f i l'.
Proof.
  intros H. revert i. induction H as [|x y l l' Hxy _ IH]; intros i; simpl.
  - done.
  - rewrite Hxy. by rewrite IH.
Qed.

Lemma doc_body_valid (b : Handle) (n : Node) :
  doc_body n = Some b → is_Some (elem_data b n).
Proof.
  unfold doc_body. destruct (find_index _ _ _) as [i|] eqn:Hi; [|done].
  intros [= <-]. apply find_index_Some in Hi as (k & Hk & _ & _).
  rewrite Nat.sub_0_r in Hk. unfold elem_data. simpl. rewrite Hk. by eexists.
Qed.

Lemma tagName_node_alter (f : ElemData → ElemData) (p : Handle) (n : Node) :
  keeps_tag f →
  tagName (nd_data (node_alter (on_data f) p n)) = tagName (nd_data n).
Proof. intros Hf. destruct p; simpl; [apply Hf | done]. Qed.

Lemma doc_body_alter (f : ElemData → ElemData) (p : Handle) (n : Node) :
  keeps_tag f → doc_body (node_alter (on_data f) p n) = doc_body n.
Proof.
  intros Hf. unfold doc_body. f_equal. destruct p as [|i p]; simpl; [done|].
  apply find_index_ext. apply Forall2_same_length_lookup. split.
  - by rewrite length_alter.
  - intros j x y Hx Hy. destruct (decide (i = j)) as [->|Hij].
    + rewrite list_lookup_alter_eq, Hy in Hx. simpl in Hx. simplify_eq.
      unfold is_body. by rewrite tagName_node_alter.
    + rewrite list_lookup_alter_ne in Hx by done. congruence.
Qed.

(* ================================================================== *)
(** * Reasoning about the script *)
(* ================================================================== *)

Lemma wp_elim {A} (m : JS A) (Q : A → State → Prop) (s : State) :
  wp m Q s → ∃ a s', m s = Normal a s' ∧ Q a s'.
Proof. unfold wp. destruct (m s) as [a s'|]; [eauto | done]. Qed.

Lemma wp_intro {A} (m : JS A) (Q : A → State → Prop) (s s' : State) (a : A) :
  m s = Normal a s' → Q a s' → wp m Q s.
Proof. unfold wp. by intros ->. Qed.

Lemma wp_mono {A} (m : JS A) (Q Q' : A → State → Prop) (s : State) :
  (∀ a s', Q a s' → Q' a s') → wp m Q s → wp m Q' s.
Proof. unfold wp. destruct (m s); [auto | done]. Qed.

Lemma wp_ret {A} (a : A) (Q : A → State → Prop) (s : State) :
  Q a s → wp (mret a) Q s.
Proof. done. Qed.

Lemma wp_bind {A B} (m : JS A) (k : A → JS B) (Q : B → State → Prop)
    (s : State) :
  wp m (λ a s', wp (k a) Q s') s → wp (m ≫= k) Q s.
Proof.
  unfold wp, mbind, JS_bind. by destruct (m s).
Qed.

Lemma wp_gets {A} (f : State → A) (Q : A → State → Prop) (s : State) :
  Q (f s) s → wp (gets f) Q s.
Proof. done. Qed.

Lemma wp_modify (f : State → State) (Q : unit → State → Prop) (s : State) :
  Q () (f s) → wp (modify f) Q s.
Proof. done. Qed.

Lemma wp_deref {A} (h : Handle) (k : Handle → JS A) (Q : A → State → Prop)
    (s : State) :
  wp (k h) Q s → wp (deref (Some h) k) Q s.
Proof. done. Qed.

Lemma wp_nav_var {A} (f : Nav.Scope → A) (Q : A → State → Prop) (s : State)
    (sc : Nav.Scope) :
  nav s = Some sc → Q (f sc) s → wp (nav_var f) Q s.
Proof. unfold wp, nav_var. by intros ->. Qed.

Lemma wp_nav_assign (f : Nav.Scope → Nav.Scope) (Q : unit → State → Prop)
    (s : State) (sc : Nav.Scope) :
  nav s = Some sc → Q () (set_nav (fmap f) s) → wp (nav_assign f) Q s.
Proof.
  intros Hs HQ. unfold nav_assign. apply wp_bind.
  eapply wp_nav_var; [done|]. by apply wp_modify.
Qed.

Lemma wp_counter_var {A} (i : nat) (f : CounterScope → A)
    (Q : A → State → Prop) (s : State) (sc : CounterScope) :
  counters s !! i = Some sc → Q (f sc) s → wp (counter_var i f) Q s.
Proof. unfold wp, counter_var. by intros ->. Qed.

Lemma wp_menu_var {A} (f : Menu.Scope → A) (Q : A → State → Prop) (s : State)
    (sc : Menu.Scope) :
  menu s = Some sc → Q (f sc) s → wp (menu_var f) Q s.
Proof. unfold wp, menu_var. by intros ->. Qed.

Lemma wp_menu_assign (f : Menu.Scope → Menu.Scope) (Q : unit → State → Prop)
    (s : State) (sc : Menu.Scope) :
  menu s = Some sc → Q () (set_menu (fmap f) s) → wp (menu_assign f) Q s.
Proof.
  intros Hs HQ. unfold menu_assign. apply wp_bind.
  eapply wp_menu_var; [done|]. by apply wp_modify.
Qed.

(** A loop, with an invariant indexed by the items already visited. *)
Lemma wp_forEach {A} (I : list A → State → Prop) (l : list A)
    (f : A → JS unit) (s : State) :
  I [] s →
  (∀ done x rest s', l = done ++ x :: rest → I done s' →
     wp (f x) (λ _, I (done ++ [x])) s') →
  wp (forEach l f) (λ _, I l) s.
Proof.
  intros H0 Hstep.
  cut (∀ done rest s', l = done ++ rest → I done s' →
         wp (forEach rest f) (λ _, I l) s').
  { intros Hcut. by apply (Hcut [] l). }
  intros done rest. revert done.
  induction rest as [|x rest IH]; intros done s' Hl HI.
  - rewrite app_nil_r in Hl. subst. by apply wp_ret.
  - simpl. apply wp_bind. eapply wp_mono; [|by eapply Hstep].
    intros [] s'' HI'. simpl in HI'. apply (IH (done ++ [x])); [|done].
    by rewrite <-app_assoc.
Qed.

Section invariant.
Context (P : State → Prop).

Lemma invariant_ret {A} (a : A) : invariant P (mret a : JS A).
Proof. by intros s. Qed.

Lemma invariant_bind {A B} (m : JS A) (k : A → JS B) :
  invariant P m → (∀ a, invariant P (k a)) → invariant P (m ≫= k).
Proof.
  intros Hm Hk s Hs. unfold mbind, JS_bind.
  specialize (Hm s Hs). destruct (m s) as [a s'|e s']; simpl in *; [|done].
  by apply Hk.
Qed.

Lemma invariant_gets {A} (f : State → A) : invariant P (gets f).
Proof. by intros s. Qed.

Lemma invariant_throw {A} (e : string) : invariant P (throw e : JS A).
Proof. by intros s. Qed.

Lemma invariant_modify (f : State → State) :
  (∀ s, P s → P (f s)) → invariant P (modify f).
Proof. intros Hf s. apply Hf. Qed.

Lemma invariant_deref {A} (v : option Handle) (k : Handle → JS A) :
  (∀ h, invariant P (k h)) → invariant P (deref v k).
Proof. intros Hk. destruct v; [apply Hk | by intros s]. Qed.

Lemma invariant_forEach {A} (l : list A) (f : A → JS unit) :
  (∀ x, invariant P (f x)) → invariant P (forEach l f).
Proof.
  intros Hf. induction l as [|x l IH]; [by intros s|].
  simpl. by apply invariant_bind.
Qed.

Lemma invariant_nav_var {A} (f : Nav.Scope → A) : invariant P (nav_var f).
Proof. intros s. unfold nav_var. by destruct (nav s). Qed.

Lemma invariant_menu_var {A} (f : Menu.Scope → A) :
  invariant P (menu_var f).
Proof. intros s. unfold menu_var. by destruct (menu s). Qed.

Lemma invariant_counter_var {A} (i : nat) (f : CounterScope → A) :
  invariant P (counter_var i f).
Proof. intros s. unfold counter_var. by destruct (counters s !! i). Qed.

(** An invariant that does not look at the console survives an uncaught
    exception. *)
Lemma invariant_settle (m : JS unit) :
  (∀ s c, P s → P (set_console c s)) →
  invariant P m → ∀ s, P s → P (settle (m s)).
Proof.
  intros Hc Hm s Hs. specialize (Hm s Hs). unfold settle.
  destruct (m s); simpl in *; [done|]. by apply Hc.
Qed.

Lemma invariant_run_all {A} (run : A → JS unit) (cbs : list A) :
  (∀ s c, P s → P (set_console c s)) →
  (∀ cb, cb ∈ cbs → invariant P (run cb)) →
  ∀ s, P s → P (run_all run cbs s).
Proof.
  intros Hc. unfold run_all.
  induction cbs as [|cb cbs IH]; intros Hrun s Hs; simpl; [done|].
  apply IH; [intros; apply Hrun; set_solver|].
  apply invariant_settle; [done| |done]. apply Hrun. set_solver.
Qed.
End invariant.

Lemma preserves_invariant {A X} (obs : State → X) (m : JS A) :
  (∀ x, invariant (λ s, obs s = x) m) → preserves obs m.
Proof. intros H s. by apply (H (obs s)). Qed.

Lemma invariant_preserves {A X} (obs : State → X) (P : X → Prop) (m : JS A) :
  preserves obs m → invariant (λ s, P (obs s)) m.
Proof. intros H s Hs. by rewrite H. Qed.

Lemma preserves_settle {X} (obs : State → X) (m : JS unit) :
  (∀ s c, obs (set_console c s) = obs s) →
  preserves obs m → ∀ s, obs (settle (m s)) = obs s.
Proof.
  intros Hc Hm s. specialize (Hm s). unfold settle.
  destruct (m s); simpl in *; [done|]. by rewrite Hc.
Qed.

Lemma preserves_run_all {A X} (obs : State → X) (run : A → JS unit)
    (cbs : list A) :
  (∀ s c, obs (set_console c s) = obs s) →
  (∀ cb, cb ∈ cbs → preserves obs (run cb)) →
  ∀ s, obs (run_all run cbs s) = obs s.
Proof.
  intros Hc. unfold run_all.
  induction cbs as [|cb cbs IH]; intros Hrun s; simpl; [done|].
  rewrite IH by (intros; apply Hrun; set_solver).
  apply preserves_settle; [done|]. apply Hrun. set_solver.
Qed.

(** Structural steps of an invariance proof; [leaf] closes the goals
    about single state updates. *)
Ltac invariant_step leaf :=
  lazymatch goal with
  | |- preserves _ _ => apply preserves_invariant; intros ?
  | |- invariant _ (mret _) => apply invariant_ret
  | |- invariant _ (_ ≫= _) => apply invariant_bind; [|intros ?]
  | |- invariant _ (gets _) => apply invariant_gets
  | |- invariant _ (throw _) => apply invariant_throw
  | |- invariant _ (deref _ _) => apply invariant_deref; intros ?
  | |- invariant _ (forEach _ _) => apply invariant_forEach; intros ?
  | |- invariant _ (nav_var _) => apply invariant_nav_var
  | |- invariant _ (menu_var _) => apply invariant_menu_var
  | |- invariant _ (counter_var _ _) => apply invariant_counter_var
  | |- invariant _ (if ?b then _ else _) => destruct b
  | |- invariant _ (match ?v with Some _ => _ | None => _ end) => destruct v
  | |- invariant _ (modify _) => apply invariant_modify; leaf
  end.

Ltac unfold_ops :=
  unfold console_log, console_warn, classList_add, classList_remove,
    style_assign, style_read, setAttribute, getAttribute, read_scrollHeight,
    assign_textContent, querySelector, querySelectorAll,
    document_querySelector, document_querySelectorAll,
    document_getElementById, document_body, elem_addEventListener,
    addEventListener, setTimeout, requestAnimationFrame, scrollTo,
    update_elem, nav_assign, menu_assign, gsap_call, new_counter_scope.

Ltac invariant_auto leaf := unfold_ops; repeat invariant_step leaf.

(** Observations that an update of another field leaves alone. *)
Ltac preserves_field :=
  invariant_auto ltac:(by (intros ? <-)).

(** Structural steps of a weakest-precondition proof. *)
Ltac wp_step :=
  cbn beta;
  lazymatch goal with
  | |- wp (mret _) _ _ => apply wp_ret
  | |- wp (_ ≫= _) _ _ => apply wp_bind
  | |- wp (gets _) _ _ => apply wp_gets
  | |- wp (modify _) _ _ => apply wp_modify
  | |- wp (deref (Some _) _) _ _ => apply wp_deref
  end.

Ltac wp_auto := unfold_ops; repeat wp_step.

(* ================================================================== *)
(** * The functions of the script, as equations *)
(* ================================================================== *)

Lemma completes_wp {A} (m : JS A) (s : State) :
  completes (m s) = true ↔ wp m (λ _ _, True) s.
Proof. unfold wp, completes. destruct (m s); naive_solver. Qed.

Lemma completes_bind {A B} (m : JS A) (k : A → JS B) (s : State) :
  completes (m s) = true →
  (∀ a s', completes (k a s') = true) →
  completes ((m ≫= k) s) = true.
Proof.
  unfold mbind, JS_bind. destruct (m s); simpl; [auto | done].
Qed.

Lemma updateNav_eq (s : State) (sc : Nav.Scope) (nb : Handle) :
  nav s = Some sc → Nav.navbar sc = Some nb →
  updateNav s = Normal ()
    (let y := scrollY_of (window s) in
     let sc' := Some (Nav.mk (Some nb) (Nav.mainHeader sc) (50 <? y) false) in
     if (50 <? y) && negb (Nav.isScrolled sc) then
       mkState (to_pill nb (document s)) (window s) (readyState s)
         (console s ++ [(LLog, "📍 Nav: pill mode")]) (listeners s)
         (timers s) (frames s) (clock s) (globals s) sc' (menu s)
         (counters s) (gsapCalls s)
     else if (y <=? 50) && Nav.isScrolled sc then
       mkState (to_expanded nb (document s)) (window s) (readyState s)
         (console s ++ [(LLog, "📍 Nav: transparent mode")]) (listeners s)
         (timers s) (frames s) (clock s) (globals s) sc' (menu s)
         (counters s) (gsapCalls s)
     else set_nav (λ _, sc') s).
Proof.
  intros Hs Hnb.
  destruct s as [d w rs c ls ts fs ck g nv mn cs gc], sc as [? ? scrolled ?].
  simpl in *. subst.
  unfold updateNav. unfold_ops.
  unfold mbind, JS_bind, gets, modify, nav_var, deref. cbn.
  destruct (50 <? _) eqn:Hy; destruct scrolled; cbn; try reflexivity.
  - assert ((scrollY_of w <=? 50) = false) as -> by lia. reflexivity.
  - assert ((scrollY_of w <=? 50) = true) as -> by lia. reflexivity.
  - destruct (_ <=? 50); reflexivity.
Qed.

Lemma updateNav_no_navbar (s : State) (sc : Nav.Scope) :
  nav s = Some sc → Nav.navbar sc = None →
  document (final_state (updateNav s)) = document s ∧
  frames (final_state (updateNav s)) = frames s.
Proof.
  intros Hs Hnb. destruct s, sc as [? ? scrolled ?]; simpl in *; subst.
  unfold updateNav. unfold_ops.
  unfold mbind, JS_bind, gets, modify, nav_var, deref. cbn.
  destruct (50 <? _); destruct scrolled; cbn; try done;
    destruct (_ <=? 50); done.
Qed.

Lemma updateNav_no_scope (s : State) :
  nav s = None → ∃ e, updateNav s = Throws e s.
Proof.
  intros Hs. unfold updateNav, mbind, JS_bind, gets, nav_var.
  rewrite Hs. eauto.
Qed.

Lemma requestTick_eq (s : State) (sc : Nav.Scope) :
  nav s = Some sc →
  requestTick s = Normal ()
    (if Nav.ticking sc then s
     else set_nav (fmap (set_ticking true))
            (set_frames (λ fs, fs ++ [FC_updateNav]) s)).
Proof.
  intros Hs. destruct s, sc as [? ? ? []]; simpl in *; subst; reflexivity.
Qed.

Lemma requestTick_no_scope (s : State) :
  nav s = None → ∃ e, requestTick s = Throws e s.
Proof.
  intros Hs. unfold requestTick, mbind, JS_bind, nav_var.
  rewrite Hs. eauto.
Qed.

Lemma initNavigation_absent (s : State) :
  nav_elements_present s = false →
  initNavigation s = Normal () (warned "⚠️ Navbar not found" s).
Proof.
  unfold nav_elements_present, initNavigation, document_querySelector.
  unfold mbind, JS_bind, gets. intros H.
  destruct (doc_querySelector (ById "navbar") _);
    destruct (doc_querySelector (ById "main-header") _); done.
Qed.

Lemma initNavigation_present (s : State) (nb mh : Handle) :
  doc_querySelector (ById "navbar") (document s) = Some nb →
  doc_querySelector (ById "main-header") (document s) = Some mh →
  initNavigation s = updateNav (nav_ready nb mh s).
Proof.
  intros Hnb Hmh.
  unfold initNavigation, document_querySelector, mbind, JS_bind, gets.
  by rewrite Hnb, Hmh.
Qed.

Lemma initNavigation_completes (s : State) :
  completes (initNavigation s) = true.
Proof.
  destruct (nav_elements_present s) eqn:Hp.
  - unfold nav_elements_present in Hp.
    destruct (doc_querySelector (ById "navbar") _) as [nb|] eqn:Hnb; [|done].
    destruct (doc_querySelector (ById "main-header") _) as [mh|] eqn:Hmh;
      [|done].
    rewrite (initNavigation_present s nb mh) by done.
    by erewrite updateNav_eq.
  - by rewrite initNavigation_absent.
Qed.

Lemma updateNav_ignores_mainHeader (s : State) (v : option Handle) :
  updateNav (set_nav (fmap (set_nav_mainHeader v)) s) =
  outcome_map (set_nav (fmap (set_nav_mainHeader v))) (updateNav s).
Proof.
  destruct s as [? ? ? ? ? ? ? ? ? [[[nb|] ? scrolled ?]|] ? ? ?];
    try reflexivity.
  all: unfold updateNav; unfold_ops;
    unfold mbind, JS_bind, gets, modify, nav_var, deref; cbn;
    destruct (50 <? _); destruct scrolled; cbn; try reflexivity;
    destruct (_ <=? 50); reflexivity.
Qed.

Lemma updateNav_touches_navbar_only (s : State) (q : Handle) :
  (∀ sc, nav s = Some sc → Nav.navbar sc ≠ Some q) →
  elem_data q (document (final_state (updateNav s))) =
  elem_data q (document s).
Proof.
  intros Hq. destruct (nav s) as [sc|] eqn:Hs.
  - destruct (Nav.navbar sc) as [nb|] eqn:Hnb.
    + rewrite (updateNav_eq s sc nb) by done. cbn zeta.
      assert (nb ≠ q) by (intros ->; by eapply Hq).
      repeat case_match; simpl; unfold to_pill, to_expanded;
        by rewrite ?elem_data_alter_ne.
    + by rewrite (proj1 (updateNav_no_navbar s sc Hs Hnb)).
  - destruct (updateNav_no_scope s Hs) as [e ->]. done.
Qed.

Lemma initMobileMenu_absent (s : State) :
  menu_elements_present s = false →
  initMobileMenu s = Normal () (warned "⚠️ Menu elements not found" s).
Proof.
  unfold menu_elements_present, initMobileMenu, document_getElementById.
  unfold mbind, JS_bind, gets. intros H.
  destruct (doc_querySelector (ById "menu-btn") _);
    destruct (doc_querySelector (ById "main-header") _);
    destruct (doc_querySelector (ById "mobile-menu") _); done.
Qed.

Lemma initMobileMenu_completes (s : State) :
  completes (initMobileMenu s) = true.
Proof.
  destruct (menu_elements_present s) eqn:Hp;
    [|by rewrite initMobileMenu_absent].
  unfold menu_elements_present in Hp. apply completes_wp.
  unfold initMobileMenu, document_getElementById.
  destruct (doc_querySelector (ById "menu-btn") _) as [mb|] eqn:Hmb; [|done].
  destruct (doc_querySelector (ById "main-header") _) as [mh|] eqn:Hmh;
    [|done].
  destruct (doc_querySelector (ById "mobile-menu") _) as [mm|] eqn:Hmm;
    [|done].
  apply wp_bind, wp_gets. rewrite Hmb.
  apply wp_bind, wp_gets. rewrite Hmh.
  apply wp_bind, wp_gets. rewrite Hmm. cbn [truthy negb orb].
  wp_auto.
  eapply wp_mono;
    [|apply (wp_forEach (λ _ _, True)); [done|intros; by wp_auto]].
  intros _ s' _. wp_auto.
  destruct (elem_querySelector _ _ _) as [cb|]; cbn [truthy andb]; [|done].
  case_bool_decide; cbn [negb]; [done | by wp_auto].
Qed.

Lemma initAccordion_eq (s : State) :
  initAccordion s = Normal ()
    (set_timers (λ ts, ts ++ [mkTimer (clock s + 300) TC_openFirst])
       (set_globals (set_toggleAccordion_defined true)
          (logged "🎵 Accordion initialized" s))).
Proof. reflexivity. Qed.

Lemma openFirst_no_item (s : State) :
  accordion_elements_present s = false → openFirst s = Normal () s.
Proof.
  unfold accordion_elements_present, openFirst, document_querySelector.
  unfold mbind, JS_bind, gets.
  by destruct (doc_querySelector (ByClass "accordion-item") _).
Qed.

Lemma initViewportFix_completes `{Double} (s : State) :
  completes (initViewportFix s) = true.
Proof. reflexivity. Qed.

Lemma initAll_completes `{Double} (s : State) :
  completes (initAll s) = true.
Proof.
  unfold initAll.
  apply completes_bind; [done|intros _ ?].
  apply completes_bind; [done|intros _ ?].
  apply completes_bind; [apply initNavigation_completes|intros _ ?].
  apply completes_bind; [apply initMobileMenu_completes|intros _ ?].
  apply completes_bind; [done|intros _ ?].
  apply initViewportFix_completes.
Qed.

(* ================================================================== *)
(** * The invariant of the event loop *)
(* ================================================================== *)

Lemma core_inv_obs (s s' : State) :
  obs_sched s' = obs_sched s → core_inv s → core_inv s'.
Proof.
  unfold obs_sched. intros Hobs (H1 & H2 & H3).
  injection Hobs as Hl Hr Hn Hf.
  unfold core_inv, ticking_of. by rewrite Hl, Hn, Hf.
Qed.

Lemma page_inv_obs (s s' : State) :
  obs_sched s' = obs_sched s → page_inv s → page_inv s'.
Proof.
  intros Hobs (Hcore & Hload & Hstart). split_and!.
  - by eapply core_inv_obs.
  - unfold obs_sched in Hobs. injection Hobs as Hl Hr Hn Hf.
    by rewrite Hl, Hr, Hn.
  - unfold obs_sched in Hobs. injection Hobs as Hl Hr Hn Hf.
    unfold started. by rewrite Hl, Hr.
Qed.

Lemma sched_setVH `{Double} : preserves obs_sched setVH.
Proof. unfold setVH. preserves_field. Qed.

Lemma sched_toggle : preserves obs_sched toggle.
Proof. unfold toggle, openMenu, closeMenu. preserves_field. Qed.

Lemma sched_closeMenu : preserves obs_sched closeMenu.
Proof. unfold closeMenu. preserves_field. Qed.

Lemma sched_toggleAccordion e : preserves obs_sched (toggleAccordion e).
Proof. unfold toggleAccordion. preserves_field. Qed.

Lemma sched_run_timer cb : preserves obs_sched (run_timer cb).
Proof.
  destruct cb; unfold run_timer, startAnimations, initAnimations, hideMenu,
    openFirst, toggleAccordion; preserves_field.
Qed.

Lemma sched_counter_tick i v : preserves obs_sched (counter_tick i v).
Proof. unfold counter_tick, counter_onUpdate. preserves_field. Qed.

(** Listeners found for a target and a type are registered for them. *)
Lemma elem_of_listeners_for (l : Listener) (t : Target) (ty : string)
    (s : State) :
  l ∈ listeners_for t ty s ↔ mkReg t ty l ∈ listeners s.
Proof.
  unfold listeners_for. rewrite list_elem_of_fmap. split.
  - intros ([t' ty' l'] & -> & Hr). apply list_elem_of_filter in Hr.
    simpl in *. by destruct Hr as [[-> ->] ?].
  - intros Hr. exists (mkReg t ty l). split; [done|].
    by apply list_elem_of_filter.
Qed.

Lemma listeners_for_ok (l : Listener) (t : Target) (ty : string) (s : State) :
  Forall listener_ok (listeners s) → l ∈ listeners_for t ty s →
  listener_ok (mkReg t ty l).
Proof.
  rewrite Forall_forall, elem_of_listeners_for. auto.
Qed.

(** An invariant of the listeners that can run survives the dispatch of
    an event along any path. *)
Lemma bubble_inv `{Double} (P : State → Prop) (ty : string) :
  (∀ s c, P s → P (set_console c s)) →
  (∀ s t l, P s → l ∈ listeners_for t ty s → invariant P (run_listener l)) →
  ∀ path s, P s → P (bubble ty path s).
Proof.
  intros Hc Hl path. induction path as [|t path IH]; intros s Hs; [done|].
  simpl.
  assert (P (run_all run_listener (listeners_for t ty s) s)) as Hs'.
  { apply invariant_run_all; [done| |done]. intros l Hin. by eapply Hl. }
  destruct (existsb _ _); [done|]. by apply IH.
Qed.

Lemma wp_of_invariant {A} (P : State → Prop) (m : JS A) (s : State) :
  invariant P m → completes (m s) = true → P s → wp m (λ _, P) s.
Proof.
  intros Hm Hc Hs. specialize (Hm s Hs). unfold wp.
  by destruct (m s).
Qed.

Lemma wp_final_state {A} (m : JS A) (Q : State → Prop) (s : State) :
  wp m (λ _, Q) s → Q (final_state (m s)).
Proof. unfold wp. by destruct (m s). Qed.

Lemma starting_obs (b : bool) (s s' : State) :
  obs_sched s' = obs_sched s → starting b s → starting b s'.
Proof.
  intros Hobs (Hcore & Hf & Hr & Hst). split_and!.
  - by eapply core_inv_obs.
  - unfold obs_sched in Hobs. injection Hobs as Hl Hrs Hn Hfs. congruence.
  - unfold obs_sched in Hobs. injection Hobs as Hl Hrs Hn Hfs. congruence.
  - unfold obs_sched in Hobs. injection Hobs as Hl Hrs Hn Hfs.
    unfold started. rewrite Hl. done.
Qed.

Lemma core_inv_add_listener (r : Registration) (s : State) :
  listener_ok r → core_inv s →
  core_inv (set_listeners
              (λ rs, if decide (r ∈ rs) then rs else rs ++ [r]) s).
Proof.
  intros Hr (Hl & Hn & Hf). split_and!; simpl.
  - case_decide; [done|]. apply Forall_app. split; [done|]. by constructor.
  - intros sc Hsc. destruct (Hn sc Hsc) as [? ?]. split; [done|].
    case_decide; [done|]. set_solver.
  - done.
Qed.

Lemma starting_add_listener (b : bool) (r : Registration) (s : State) :
  listener_ok r → starting b s →
  starting b (set_listeners
                (λ rs, if decide (r ∈ rs) then rs else rs ++ [r]) s).
Proof.
  intros Hr (Hcore & Hf & Hrs & Hst). split_and!; try done.
  - by apply core_inv_add_listener.
  - intros Hb. destruct (Hst Hb) as [? ?]. unfold started. simpl.
    case_decide; [done|]. set_solver.
Qed.

Ltac starting_leaf :=
  let s := fresh "s" in let Hs := fresh "Hs" in
  intros s Hs;
  first [ by apply (starting_obs _ s)
        | apply starting_add_listener;
            [unfold listener_ok; simpl; naive_solver | done] ].

Lemma updateNav_sched (s : State) (sc : Nav.Scope) (nb : Handle) :
  nav s = Some sc → Nav.navbar sc = Some nb →
  ∃ s', updateNav s = Normal () s' ∧
    listeners s' = listeners s ∧ readyState s' = readyState s ∧
    frames s' = frames s ∧
    nav s' = Some (Nav.mk (Some nb) (Nav.mainHeader sc)
                     (50 <? scrollY_of (window s)) false).
Proof.
  intros Hs Hnb. rewrite (updateNav_eq s sc nb) by done.
  eexists. split; [done|]. cbn zeta. by repeat case_match.
Qed.

Lemma starting_initNavigation (b : bool) : invariant (starting b) initNavigation.
Proof.
  intros s Hs. destruct (nav_elements_present s) eqn:Hp.
  - unfold nav_elements_present in Hp.
    destruct (doc_querySelector (ById "navbar") _) as [nb|] eqn:Hnb; [|done].
    destruct (doc_querySelector (ById "main-header") _) as [mh|] eqn:Hmh;
      [|done].
    rewrite (initNavigation_present s nb mh) by done.
    destruct (updateNav_sched (nav_ready nb mh s) _ nb eq_refl eq_refl)
      as (s' & -> & Hl & Hr & Hf & Hn).
    destruct Hs as ((Hok & Hnav & Hfr) & Hf0 & Hrs & Hst).
    change (starting b s'). simpl in Hl, Hr, Hf, Hn.
    assert (mkReg T_window "scroll" L_requestTick ∈ listeners s').
    { rewrite Hl. case_decide; [done|set_solver]. }
    unfold starting, core_inv. split_and!.
    + rewrite Hl. case_decide; [done|]. apply Forall_app. split; [done|].
      by constructor.
    + rewrite Hn. intros sc [= <-]. simpl. split; [by eexists|done].
    + unfold ticking_of. rewrite Hn, Hf. done.
    + congruence.
    + congruence.
    + intros Hb. destruct (Hst Hb). unfold started. rewrite Hl.
      case_decide; [done|]. set_solver.
  - rewrite initNavigation_absent by done. by apply (starting_obs _ s).
Qed.

Lemma starting_initMobileMenu (b : bool) : invariant (starting b) initMobileMenu.
Proof. unfold initMobileMenu. invariant_auto starting_leaf. Qed.

Lemma starting_initAccordion (b : bool) : invariant (starting b) initAccordion.
Proof. unfold initAccordion. invariant_auto starting_leaf. Qed.

Lemma initViewportFix_eq `{Double} (s : State) :
  initViewportFix s = Normal ()
    (set_listeners
       (λ rs, if decide (mkReg T_window "orientationchange" L_setVH ∈ rs)
              then rs else rs ++ [mkReg T_window "orientationchange" L_setVH])
       (set_listeners
          (λ rs, if decide (mkReg T_window "resize" L_setVH ∈ rs)
                 then rs else rs ++ [mkReg T_window "resize" L_setVH])
          (set_document
             (node_alter
                (on_data (with_style
                   (style_set "--vh" (vh_value (innerHeight (window s))))))
                [])
             s))).
Proof. reflexivity. Qed.

Lemma starting_initViewportFix `{Double} (b : bool) (s : State) :
  starting b s → starting true (final_state (initViewportFix s)).
Proof.
  intros Hs. rewrite initViewportFix_eq. cbn [final_state].
  match goal with |- starting true ?s' => assert (starting b s') as Hs' end.
  { apply starting_add_listener; [unfold listener_ok; simpl; auto|].
    apply starting_add_listener; [unfold listener_ok; simpl; auto|].
    by apply (starting_obs _ s). }
  destruct Hs' as (Hcore & Hf & Hrs & _). split_and!; try done.
  intros _. unfold started. simpl. split; repeat case_decide; set_solver.
Qed.

Lemma wp_seq_invariant {A B} (P : State → Prop) (m : JS A) (k : A → JS B)
    (Q : B → State → Prop) (s : State) :
  invariant P m → completes (m s) = true → P s →
  (∀ a s', P s' → wp (k a) Q s') →
  wp (m ≫= k) Q s.
Proof.
  intros Hm Hc Hs Hk. apply wp_bind.
  eapply wp_mono; [|by apply (wp_of_invariant P)].
  intros a s' Hs'. by apply Hk.
Qed.

Lemma starting_initAll `{Double} (b : bool) (s : State) :
  starting b s → starting true (final_state (initAll s)).
Proof.
  intros Hs. apply (wp_final_state initAll). unfold initAll.
  apply (wp_seq_invariant (starting b)); [|done|done|intros _ s1 Hs1].
  { unfold console_log. invariant_auto starting_leaf. }
  apply (wp_seq_invariant (starting b)); [|done|done|intros _ s2 Hs2].
  { unfold setTimeout. invariant_auto starting_leaf. }
  apply (wp_seq_invariant (starting b));
    [apply starting_initNavigation|apply initNavigation_completes|done|].
  intros _ s3 Hs3.
  apply (wp_seq_invariant (starting b));
    [apply starting_initMobileMenu|apply initMobileMenu_completes|done|].
  intros _ s4 Hs4.
  apply (wp_seq_invariant (starting b));
    [apply starting_initAccordion|done|done|].
  intros _ s5 Hs5.
  pose proof (starting_initViewportFix b s5 Hs5) as H6.
  rewrite initViewportFix_eq in *. done.
Qed.

Lemma page_inv_of_starting (s : State) : starting true s → page_inv s.
Proof. intros (Hcore & Hf & Hrs & Hst). split_and!; [done|done|auto]. Qed.

Lemma page_inv_preserves {A} (m : JS A) :
  preserves obs_sched m → invariant page_inv m.
Proof. intros Hm s Hs. by apply (page_inv_obs s). Qed.

Lemma page_inv_console (s : State) c : page_inv s → page_inv (set_console c s).
Proof. by apply page_inv_obs. Qed.

Lemma page_inv_requestTick : invariant page_inv requestTick.
Proof.
  intros s Hs. destruct (nav s) as [sc|] eqn:Hnav.
  - rewrite (requestTick_eq s sc) by done. simpl.
    destruct (Nav.ticking sc) eqn:Ht; [done|].
    destruct Hs as ((Hok & Hn & Hfr) & Hload & Hst).
    unfold ticking_of in Hfr. rewrite Hnav in Hfr. simpl in Hfr.
    rewrite Ht in Hfr.
    split_and!; [split_and!|..]; simpl; try done.
    + rewrite Hnav. intros sc' [= <-]. simpl. by apply Hn.
    + unfold ticking_of. simpl. rewrite Hnav, Hfr. done.
    + intros Hl. destruct (Hload Hl) as [? ?]. congruence.
  - destruct (requestTick_no_scope s Hnav) as [e ->]. done.
Qed.

Lemma page_inv_run_listener `{Double} (ty : string) (l : Listener) (s : State) (t : Target) :
  ty ≠ "DOMContentLoaded" →
  page_inv s → l ∈ listeners_for t ty s → invariant page_inv (run_listener l).
Proof.
  intros Hty Hs Hl.
  assert (listener_ok (mkReg t ty l)) as Hok.
  { eapply listeners_for_ok; [|done]. apply Hs. }
  destruct l; simpl.
  - by destruct Hok.
  - apply page_inv_preserves, sched_setVH.
  - apply page_inv_requestTick.
  - apply page_inv_preserves. unfold toggle, openMenu, closeMenu.
    preserves_field.
  - apply page_inv_preserves. unfold closeMenu. preserves_field.
  - apply page_inv_preserves. unfold closeMenu. preserves_field.
Qed.

Lemma page_inv_frame `{Double} (s : State) :
  page_inv s → page_inv (step E_frame s).
Proof.
  intros Hs. pose proof Hs as ((Hok & Hn & Hfr) & Hload & Hst). simpl.
  destruct (ticking_of s) eqn:Ht; rewrite Hfr.
  - unfold ticking_of in Ht.
    destruct (nav s) as [sc|] eqn:Hnav; [|done]. simpl in Ht.
    destruct (Hn sc eq_refl) as [[nb Hnb] Hreg].
    unfold run_all. simpl.
    destruct (updateNav_sched (set_frames (λ _, []) s) sc nb Hnav Hnb)
      as (s' & -> & Hl' & Hr' & Hf' & Hn'). simpl in *.
    split_and!; [split_and!|..].
    + by rewrite Hl'.
    + rewrite Hn', Hl'. intros sc' [= <-]. simpl. split; [by eexists|done].
    + unfold ticking_of. rewrite Hn', Hf'. done.
    + rewrite Hr'. intros Hl. destruct (Hload Hl). congruence.
    + unfold started. rewrite Hr', Hl'. done.
  - unfold run_all. simpl. apply (page_inv_obs s); [|done].
    unfold obs_sched. simpl. by rewrite Hfr.
Qed.

Lemma bubble_cons `{Double} (ty : string) (t : Target) (rest : list Target)
    (s : State) :
  bubble ty (t :: rest) s =
  if existsb stops_propagation (listeners_for t ty s)
  then run_all run_listener (listeners_for t ty s) s
  else bubble ty rest (run_all run_listener (listeners_for t ty s) s).
Proof. reflexivity. Qed.

Lemma page_inv_DOMContentLoaded `{Double} (s : State) :
  page_inv s → page_inv (step E_DOMContentLoaded s).
Proof.
  intros Hs. unfold step. case_decide as Hl; [|done].
  destruct Hs as ((Hok & Hn & Hfr) & Hload & Hst).
  destruct (Hload Hl) as [Hnav Hreg].
  unfold ticking_of in Hfr. rewrite Hnav in Hfr. simpl in Hfr.
  set (s1 := set_readyState "interactive" s).
  assert (starting false s1) as Hs1.
  { split_and!; [split_and!|..]; simpl; try done.
    unfold ticking_of. simpl. by rewrite Hnav. }
  assert (∀ b s' t l, starting b s' →
            l ∈ listeners_for t "DOMContentLoaded" s' → l = L_initAll)
    as Honly.
  { intros b s' t l Hs' Hin.
    assert (listener_ok (mkReg t "DOMContentLoaded" l)) as Hl'.
    { eapply listeners_for_ok; [|done]. apply Hs'. }
    destruct l; unfold listener_ok in Hl'; simpl in Hl'; naive_solver. }
  assert (∀ s' c, starting true s' → starting true (set_console c s')) as Hc.
  { intros s' c. by apply starting_obs. }
  assert (invariant (starting true) initAll) as Hinit.
  { intros s'' Hs''. by apply (starting_initAll true). }
  apply page_inv_of_starting. rewrite bubble_cons.
  assert (L_initAll ∈ listeners_for T_document "DOMContentLoaded" s1) as Hin.
  { by apply elem_of_listeners_for. }
  assert (Forall (λ l, l = L_initAll)
            (listeners_for T_document "DOMContentLoaded" s1)) as Hall.
  { apply Forall_forall. intros l Hl'. by eapply Honly. }
  destruct (listeners_for T_document "DOMContentLoaded" s1) as [|l ls];
    [by apply elem_of_nil in Hin|].
  apply Forall_cons in Hall as [-> Hall].
  assert (starting true (settle (initAll s1))) as Hs2.
  { pose proof (starting_initAll false s1 Hs1) as H2.
    pose proof (initAll_completes s1) as Hcomp.
    destruct (initAll s1); [done|done]. }
  assert (starting true (run_all run_listener (L_initAll :: ls) s1)) as Hs3.
  { change (starting true
              (run_all run_listener ls (settle (initAll s1)))).
    apply invariant_run_all; [done| |done].
    intros l Hl'. rewrite Forall_forall in Hall. by rewrite (Hall l Hl'). }
  destruct (existsb _ _); [done|].
  apply (bubble_inv (starting true)); [done| |done].
  intros s' t l Hs' Hin'. by rewrite (Honly _ _ _ _ Hs' Hin').
Qed.

Lemma page_inv_step `{Double} (e : Event) (s : State) :
  page_inv s → page_inv (step e s).
Proof.
  intros Hs. destruct e.
  - by apply page_inv_DOMContentLoaded.
  - by apply (page_inv_obs s).
  - unfold step.
    apply (bubble_inv page_inv); [apply page_inv_console| |by apply (page_inv_obs s)].
    intros s' t l. by apply page_inv_run_listener.
  - unfold step.
    apply (bubble_inv page_inv); [apply page_inv_console| |by apply (page_inv_obs s)].
    intros s' t l. by apply page_inv_run_listener.
  - unfold step.
    apply (bubble_inv page_inv); [apply page_inv_console| |by apply (page_inv_obs s)].
    intros s' t l. by apply page_inv_run_listener.
  - unfold step.
    apply (bubble_inv page_inv); [apply page_inv_console| |done].
    intros s' t l. by apply page_inv_run_listener.
  - unfold step. destruct (toggleMenu_defined _).
    + apply invariant_settle; [apply page_inv_console| |done].
      apply page_inv_preserves, sched_toggle.
    + by apply page_inv_console.
  - unfold step. destruct (toggleAccordion_defined _).
    + apply invariant_settle; [apply page_inv_console| |done].
      apply page_inv_preserves, sched_toggleAccordion.
    + by apply page_inv_console.
  - by apply page_inv_frame.
  - unfold step. apply invariant_run_all; [apply page_inv_console| |].
    + intros cb _. apply page_inv_preserves, sched_run_timer.
    + by apply (page_inv_obs s).
  - unfold step. apply invariant_settle; [apply page_inv_console| |done].
    apply page_inv_preserves, sched_counter_tick.
Qed.

Lemma page_inv_load `{Double} (doc : Node) (w : Window) (rs : string)
    (library : bool) :
  page_inv (load (fresh_page doc w rs library)).
Proof.
  unfold load, main.
  set (s0 := fresh_page doc w rs library).
  destruct (decide (rs = "loading")) as [->|Hrs].
  - simpl. split_and!; [split_and!|..]; simpl; try done.
    + repeat constructor.
    + intros _. split; [done|]. set_solver.
  - assert (starting false s0) as Hs0.
    { split_and!; [split_and!|..]; simpl; try done. }
    pose proof (starting_initAll false s0 Hs0) as H1.
    pose proof (initAll_completes s0) as Hc.
    unfold mbind, JS_bind, gets. simpl.
    rewrite bool_decide_eq_false_2 by done.
    destruct (initAll s0) as [[] s1|]; [|done]. simpl in *.
    apply page_inv_of_starting. by apply (starting_obs _ s1).
Qed.

Lemma reachable_page_inv `{Double} (s : State) : reachable s → page_inv s.
Proof.
  induction 1 as [doc w rs library|e s _ IH].
  - apply page_inv_load.
  - by apply page_inv_step.
Qed.

(* ================================================================== *)
(** * Events, one kind at a time *)
(* ================================================================== *)

Lemma reachable_run `{Double} (es : list Event) (s : State) :
  reachable s → reachable (run es s).
Proof.
  revert s. induction es as [|e es IH]; intros s Hs; [done|].
  simpl. apply IH. by constructor.
Qed.

(** Listeners of an event type, by the invariant. *)
Lemma scroll_listeners `{Double} (s : State) (t : Target) (l : Listener) :
  page_inv s → l ∈ listeners_for t "scroll" s → l = L_requestTick ∧ t = T_window.
Proof.
  intros Hs Hin.
  assert (listener_ok (mkReg t "scroll" l)) as Hok.
  { eapply listeners_for_ok; [|done]. apply Hs. }
  destruct l; unfold listener_ok in Hok; simpl in Hok; naive_solver.
Qed.

Lemma resize_listeners `{Double} (s : State) (t : Target) (l : Listener) (ty : string) :
  ty = "resize" ∨ ty = "orientationchange" →
  page_inv s → l ∈ listeners_for t ty s → l = L_setVH ∧ t = T_window.
Proof.
  intros Hty Hs Hin.
  assert (listener_ok (mkReg t ty l)) as Hok.
  { eapply listeners_for_ok; [|done]. apply Hs. }
  destruct l; unfold listener_ok in Hok; simpl in Hok; naive_solver.
Qed.

Lemma click_listeners `{Double} (s : State) (t : Target) (l : Listener) :
  page_inv s → l ∈ listeners_for t "click" s →
  l = L_menuBtnClick ∨ l = L_menuLinkClick ∨ l = L_closeBtnClick.
Proof.
  intros Hs Hin.
  assert (listener_ok (mkReg t "click" l)) as Hok.
  { eapply listeners_for_ok; [|done]. apply Hs. }
  destruct l; unfold listener_ok in Hok; simpl in Hok; naive_solver.
Qed.

Lemma sched_click_listener `{Double} (l : Listener) :
  l = L_menuBtnClick ∨ l = L_menuLinkClick ∨ l = L_closeBtnClick →
  preserves obs_sched (run_listener l).
Proof.
  intros [->|[->| ->]]; unfold run_listener, toggle, openMenu, closeMenu;
    preserves_field.
Qed.

Lemma bubble_sched `{Double} (ty : string) (path : list Target) (s : State) :
  page_inv s →
  (∀ s' t l, page_inv s' → l ∈ listeners_for t ty s' →
     preserves obs_sched (run_listener l)) →
  obs_sched (bubble ty path s) = obs_sched s.
Proof.
  intros Hs Hl.
  cut (page_inv (bubble ty path s) ∧ obs_sched (bubble ty path s) = obs_sched s).
  { by intros [_ ?]. }
  apply (bubble_inv (λ s', page_inv s' ∧ obs_sched s' = obs_sched s)).
  - intros s' c [? ?]. split; [by apply page_inv_console|done].
  - intros s' t l [Hs' _] Hin s'' [Hs'' Ho].
    specialize (Hl s' t l Hs' Hin). split.
    + by apply page_inv_preserves.
    + by rewrite Hl.
  - done.
Qed.

Lemma step_quiet `{Double} (e : Event) (s : State) :
  quiet e → page_inv s → obs_sched (step e s) = obs_sched s.
Proof.
  intros He Hs. destruct e; try done; unfold step.
  - rewrite bubble_sched; [done|by apply (page_inv_obs s)|].
    intros s' t l Hs' Hin.
    destruct (resize_listeners s' t l "resize") as [-> _]; auto.
    apply sched_setVH.
  - rewrite bubble_sched; [done|by apply (page_inv_obs s)|].
    intros s' t l Hs' Hin.
    destruct (resize_listeners s' t l "orientationchange") as [-> _]; auto.
    apply sched_setVH.
  - rewrite bubble_sched; [done|done|].
    intros s' t l Hs' Hin. apply sched_click_listener.
    by eapply click_listeners.
  - destruct (toggleMenu_defined _); [|done].
    apply preserves_settle; [done|apply sched_toggle].
  - destruct (toggleAccordion_defined _); [|done].
    apply preserves_settle; [done|apply sched_toggleAccordion].
  - rewrite preserves_run_all; [done|done|].
    intros cb _. apply sched_run_timer.
  - apply preserves_settle; [done|apply sched_counter_tick].
Qed.

Lemma step_scroll_ticking `{Double} (y top : Z) (s : State) :
  page_inv s → ticking_of s = true →
  nav (step (E_scroll y top) s) = nav s ∧
  frames (step (E_scroll y top) s) = frames s.
Proof.
  intros Hs Ht. unfold step.
  set (s1 := set_window _ s).
  cut (page_inv (bubble "scroll" [T_document; T_window] s1) ∧
       nav (bubble "scroll" [T_document; T_window] s1) = nav s ∧
       frames (bubble "scroll" [T_document; T_window] s1) = frames s).
  { by intros [_ ?]. }
  apply (bubble_inv (λ s', page_inv s' ∧ nav s' = nav s ∧ frames s' = frames s)).
  - intros s' c (? & ? & ?). split; [by apply page_inv_console|done].
  - intros s' t l (Hs' & _) Hin.
    destruct (scroll_listeners s' t l Hs' Hin) as [-> _].
    intros s'' (Hs'' & Hn & Hf). simpl.
    unfold ticking_of in Ht. destruct (nav s) as [sc|] eqn:Hnav; [|done].
    simpl in Ht. rewrite (requestTick_eq s'' sc) by done. rewrite Ht. done.
  - split; [by apply (page_inv_obs s)|done].
Qed.

Lemma step_scroll_schedules `{Double} (y top : Z) (s : State) :
  page_inv s → is_Some (nav s) →
  frames (step (E_scroll y top) s) = [FC_updateNav] ∧
  ticking_of (step (E_scroll y top) s) = true.
Proof.
  intros Hs [sc Hnav].
  destruct (ticking_of s) eqn:Ht.
  - destruct (step_scroll_ticking y top s Hs Ht) as [Hn Hf].
    unfold ticking_of in *. rewrite Hn, Hf.
    destruct Hs as ((_ & _ & Hfr) & _).
    unfold ticking_of in Hfr. rewrite Hnav in *. simpl in *.
    by rewrite Hfr, Ht.
  - unfold step. set (s1 := set_window _ s).
    assert (page_inv s1) as Hs1 by by apply (page_inv_obs s).
    rewrite bubble_cons.
    assert (listeners_for T_document "scroll" s1 = []) as ->.
    { destruct (listeners_for T_document "scroll" s1) as [|l ls] eqn:Hl;
        [done|].
      assert (l ∈ listeners_for T_document "scroll" s1) as Hin
        by (rewrite Hl; set_solver).
      by destruct (scroll_listeners s1 _ l Hs1 Hin). }
    cbn [existsb]. change (run_all run_listener [] s1) with s1.
    rewrite bubble_cons.
    assert (L_requestTick ∈ listeners_for T_window "scroll" s1) as Hin.
    { apply elem_of_listeners_for.
      destruct Hs as ((_ & Hn & _) & _). by destruct (Hn sc Hnav). }
    assert (Forall (λ l, l = L_requestTick)
              (listeners_for T_window "scroll" s1)) as Hall.
    { apply Forall_forall. intros l Hl.
      by destruct (scroll_listeners s1 _ l Hs1 Hl). }
    assert (existsb stops_propagation (listeners_for T_window "scroll" s1)
            = false) as ->.
    { clear -Hall. induction Hall as [|l ls -> _ IH]; [done|]. simpl. done. }
    cbn [bubble].
    destruct (listeners_for T_window "scroll" s1) as [|l ls];
      [by apply elem_of_nil in Hin|].
    apply Forall_cons in Hall as [-> Hall].
    change (run_all run_listener (L_requestTick :: ls) s1)
      with (run_all run_listener ls (settle (requestTick s1))).
    unfold ticking_of in Ht. rewrite Hnav in Ht. simpl in Ht.
    rewrite (requestTick_eq s1 sc) by done. rewrite Ht. simpl.
    set (s2 := set_nav _ _).
    assert (frames s2 = [FC_updateNav] ∧ ticking_of s2 = true) as Hs2.
    { unfold s2, ticking_of. simpl. rewrite Hnav. simpl.
      destruct Hs as ((_ & _ & Hfr) & _). rewrite Hfr.
      unfold ticking_of. rewrite Hnav. simpl. by rewrite Ht. }
    cut (frames (run_all run_listener ls s2) = [FC_updateNav] ∧
         ticking_of (run_all run_listener ls s2) = true); [done|].
    apply (invariant_run_all (λ s', frames s' = [FC_updateNav] ∧ ticking_of s' = true));
      [done| |done].
    intros l Hl s' [Hf' Ht']. rewrite Forall_forall in Hall.
    rewrite (Hall l Hl). simpl.
    unfold ticking_of in Ht'. destruct (nav s') as [sc'|] eqn:Hnav'; [|done].
    simpl in Ht'. rewrite (requestTick_eq s' sc') by done. rewrite Ht'.
    simpl. unfold ticking_of. by rewrite Hnav'.
Qed.

Lemma step_frame_ticking `{Double} (s : State) :
  page_inv s → ticking_of s = true →
  ticking_of (step E_frame s) = false ∧ frames (step E_frame s) = [].
Proof.
  intros Hs Ht. pose proof Hs as ((Hok & Hn & Hfr) & Hload & Hst).
  rewrite Ht in Hfr. unfold step. rewrite Hfr.
  unfold ticking_of in Ht. destruct (nav s) as [sc|] eqn:Hnav; [|done].
  destruct (Hn sc eq_refl) as [[nb Hnb] Hreg].
  unfold run_all. simpl.
  destruct (updateNav_sched (set_frames (λ _, []) s) sc nb Hnav Hnb)
    as (s' & -> & Hl' & Hr' & Hf' & Hn'). simpl.
  unfold ticking_of. by rewrite Hn', Hf'.
Qed.






(* ================================================================== *)
(** * Navigation: the class swap *)
(* ================================================================== *)

Lemma pill_expanded_disjoint (c : string) :
  c ∈ pillClasses → c ∈ expandedClasses → False.
Proof.
  assert (Forall (λ c, c ∉ expandedClasses) pillClasses) as H.
  { compute_done. }
  rewrite Forall_forall in H. intros ??. by eapply H.
Qed.

Lemma to_pill_mode (cl : list string) :
  pill_mode (tokens_add pillClasses (tokens_remove expandedClasses cl)).
Proof.
  split.
  - intros c Hc. apply elem_of_tokens_add. by right.
  - intros c Hc. rewrite elem_of_tokens_add, elem_of_tokens_remove.
    intros [[_ ?]|?]; [done|]. by eapply pill_expanded_disjoint.
Qed.

Lemma to_expanded_mode (cl : list string) :
  expanded_mode (tokens_remove pillClasses (tokens_add expandedClasses cl)).
Proof.
  split.
  - intros c Hc. rewrite elem_of_tokens_remove, elem_of_tokens_add.
    split; [by right|]. intros ?. by eapply pill_expanded_disjoint.
  - intros c Hc. rewrite elem_of_tokens_remove. by intros [_ ?].
Qed.

Lemma classes_of_to_pill (nb : Handle) (doc : Node) (s : State) :
  classList <$> elem_data nb (to_pill nb doc) =
  (λ cl, tokens_add pillClasses (tokens_remove expandedClasses cl)) <$>
    (classList <$> elem_data nb doc).
Proof.
  unfold to_pill. rewrite !elem_data_alter_eq.
  by destruct (elem_data nb doc).
Qed.

Lemma classes_of_to_expanded (nb : Handle) (doc : Node) (s : State) :
  classList <$> elem_data nb (to_expanded nb doc) =
  (λ cl, tokens_remove pillClasses (tokens_add expandedClasses cl)) <$>
    (classList <$> elem_data nb doc).
Proof.
  unfold to_expanded. rewrite !elem_data_alter_eq.
  by destruct (elem_data nb doc).
Qed.

(** One run of the update, from a state in which the flag agrees with the
    classes. *)
Lemma scroll_update_in_sync (nb : Handle) (w : Window) (s : State) :
  nav_in_sync nb s →
  nav_in_sync nb (scroll_update w s) ∧
  window (scroll_update w s) = w ∧
  (∃ sc, nav (scroll_update w s) = Some sc ∧
         Nav.isScrolled sc = (50 <? scrollY_of w)) ∧
  (∀ sc, nav s = Some sc → Nav.isScrolled sc = (50 <? scrollY_of w) →
         document (scroll_update w s) = document s).
Proof.
  intros (sc & cl & Hnav & Hnb & Hcl & Hmode). unfold scroll_update.
  rewrite (updateNav_eq (set_window (λ _, w) s) sc nb) by done.
  cbn [final_state]. cbn zeta. simpl window.
  assert ((scrollY_of w <=? 50) = negb (50 <? scrollY_of w)) as -> by lia.
  destruct (50 <? scrollY_of w) eqn:Hy;
    destruct (Nav.isScrolled sc) eqn:Hsc; cbn [negb andb].
  - split_and!; [|done|by eexists|done].
    eexists _, cl. split_and!; [done..|]. done.
  - split_and!; [|done|by eexists|intros sc' ?; simplify_eq; congruence].
    eexists _, _. split_and!; [done|done| |].
    + unfold classes_of in *. simpl. rewrite classes_of_to_pill by done.
      rewrite Hcl. done.
    + apply to_pill_mode.
  - split_and!; [|done|by eexists|intros sc' ?; simplify_eq; congruence].
    eexists _, _. split_and!; [done|done| |].
    + unfold classes_of in *. simpl. rewrite classes_of_to_expanded by done.
      rewrite Hcl. done.
    + apply to_expanded_mode.
  - split_and!; [|done|by eexists|done].
    eexists _, cl. split_and!; [done..|]. done.
Qed.



Lemma carries_Forall (cs cl : list string) :
  Forall (λ c, c ∈ cl) cs → carries cs cl.
Proof. rewrite Forall_forall. done. Qed.

Lemma lacks_Forall (cs cl : list string) :
  Forall (λ c, c ∉ cl) cs → lacks cs cl.
Proof. rewrite Forall_forall. done. Qed.

(* ================================================================== *)
(** * Observations of the document under its updates *)
(* ================================================================== *)

(** * Observations of the document under its updates *)

Lemma style_at_frame (q h : Handle) (p : string) (f : ElemData → ElemData)
    (doc : Node) :
  (∀ d, style_get p (style (f d)) = style_get p (style d)) →
  style_at q p (node_alter (on_data f) h doc) = style_at q p doc.
Proof.
  intros Hf. unfold style_at. rewrite elem_data_alter.
  case_decide; [|done]. destruct (elem_data q doc); simpl; [apply Hf|done].
Qed.

Lemma has_class_frame (q h : Handle) (c : string) (f : ElemData → ElemData)
    (doc : Node) :
  (∀ d, c ∈ classList (f d) ↔ c ∈ classList d) →
  has_class q c (node_alter (on_data f) h doc) = has_class q c doc.
Proof.
  intros Hf. unfold has_class. rewrite elem_data_alter.
  case_decide; [|done]. destruct (elem_data q doc); simpl; [|done].
  f_equal. apply bool_decide_ext, Hf.
Qed.

Lemma valid_frame (q h : Handle) (f : ElemData → ElemData) (doc : Node) :
  valid q (node_alter (on_data f) h doc) ↔ valid q doc.
Proof. apply elem_data_alter_is_Some. Qed.

Lemma style_at_assign_eq (h : Handle) (p v : string) (doc : Node) :
  valid h doc → style_at h p (assign_style h p v doc) = v.
Proof.
  intros [d Hd]. unfold style_at, assign_style.
  rewrite elem_data_alter_eq, Hd. simpl. apply style_get_set_eq.
Qed.

Lemma style_at_assign_ne (q h : Handle) (p p' v : string) (doc : Node) :
  p' ≠ p → style_at q p (assign_style h p' v doc) = style_at q p doc.
Proof.
  intros Hp. apply style_at_frame. intros d. simpl.
  by apply style_get_set_ne.
Qed.

Lemma style_at_assign_other (q h : Handle) (p p' v : string) (doc : Node) :
  h ≠ q → style_at q p (assign_style h p' v doc) = style_at q p doc.
Proof.
  intros Hq. unfold style_at, assign_style. by rewrite elem_data_alter_ne.
Qed.

Lemma style_at_add_classes (q h : Handle) (p : string) (ts : list string)
    (doc : Node) :
  style_at q p (add_classes h ts doc) = style_at q p doc.
Proof. by apply style_at_frame. Qed.

Lemma style_at_remove_classes (q h : Handle) (p : string) (ts : list string)
    (doc : Node) :
  style_at q p (remove_classes h ts doc) = style_at q p doc.
Proof. by apply style_at_frame. Qed.

Lemma has_class_assign_style (q h : Handle) (c p v : string) (doc : Node) :
  has_class q c (assign_style h p v doc) = has_class q c doc.
Proof. by apply has_class_frame. Qed.

Lemma has_class_add_classes_eq (h : Handle) (c : string) (ts : list string)
    (doc : Node) :
  has_class h c (add_classes h ts doc) =
  (λ b, b || bool_decide (c ∈ ts)) <$> has_class h c doc.
Proof.
  unfold has_class, add_classes. rewrite elem_data_alter_eq.
  destruct (elem_data h doc) as [d|]; simpl; [|done]. f_equal.
  apply eq_true_iff_eq.
  rewrite orb_true_iff, !bool_decide_eq_true, elem_of_tokens_add. done.
Qed.

Lemma has_class_remove_classes_eq (h : Handle) (c : string)
    (ts : list string) (doc : Node) :
  has_class h c (remove_classes h ts doc) =
  (λ b, b && negb (bool_decide (c ∈ ts))) <$> has_class h c doc.
Proof.
  unfold has_class, remove_classes. rewrite elem_data_alter_eq.
  destruct (elem_data h doc) as [d|]; simpl; [|done]. f_equal.
  apply eq_true_iff_eq.
  rewrite andb_true_iff, negb_true_iff, bool_decide_eq_false,
    !bool_decide_eq_true, elem_of_tokens_remove. done.
Qed.

Lemma valid_assign_style (q h : Handle) (p v : string) (doc : Node) :
  valid q (assign_style h p v doc) ↔ valid q doc.
Proof. apply valid_frame. Qed.

Lemma valid_add_classes (q h : Handle) (ts : list string) (doc : Node) :
  valid q (add_classes h ts doc) ↔ valid q doc.
Proof. apply valid_frame. Qed.

Lemma valid_remove_classes (q h : Handle) (ts : list string) (doc : Node) :
  valid q (remove_classes h ts doc) ↔ valid q doc.
Proof. apply valid_frame. Qed.

Lemma doc_body_assign_style (h : Handle) (p v : string) (doc : Node) :
  doc_body (assign_style h p v doc) = doc_body doc.
Proof. by apply doc_body_alter. Qed.

Lemma doc_body_add_classes (h : Handle) (ts : list string) (doc : Node) :
  doc_body (add_classes h ts doc) = doc_body doc.
Proof. by apply doc_body_alter. Qed.

Lemma doc_body_remove_classes (h : Handle) (ts : list string) (doc : Node) :
  doc_body (remove_classes h ts doc) = doc_body doc.
Proof. by apply doc_body_alter. Qed.

Lemma openMenu_eq (s : State) (sc : Menu.Scope) (mm mh b : Handle) :
  menu s = Some sc → Menu.mobileMenu sc = Some mm →
  Menu.mainHeader sc = Some mh → doc_body (document s) = Some b →
  openMenu s = Normal ()
    (mkState
       (open_doc mm mh b (pageYOffset (window s)) (document s))
       (window s) (readyState s)
       (console s ++ [(LLog, "📱 Opening menu")])
       (listeners s) (timers s) (frames s) (clock s) (globals s) (nav s)
       (Some (Menu.mk (Menu.menuBtn sc) (Some mh) (Some mm) true
                (pageYOffset (window s))))
       (counters s) (gsapCalls s)).
Proof.
  intros Hs Hmm Hmh Hb.
  destruct s as [d w rs c ls ts fs ck g nv mn cs gc],
    sc as [mb mh' mm' op sp].
  simpl in *. subst.
  unfold openMenu. unfold_ops.
  unfold mbind, JS_bind, gets, modify, menu_var, deref. cbn.
  repeat (rewrite !doc_body_alter by (unfold keeps_tag; intros; reflexivity);
          rewrite Hb; cbn).
  reflexivity.
Qed.

Lemma closeMenu_eq (s : State) (sc : Menu.Scope) (mm mh b : Handle) :
  menu s = Some sc → Menu.mobileMenu sc = Some mm →
  Menu.mainHeader sc = Some mh → doc_body (document s) = Some b →
  closeMenu s = Normal ()
    (mkState
       (close_doc mm mh b (document s))
       (mkWindow 0 (Menu.scrollPos sc) (Menu.scrollPos sc)
          (innerHeight (window s)))
       (readyState s)
       (console s ++ [(LLog, "📱 Closing menu")])
       (listeners s) (timers s ++ [mkTimer (clock s + 300) TC_hideMenu])
       (frames s) (clock s) (globals s) (nav s)
       (Some (Menu.mk (Menu.menuBtn sc) (Some mh) (Some mm) false
                (Menu.scrollPos sc)))
       (counters s) (gsapCalls s)).
Proof.
  intros Hs Hmm Hmh Hb.
  destruct s as [d w rs c ls ts fs ck g nv mn cs gc],
    sc as [mb mh' mm' op sp].
  simpl in *. subst.
  unfold closeMenu. unfold_ops.
  unfold mbind, JS_bind, gets, modify, menu_var, deref. cbn.
  repeat (rewrite !doc_body_alter by (unfold keeps_tag; intros; reflexivity);
          rewrite Hb; cbn).
  reflexivity.
Qed.

Lemma hideMenu_eq (s : State) (sc : Menu.Scope) (mm : Handle) :
  menu s = Some sc → Menu.mobileMenu sc = Some mm →
  hideMenu s = Normal ()
    (set_document (assign_style mm "display" "none") s).
Proof.
  intros Hs Hmm. unfold hideMenu, menu_var, mbind, JS_bind.
  rewrite Hs, Hmm. reflexivity.
Qed.

Lemma toggle_eq (s : State) (sc : Menu.Scope) :
  menu s = Some sc →
  toggle s = if Menu.isOpen sc then closeMenu s else openMenu s.
Proof.
  intros Hs. unfold toggle, menu_var, mbind, JS_bind. rewrite Hs.
  by destruct (Menu.isOpen sc).
Qed.

Ltac valid_tac :=
  repeat first [ rewrite valid_assign_style | rewrite valid_add_classes
               | rewrite valid_remove_classes ];
  done.

Ltac style_simpl :=
  repeat first
    [ rewrite style_at_assign_eq by valid_tac
    | rewrite style_at_assign_ne by done
    | rewrite style_at_add_classes
    | rewrite style_at_remove_classes ].

(** Leaves of frame proofs about the document. *)
Ltac class_side :=
  let d := fresh "d" in
  intros d; cbn [classList with_classList with_style with_attributes];
  first
    [ reflexivity
    | rewrite elem_of_tokens_add; set_solver
    | rewrite elem_of_tokens_remove; set_solver ].

Ltac style_side :=
  let d := fresh "d" in
  intros d; cbn [style with_classList with_style with_attributes];
  first [ reflexivity | apply style_get_set_ne; congruence ].

Ltac dom_leaf :=
  let s := fresh "s" in
  intros s <-;
  first
    [ reflexivity
    | cbn [document set_document];
      first [ apply style_at_frame; style_side
            | apply has_class_frame; class_side
            | apply doc_body_alter; unfold keeps_tag; intros; reflexivity ] ].

Lemma toggleAccordion_style (e : option Handle) (q : Handle) (p : string) :
  p ≠ "height" →
  preserves (λ s, style_at q p (document s)) (toggleAccordion e).
Proof.
  intros Hp. unfold toggleAccordion. invariant_auto dom_leaf.
Qed.

Lemma toggleAccordion_class (e : option Handle) (q : Handle) (c : string) :
  c ∉ accordion_tokens →
  preserves (λ s, has_class q c (document s)) (toggleAccordion e).
Proof.
  unfold accordion_tokens. intros Hc. unfold toggleAccordion.
  invariant_auto dom_leaf.
Qed.

Lemma toggleAccordion_body (e : option Handle) :
  preserves (λ s, doc_body (document s)) (toggleAccordion e).
Proof. unfold toggleAccordion. invariant_auto dom_leaf. Qed.

Ltac valid_leaf :=
  let s := fresh "s" in let Hs := fresh "Hs" in
  intros s Hs;
  first [ exact Hs | cbn [document set_document]; by apply valid_frame ].

Lemma toggleAccordion_valid (e : option Handle) (q : Handle) :
  invariant (λ s, valid q (document s)) (toggleAccordion e).
Proof. unfold toggleAccordion. invariant_auto valid_leaf. Qed.

Lemma run_timer_menu (cb : TimerCallback) : preserves obs_menu (run_timer cb).
Proof.
  destruct cb; unfold run_timer, startAnimations, initAnimations, hideMenu,
    openFirst, toggleAccordion; preserves_field.
Qed.

Lemma run_timer_style (cb : TimerCallback) (q : Handle) (p : string) :
  p ≠ "height" → p ≠ "display" →
  preserves (λ s, style_at q p (document s)) (run_timer cb).
Proof.
  intros Hp Hp'.
  destruct cb; unfold run_timer, startAnimations, initAnimations, hideMenu,
    openFirst, toggleAccordion; invariant_auto dom_leaf.
Qed.

Lemma run_timer_display (cb : TimerCallback) (q : Handle) :
  cb ≠ TC_hideMenu →
  preserves (λ s, style_at q "display" (document s)) (run_timer cb).
Proof.
  intros Hcb.
  destruct cb; [|done|]; unfold run_timer, startAnimations, initAnimations,
    openFirst, toggleAccordion; invariant_auto dom_leaf.
Qed.

Lemma run_timer_class (cb : TimerCallback) (q : Handle) (c : string) :
  c ∉ accordion_tokens →
  preserves (λ s, has_class q c (document s)) (run_timer cb).
Proof.
  unfold accordion_tokens. intros Hc.
  destruct cb; unfold run_timer, startAnimations, initAnimations, hideMenu,
    openFirst, toggleAccordion; invariant_auto dom_leaf.
Qed.

Lemma run_timer_body (cb : TimerCallback) :
  preserves (λ s, doc_body (document s)) (run_timer cb).
Proof.
  destruct cb; unfold run_timer, startAnimations, initAnimations, hideMenu,
    openFirst, toggleAccordion; invariant_auto dom_leaf.
Qed.

Lemma run_timer_valid (cb : TimerCallback) (q : Handle) :
  invariant (λ s, valid q (document s)) (run_timer cb).
Proof.
  destruct cb; unfold run_timer, startAnimations, initAnimations, hideMenu,
    openFirst, toggleAccordion; invariant_auto valid_leaf.
Qed.

(** Sorting the due timers keeps them all. *)
Lemma elem_of_insert_timer (t u : Timer) (ts : list Timer) :
  u ∈ insert_timer t ts ↔ u = t ∨ u ∈ ts.
Proof.
  induction ts as [|v ts IH]; simpl; [set_solver|].
  destruct (due v <=? due t); rewrite ?elem_of_cons, ?IH; set_solver.
Qed.

Lemma elem_of_sort_timers (u : Timer) (ts : list Timer) :
  u ∈ sort_timers ts ↔ u ∈ ts.
Proof.
  unfold sort_timers. induction ts as [|t ts IH]; simpl; [done|].
  rewrite elem_of_insert_timer, IH. set_solver.
Qed.

(** The effect of the passing of time on an observation that the timer
    callbacks preserve. *)

Lemma elapse_preserves {X} (obs : State → X) (dt : Z) (s : State) `{Double} :
  (∀ s c, obs (set_console c s) = obs s) →
  (∀ s f, obs (set_timers f s) = obs s) →
  (∀ s f, obs (set_clock f s) = obs s) →
  (∀ cb, preserves obs (run_timer cb)) →
  obs (step (E_elapse dt) s) = obs s.
Proof.
  intros Hc Ht Hk Hcb. unfold step.
  rewrite preserves_run_all; [|done|by intros]. by rewrite Ht, Hk.
Qed.

Lemma elapse_timers `{Double} (dt : Z) (s : State) :
  timers (step (E_elapse dt) s) =
    filter (λ t, ¬ due t ≤ clock s + Z.max 0 dt) (timers s) ∧
  clock (step (E_elapse dt) s) = clock s + Z.max 0 dt ∧
  menu (step (E_elapse dt) s) = menu s ∧
  globals (step (E_elapse dt) s) = globals s.
Proof.
  unfold step.
  pose proof (preserves_run_all obs_menu run_timer
    (timer_callback <$>
       sort_timers (filter (λ t, due t ≤ clock s + Z.max 0 dt) (timers s)))
    (λ _ _, eq_refl) (λ cb _, run_timer_menu cb)
    (set_timers (filter (λ t, ¬ due t ≤ clock s + Z.max 0 dt))
       (set_clock (λ _, clock s + Z.max 0 dt) s))) as Ho.
  unfold obs_menu in Ho. simpl in Ho. by injection Ho as -> -> -> ->.
Qed.

Lemma run_all_establish {A} (P D : State → Prop) (run : A → JS unit)
    (cbs : list A) (cb0 : A) :
  (∀ s c, P s → P (set_console c s)) →
  (∀ s c, D s → D (set_console c s)) →
  cb0 ∈ cbs →
  (∀ cb, invariant P (run cb)) →
  (∀ cb, invariant (λ s, P s ∧ D s) (run cb)) →
  (∀ s, P s → D (final_state (run cb0 s))) →
  ∀ s, P s → P (run_all run cbs s) ∧ D (run_all run cbs s).
Proof.
  intros HcP HcD Hin HP HPD Hcb0.
  assert (∀ s c, P s ∧ D s → P (set_console c s) ∧ D (set_console c s))
    as HcPD by (intros ?? [? ?]; auto).
  induction cbs as [|cb cbs IH]; intros s Hs; [by apply elem_of_nil in Hin|].
  unfold run_all. simpl.
  change (P (run_all run cbs (settle (run cb s))) ∧
          D (run_all run cbs (settle (run cb s)))).
  assert (P (settle (run cb s))) as Hs'.
  { by apply invariant_settle. }
  apply elem_of_cons in Hin as [<-|Hin].
  - apply (invariant_run_all (λ s, P s ∧ D s)); [done|by intros|].
    split; [done|]. specialize (Hcb0 s Hs). unfold settle.
    destruct (run cb0 s); simpl in *; [done|by apply HcD].
  - by apply IH.
Qed.

Lemma invariant_and {A} (P Q : State → Prop) (m : JS A) :
  invariant P m → invariant Q m → invariant (λ s, P s ∧ Q s) m.
Proof. intros HP HQ s [? ?]. split; [by apply HP | by apply HQ]. Qed.

Lemma elapse_invariant `{Double} (P : State → Prop) (dt : Z) (s : State) :
  (∀ s c, P s → P (set_console c s)) →
  (∀ s f, P s → P (set_timers f s)) →
  (∀ s f, P s → P (set_clock f s)) →
  (∀ cb, invariant P (run_timer cb)) →
  P s → P (step (E_elapse dt) s).
Proof.
  intros Hc Ht Hk Hcb Hs. unfold step.
  apply invariant_run_all; [done|by intros|]. by apply Ht, Hk.
Qed.

(** The menu is open as far as the script's own state and the classes and
    styles it sets are concerned. *)

Lemma menu_shown_run_timer (mm mh b : Handle) (cb : TimerCallback) :
  invariant (menu_shown mm mh b) (run_timer cb).
Proof.
  unfold menu_shown. repeat apply invariant_and.
  - apply (invariant_preserves obs_menu
      (λ o, ∃ sc, o.1.1.1 = Some sc ∧ Menu.mobileMenu sc = Some mm ∧
                  Menu.isOpen sc = true)), run_timer_menu.
  - apply (invariant_preserves _ (λ o, o = Some true)), run_timer_class.
    unfold accordion_tokens. set_solver.
  - apply (invariant_preserves _ (λ o, o = Some false)), run_timer_class.
    unfold accordion_tokens. set_solver.
  - apply (invariant_preserves _ (λ o, o = Some false)), run_timer_class.
    unfold accordion_tokens. set_solver.
  - by apply (invariant_preserves _ (λ o, o = "0")), run_timer_style.
  - by apply (invariant_preserves _ (λ o, o = "none")), run_timer_style.
  - by apply (invariant_preserves _ (λ o, o = "fixed")), run_timer_style.
Qed.

Lemma has_class_valid (h : Handle) (c : string) (doc : Node) :
  valid h doc → ∃ x, has_class h c doc = Some x.
Proof. intros [d Hd]. unfold has_class. rewrite Hd. by eexists. Qed.

Lemma menu_shown_open_doc (mm mh b : Handle) (y : Z) (s : State)
    (sc : Menu.Scope) :
  menu s = Some sc → Menu.mobileMenu sc = Some mm → Menu.isOpen sc = true →
  ∀ doc, valid mm doc → valid mh doc → valid b doc →
  document s = open_doc mm mh b y doc →
  menu_shown mm mh b s ∧ style_at mm "display" (document s) = "flex".
Proof.
  intros Hs Hmm Hop doc Hvm Hvh Hvb Hdoc. unfold menu_shown.
  rewrite Hdoc. unfold open_doc. split_and!.
  - by exists sc.
  - rewrite !has_class_assign_style, has_class_add_classes_eq,
      has_class_remove_classes_eq, has_class_assign_style.
    destruct (has_class_valid mm "mobile-menu-open" doc Hvm) as [x ->].
    simpl. f_equal. by rewrite orb_true_r.
  - rewrite !has_class_assign_style, has_class_add_classes_eq,
      has_class_remove_classes_eq, has_class_assign_style.
    destruct (has_class_valid mm "opacity-0" doc Hvm) as [x ->].
    simpl. f_equal. by rewrite andb_false_r.
  - rewrite !has_class_assign_style, has_class_add_classes_eq,
      has_class_remove_classes_eq, has_class_assign_style.
    destruct (has_class_valid mm "pointer-events-none" doc Hvm) as [x ->].
    simpl. f_equal. by rewrite andb_false_r.
  - by style_simpl.
  - by style_simpl.
  - by style_simpl.
  - by style_simpl.
Qed.

Lemma menu_shown_console (mm mh b : Handle) (s : State) c :
  menu_shown mm mh b s → menu_shown mm mh b (set_console c s).
Proof. done. Qed.

(** ** The accordion *)

Lemma scrollHeight_at_frame (q h : Handle) (f : ElemData → ElemData)
    (doc : Node) :
  (∀ d, scrollHeight (f d) = scrollHeight d) →
  scrollHeight_at q (node_alter (on_data f) h doc) = scrollHeight_at q doc.
Proof.
  intros Hf. unfold scrollHeight_at. rewrite elem_data_alter.
  case_decide; [|done]. destruct (elem_data q doc); simpl; [apply Hf|done].
Qed.

Lemma contents_frame (h : Handle) (f : ElemData → ElemData) (doc : Node) :
  (∀ d, "accordion-content" ∈ classList (f d) ↔
        "accordion-content" ∈ classList d) →
  contents (node_alter (on_data f) h doc) = contents doc.
Proof.
  intros Hf. unfold contents, doc_querySelectorAll. apply select_in_alter.
  intros d. simpl. apply bool_decide_ext, Hf.
Qed.

Ltac accordion_leaf :=
  let s := fresh "s" in
  intros s <-;
  first
    [ reflexivity
    | cbn [document set_document];
      first [ apply style_at_frame; style_side
            | apply scrollHeight_at_frame; intros; reflexivity
            | apply contents_frame; class_side ] ].

Lemma toggleAccordion_contents (e : option Handle) :
  preserves (λ s, contents (document s)) (toggleAccordion e).
Proof. unfold toggleAccordion. invariant_auto accordion_leaf. Qed.

Lemma close_other_contents_spec (c : Handle) (l : list Handle) (s : State) :
  (∀ a, a ∈ l → valid a (document s)) →
  wp (forEach l (λ item,
        if negb (bool_decide (Some item = Some c)) then
          style_assign (Some item) "height" "0px"
        else mret ()))
    (λ _ s',
       (∀ a, a ∈ l → a ≠ c → style_at a "height" (document s') = "0px") ∧
       style_at c "height" (document s') = style_at c "height" (document s) ∧
       scrollHeight_at c (document s') = scrollHeight_at c (document s) ∧
       contents (document s') = contents (document s) ∧
       (valid c (document s) → valid c (document s')))
    s.
Proof.
  intros Hv.
  eapply wp_mono; [|apply (wp_forEach (λ done s',
     (∀ a, a ∈ l → valid a (document s')) ∧
     (∀ a, a ∈ done → a ≠ c → style_at a "height" (document s') = "0px") ∧
     style_at c "height" (document s') = style_at c "height" (document s) ∧
     scrollHeight_at c (document s') = scrollHeight_at c (document s) ∧
     contents (document s') = contents (document s) ∧
     (valid c (document s) → valid c (document s'))))].
  - intros _ s' (_ & H0 & Hc & Hsh & Hct & Hvc). done.
  - split_and!; try done. intros a Ha. by apply elem_of_nil in Ha.
  - intros done x rest s' Hl (Hval & H0 & Hc & Hsh & Hct & Hvc).
    case_bool_decide as Hx; cbn [negb].
    + apply wp_ret. split_and!; try done.
      intros a Ha Hac. apply elem_of_app in Ha as [Ha|Ha]; [by apply H0|].
      apply list_elem_of_singleton in Ha as ->. congruence.
    + unfold style_assign, update_elem. apply wp_deref, wp_modify.
      cbn [document set_document].
      fold (assign_style x "height" "0px" (document s')).
      assert (x ≠ c) as Hxc by congruence.
      split_and!.
      * intros a Ha. apply valid_assign_style. by apply Hval.
      * intros a Ha Hac. apply elem_of_app in Ha as [Ha|Ha].
        -- destruct (decide (x = a)) as [->|Hxa].
           ++ rewrite style_at_assign_eq; [done|]. apply Hval. subst l.
              set_solver.
           ++ rewrite style_at_assign_other by done. by apply H0.
        -- apply list_elem_of_singleton in Ha as ->.
           rewrite style_at_assign_eq; [done|]. apply Hval. subst l.
           set_solver.
      * by rewrite style_at_assign_other.
      * rewrite <-Hsh. by apply scrollHeight_at_frame.
      * rewrite <-Hct. by apply contents_frame.
      * intros Hc'. apply valid_assign_style. by apply Hvc.
Qed.

Lemma invariant_forall {A B} (P : B → State → Prop) (m : JS A) :
  (∀ b, invariant (P b) m) → invariant (λ s, ∀ b, P b s) m.
Proof. intros H s Hs b. by apply H. Qed.

Lemma invariant_impl {A} (Q : Prop) (P : State → Prop) (m : JS A) :
  invariant P m → invariant (λ s, Q → P s) m.
Proof. intros H s Hs HQ. by apply H, Hs. Qed.

Ltac others_closed_auto :=
  unfold others_closed;
  repeat apply invariant_and;
  [ apply invariant_forall; intros ?; apply invariant_impl, invariant_impl;
    apply (invariant_preserves (λ s, style_at _ "height" (document s))
             (λ o, o = "0px"));
    invariant_auto accordion_leaf
  | apply (invariant_preserves (λ s, style_at _ "height" (document s))
             (λ o, o = _));
    invariant_auto accordion_leaf
  | apply (invariant_preserves (λ s, scrollHeight_at _ (document s))
             (λ o, o = _));
    invariant_auto accordion_leaf
  | apply (invariant_preserves (λ s, contents (document s)) (λ o, o = _));
    invariant_auto accordion_leaf
  | invariant_auto valid_leaf ].

Lemma others_closed_icons (c : Handle) (l : list Handle) (h0 : string)
    (sh0 : Z) (icon : option Handle) (allIcons : list Handle) :
  invariant (others_closed c l h0 sh0)
    (forEach allIcons (λ item,
       if negb (bool_decide (Some item = icon)) then
         classList_remove (Some item) ["rotate-45"; "text-blue-600"];;
         setAttribute (Some item) "icon" "solar:add-linear"
       else mret ())).
Proof. others_closed_auto. Qed.

Lemma others_closed_items (c : Handle) (l : list Handle) (h0 : string)
    (sh0 : Z) (element : option Handle) (allItems : list Handle) :
  invariant (others_closed c l h0 sh0)
    (forEach allItems (λ item,
       if negb (bool_decide (Some item = element)) then
         classList_remove (Some item) ["border-blue-500"; "shadow-md"]
       else mret ())).
Proof. others_closed_auto. Qed.

Lemma forEach_completes {A} (l : list A) (f : A → JS unit) (s : State) :
  (∀ x s', completes (f x s') = true) → completes (forEach l f s) = true.
Proof.
  intros Hf. revert s. induction l as [|x l IH]; intros s; [done|].
  simpl. by apply completes_bind.
Qed.

(** ** The counters *)

Lemma elem_data_assign_text (t : string) (h : Handle) (n : Node) :
  elem_data h (node_alter (assign_text t) h n) = with_text t <$> elem_data h n.
Proof.
  unfold elem_data. revert n. induction h as [|i h IH]; intros n; [done|].
  cbn [node_alter node_lookup nd_kids]. rewrite list_lookup_alter_eq.
  destruct (nd_kids n !! i) as [k|]; cbn [fmap option_fmap option_map];
    [apply IH | done].
Qed.

Lemma counter_tick_eq (i : nat) (v : Num Q) (sc : CounterScope) (s : State) :
  counters s !! i = Some sc →
  counter_tick i v s =
    Normal ()
      (set_document
         (node_alter (assign_text (num_to_string (Math_round v))) (counter sc))
         (set_counters
            (alter (λ sc, mkCounter (counter sc) (target sc) v) i) s)).
Proof.
  intros Hi.
  unfold counter_tick, counter_onUpdate, counter_var, assign_textContent,
    deref, modify, mbind, JS_bind.
  destruct s as [d w rs c ls ts fs ck g nv mn cs gc].
  cbn [counters set_counters] in *.
  rewrite list_lookup_alter_eq, Hi. cbn [fmap option_fmap option_map].
  cbn [counters set_counters].
  rewrite list_lookup_alter_eq, Hi. done.
Qed.

Lemma rounded_inject_Z (z : Z) : rounded (inject_Z z) = z.
Proof.
  unfold rounded, Qfloor, Qplus, inject_Z. cbn [Qnum Qden].
  symmetry. apply (Z.div_unique _ _ z 1); lia.
Qed.











(** ** Start-up of the animations *)

Ltac closed_leaf :=
  let s := fresh "s" in let Hr := fresh "Hr" in let Ht := fresh "Ht" in
  let Hg := fresh "Hg" in
  intros s [[Hr Ht] Hg]; split; [split|]; [exact Hr| |exact Hg];
  first
    [ exact Ht
    | let t := fresh "t" in let Hin := fresh "Hin" in
      cbn [timers set_timers]; intros t Hin;
      apply elem_of_app in Hin as [Hin|Hin];
      [ by apply Ht
      | apply list_elem_of_singleton in Hin as ->; done ] ].

Lemma closed_run_listener `{Double} (g : list GsapCall) (l : Listener) :
  l ≠ L_initAll → invariant (requests_closed g) (run_listener l).
Proof.
  intros Hl. destruct l; [done|..];
    unfold run_listener, setVH, requestTick, toggle, closeMenu, openMenu,
      updateNav;
    invariant_auto closed_leaf.
Qed.

Lemma closed_run_timer (g : list GsapCall) (cb : TimerCallback) :
  cb ≠ TC_startAnimations → invariant (requests_closed g) (run_timer cb).
Proof.
  intros Hcb. destruct cb; [done|..];
    unfold run_timer, hideMenu, openFirst, toggleAccordion;
    invariant_auto closed_leaf.
Qed.

Lemma closed_run_frame (g : list GsapCall) (cb : FrameCallback) :
  invariant (requests_closed g) (run_frame cb).
Proof.
  destruct cb. unfold run_frame, updateNav. invariant_auto closed_leaf.
Qed.

Lemma closed_toggle (g : list GsapCall) :
  invariant (requests_closed g) toggle.
Proof. unfold toggle, closeMenu, openMenu. invariant_auto closed_leaf. Qed.

Lemma closed_toggleAccordion (g : list GsapCall) (e : option Handle) :
  invariant (requests_closed g) (toggleAccordion e).
Proof. unfold toggleAccordion. invariant_auto closed_leaf. Qed.

Lemma closed_counter_tick (g : list GsapCall) (i : nat) (v : Num Q) :
  invariant (requests_closed g) (counter_tick i v).
Proof.
  unfold counter_tick, counter_onUpdate. invariant_auto closed_leaf.
Qed.

Lemma closed_console (g : list GsapCall) (s : State) c :
  requests_closed g s → requests_closed g (set_console c s).
Proof. done. Qed.

Lemma not_initAll `{Double} (s : State) (t : Target) (ty : string)
    (l : Listener) :
  page_inv s → ty ≠ "DOMContentLoaded" → l ∈ listeners_for t ty s →
  l ≠ L_initAll.
Proof.
  intros [[Hok _] _] Hty Hl ->.
  apply (listeners_for_ok _ _ _ _ Hok) in Hl as [_ Hl]. done.
Qed.

Lemma closed_bubble `{Double} (g : list GsapCall) (ty : string)
    (path : list Target) (s : State) :
  ty ≠ "DOMContentLoaded" → page_inv s → requests_closed g s →
  requests_closed g (bubble ty path s).
Proof.
  intros Hty Hs Hg.
  apply (bubble_inv (λ s, page_inv s ∧ requests_closed g s) ty); [| |done].
  - intros s' c [? ?]. split; [by apply page_inv_console|done].
  - intros s' t l [Hp _] Hl. apply invariant_and.
    + by apply (page_inv_run_listener ty l s' t).
    + apply closed_run_listener. by apply (not_initAll s' t ty).
Qed.

Lemma closed_step `{Double} (g : list GsapCall) (e : Event) (s : State) :
  page_inv s → requests_closed g s → requests_closed g (step e s).
Proof.
  intros Hp Hg. destruct e; cbn [step].
  - destruct Hg as [[Hr ?] ?]. by rewrite decide_False.
  - done.
  - apply closed_bubble; [done| |done].
    by apply (page_inv_obs s).
  - apply closed_bubble; [done| |done]. by apply (page_inv_obs s).
  - apply closed_bubble; [done| |done]. by apply (page_inv_obs s).
  - by apply closed_bubble.
  - destruct (toggleMenu_defined (globals s)); [|done].
    apply invariant_settle; [done|apply closed_toggle|done].
  - destruct (toggleAccordion_defined (globals s)); [|done].
    apply invariant_settle; [done|apply closed_toggleAccordion|done].
  - apply invariant_run_all; [done|intros; apply closed_run_frame|done].
  - destruct Hg as [[Hr Ht] Hg].
    apply invariant_run_all; [done| |].
    + intros cb Hcb. apply closed_run_timer.
      apply list_elem_of_fmap in Hcb as (t & -> & Hin).
      apply elem_of_sort_timers, list_elem_of_filter in Hin as [_ Hin].
      by apply Ht.
    + split; [split|]; [done| |done]. cbn [timers set_timers set_clock].
      intros t Hin. apply list_elem_of_filter in Hin as [_ Hin]. by apply Ht.
  - apply invariant_settle; [done|apply closed_counter_tick|done].
Qed.

Lemma closed_run `{Double} (g : list GsapCall) (es : list Event) (s : State) :
  page_inv s → requests_closed g s → requests_closed g (run es s).
Proof.
  revert s. induction es as [|e es IH]; intros s Hp Hg; [done|].
  cbn [run foldl]. apply IH; [by apply page_inv_step | by apply closed_step].
Qed.

Ltac field_leaf := by (intros ? <-).

Lemma missing_run_timer (g : list GsapCall) (cb : TimerCallback) :
  invariant (library_missing g) (run_timer cb).
Proof.
  destruct cb.
  - intros s [Hl Hg]. unfold run_timer, startAnimations, gets, mbind, JS_bind.
    unfold library_defined in Hl. by rewrite Hl.
  - apply (invariant_preserves (λ s, (globals s, gsapCalls s))
             (λ o, (gsap_defined o.1 && ScrollTrigger_defined o.1 = false)
                   ∧ o.2 = g)).
    unfold run_timer, hideMenu. preserves_field.
  - apply (invariant_preserves (λ s, (globals s, gsapCalls s))
             (λ o, (gsap_defined o.1 && ScrollTrigger_defined o.1 = false)
                   ∧ o.2 = g)).
    unfold run_timer, openFirst, toggleAccordion. preserves_field.
Qed.

(** Nothing is ever taken out of the console. *)
Ltac console_leaf :=
  let s := fresh "s" in let Hs := fresh "Hs" in
  intros s Hs;
  first [ exact Hs
        | cbn [console set_console]; apply elem_of_app; by left ].

Lemma console_run_timer (x : Level * string) (cb : TimerCallback) :
  invariant (λ s, x ∈ console s) (run_timer cb).
Proof.
  destruct cb;
    unfold run_timer, startAnimations, initAnimations, hideMenu, openFirst,
      toggleAccordion;
    invariant_auto console_leaf.
Qed.

Lemma console_settle (x : Level * string) (m : JS unit) (s : State) :
  invariant (λ s, x ∈ console s) m → x ∈ console s →
  x ∈ console (settle (m s)).
Proof.
  intros Hm Hs. specialize (Hm s Hs). unfold settle.
  destruct (m s); simpl in *; [done|]. apply elem_of_app. by left.
Qed.

Lemma run_all_cons {A} (run : A → JS unit) (cb : A) (cbs : list A)
    (s : State) :
  run_all run (cb :: cbs) s = run_all run cbs (settle (run cb s)).
Proof. done. Qed.

Lemma console_run_timers (x : Level * string) (cbs : list TimerCallback)
    (s : State) :
  x ∈ console s → x ∈ console (run_all run_timer cbs s).
Proof.
  revert s. induction cbs as [|cb cbs IH]; intros s Hs; [done|].
  rewrite run_all_cons. apply IH, console_settle; [|done].
  apply console_run_timer.
Qed.

Lemma missing_warns (g : list GsapCall) (cbs : list TimerCallback)
    (s : State) :
  library_missing g s → TC_startAnimations ∈ cbs →
  skipped_warning ∈ console (run_all run_timer cbs s).
Proof.
  revert s. induction cbs as [|cb cbs IH]; intros s Hs Hin.
  { by apply elem_of_nil in Hin. }
  rewrite run_all_cons. apply elem_of_cons in Hin as [<-|Hin].
  - apply console_run_timers. destruct Hs as [Hl _].
    unfold run_timer, startAnimations, gets, mbind, JS_bind.
    unfold library_defined in Hl. rewrite Hl. cbn.
    apply elem_of_app. right. by apply list_elem_of_singleton.
  - apply IH; [|done]. apply invariant_settle; [done| |done].
    apply missing_run_timer.
Qed.

(** ** What [initAnimations] asks of GSAP *)

Ltac state_fields :=
  unfold set_document, set_window, set_readyState, set_console,
    set_listeners, set_timers, set_frames, set_clock, set_globals, set_nav,
    set_menu, set_counters, set_gsapCalls;
  cbn [document window readyState console listeners timers frames clock
       globals nav menu counters gsapCalls].

Lemma set_gsapCalls_app (a b : list GsapCall) (s : State) :
  set_gsapCalls (λ cs, cs ++ b) (set_gsapCalls (λ cs, cs ++ a) s) =
  set_gsapCalls (λ cs, cs ++ a ++ b) s.
Proof.
  destruct s as [d w rs cl ls ts fs ck g nv mn cs gc]. state_fields.
  by rewrite <-app_assoc.
Qed.

Lemma set_gsapCalls_nil (s : State) : set_gsapCalls (λ cs, cs ++ []) s = s.
Proof.
  destruct s as [d w rs cl ls ts fs ck g nv mn cs gc]. state_fields.
  by rewrite app_nil_r.
Qed.

Lemma forEach_gsap_call {A} (f : A → GsapCall) (l : list A) (s : State) :
  forEach l (λ x, gsap_call (f x)) s =
  Normal () (set_gsapCalls (λ cs, cs ++ (f <$> l)) s).
Proof.
  revert s. induction l as [|x l IH]; intros s.
  - cbn [forEach fmap list_fmap]. by rewrite set_gsapCalls_nil.
  - cbn [forEach]. unfold mbind, JS_bind. unfold gsap_call at 1, modify.
    rewrite IH. by rewrite set_gsapCalls_app.
Qed.

(** The state after the loop over the counters [l]. *)
Lemma forEach_counters (l : list Handle) (s : State) :
  forEach l (λ counter,
    a ← getAttribute (Some counter) "data-target";
    let target := parseInt10 (str_or a "0") in
    i ← new_counter_scope (mkCounter counter target (Some 0%Q));
    gsap_call (G_to (TT_counterObj i) (counter_vars counter target i))) s =
  Normal ()
    (set_gsapCalls
       (λ cs, cs ++ imap (counter_request (document s) (length (counters s))) l)
       (set_counters (λ cs, cs ++ (counter_scope_of (document s) <$> l)) s)).
Proof.
  revert s. induction l as [|x l IH]; intros s.
  - cbn [forEach imap fmap list_fmap]. unfold mret, JS_ret.
    destruct s as [d w rs cl ls ts fs ck g nv mn cs gc]. state_fields.
    by rewrite !app_nil_r.
  - cbn [forEach]. unfold mbind at 1, JS_bind at 1.
    unfold getAttribute, new_counter_scope, gsap_call, deref, gets, modify,
      mbind at 1 2 3 4, JS_bind at 1 2 3 4, mret, JS_ret.
    rewrite IH. f_equal.
    destruct s as [d w rs cl ls ts fs ck g nv mn cs gc].
    state_fields. cbn beta. f_equal.
    + by rewrite <-app_assoc.
    + rewrite <-app_assoc. f_equal. cbn [imap app]. f_equal.
      * unfold counter_request, counter_target, attribute_at.
        by rewrite Nat.add_0_r.
      * apply imap_ext. intros k c _. unfold counter_request, compose.
        rewrite length_app. cbn [length].
        by replace (length cs + 1 + k)%nat with (length cs + S k)%nat by lia.
Qed.

Lemma initAnimations_eq (s : State) :
  initAnimations s = Normal () (animated s).
Proof.
  unfold initAnimations, console_log, document_querySelectorAll.
  unfold mbind, JS_bind, gets, modify.
  state_fields. cbn beta.
  set (texts := doc_querySelectorAll (ByClass "reveal-text") (document s)).
  set (opac := doc_querySelectorAll (ByClass "reveal-opacity") (document s)).
  assert (∀ (b : bool) (c : GsapCall) (t : State),
            (if b then gsap_call c else mret ()) t =
            Normal () (set_gsapCalls (λ cs, cs ++ if b then [c] else []) t))
    as Hif.
  { intros [] c t; [done|]. by rewrite set_gsapCalls_nil. }
  rewrite !Hif. state_fields. cbn beta.
  rewrite forEach_gsap_call. state_fields. cbn beta.
  rewrite forEach_gsap_call. state_fields. cbn beta.
  rewrite forEach_counters. state_fields. cbn beta.
  unfold animated, animation_requests, hero_requests. fold texts opac.
  do 2 f_equal.
  - by rewrite <-app_assoc.
  - by rewrite <-!app_assoc.
Qed.


(** ** The mobile menu, closed *)

Lemma has_class_close_doc (mm mh b : Handle) (doc : Node) :
  valid mm doc →
  has_class mm "mobile-menu-open" (close_doc mm mh b doc) = Some false ∧
  has_class mm "opacity-0" (close_doc mm mh b doc) = Some true ∧
  has_class mm "pointer-events-none" (close_doc mm mh b doc) = Some true.
Proof.
  intros Hv. unfold close_doc. rewrite !has_class_assign_style.
  rewrite !has_class_remove_classes_eq, !has_class_add_classes_eq.
  destruct (has_class_valid mm "mobile-menu-open" doc Hv) as [x1 ->].
  destruct (has_class_valid mm "opacity-0" doc Hv) as [x2 ->].
  destruct (has_class_valid mm "pointer-events-none" doc Hv) as [x3 ->].
  cbn [fmap option_fmap option_map].
  split_and!; f_equal.
  - rewrite (bool_decide_eq_true_2 ("mobile-menu-open" ∈ ["mobile-menu-open"]))
      by set_solver.
    apply andb_false_r.
  - rewrite (bool_decide_eq_true_2
               ("opacity-0" ∈ ["opacity-0"; "pointer-events-none"]))
      by set_solver.
    rewrite (bool_decide_eq_false_2 ("opacity-0" ∈ ["mobile-menu-open"]))
      by set_solver.
    by rewrite orb_true_r.
  - rewrite (bool_decide_eq_true_2
               ("pointer-events-none" ∈ ["opacity-0"; "pointer-events-none"]))
      by set_solver.
    rewrite (bool_decide_eq_false_2
               ("pointer-events-none" ∈ ["mobile-menu-open"])) by set_solver.
    by rewrite orb_true_r.
Qed.

Lemma style_at_close_doc (mm mh b : Handle) (doc : Node) :
  valid mh doc → valid b doc →
  style_at mh "opacity" (close_doc mm mh b doc) = "1" ∧
  style_at mh "pointerEvents" (close_doc mm mh b doc) = "" ∧
  (∀ p, p ∈ scroll_lock_properties →
        style_at b p (close_doc mm mh b doc) = "") ∧
  (∀ q, style_at q "display" (close_doc mm mh b doc) = style_at q "display" doc).
Proof.
  intros Hvh Hvb. unfold close_doc. split_and!.
  - by style_simpl.
  - by style_simpl.
  - intros p Hp. unfold scroll_lock_properties in Hp.
    repeat (apply elem_of_cons in Hp as [->|Hp]); [..|by apply elem_of_nil in Hp];
      by style_simpl.
  - intros q. by style_simpl.
Qed.

Lemma menu_closed_close_doc (mm mh b : Handle) (s : State) (sc : Menu.Scope) :
  menu s = Some sc → Menu.mobileMenu sc = Some mm → Menu.isOpen sc = false →
  ∀ doc, valid mm doc → valid mh doc → valid b doc →
  document s = close_doc mm mh b doc →
  menu_closed mm mh b s.
Proof.
  intros Hs Hmm Hop doc Hvm Hvh Hvb Hd. unfold menu_closed. rewrite Hd.
  destruct (has_class_close_doc mm mh b doc Hvm) as (? & ? & ?).
  destruct (style_at_close_doc mm mh b doc Hvh Hvb) as (? & ? & ? & _).
  split_and!; try done. by exists sc.
Qed.

Lemma closing_listener_eq `{Double} (l : Listener) (s : State)
    (sc : Menu.Scope) (mm mh b : Handle) :
  closes_menu l → menu s = Some sc → Menu.mobileMenu sc = Some mm →
  Menu.mainHeader sc = Some mh → doc_body (document s) = Some b →
  ∃ m, run_listener l s = closeMenu (logged m s).
Proof.
  intros [->| ->] _ _ _ _; eexists; reflexivity.
Qed.

Lemma doc_body_open_doc (mm mh b : Handle) (y : Z) (doc : Node) :
  doc_body (open_doc mm mh b y doc) = doc_body doc.
Proof.
  unfold open_doc.
  by rewrite !doc_body_assign_style, doc_body_add_classes,
    doc_body_remove_classes, doc_body_assign_style.
Qed.

Lemma doc_body_close_doc (mm mh b : Handle) (doc : Node) :
  doc_body (close_doc mm mh b doc) = doc_body doc.
Proof.
  unfold close_doc.
  by rewrite !doc_body_assign_style, doc_body_remove_classes,
    doc_body_add_classes.
Qed.

Lemma valid_open_doc (q mm mh b : Handle) (y : Z) (doc : Node) :
  valid q (open_doc mm mh b y doc) ↔ valid q doc.
Proof. unfold open_doc. valid_tac. Qed.

Lemma valid_close_doc (q mm mh b : Handle) (doc : Node) :
  valid q (close_doc mm mh b doc) ↔ valid q doc.
Proof. unfold close_doc. valid_tac. Qed.

Lemma panel_is_run_timer (mm : Handle) (cb : TimerCallback) :
  invariant (panel_is mm) (run_timer cb).
Proof.
  apply invariant_and; [|apply run_timer_valid].
  apply (invariant_preserves obs_menu
           (λ o, ∃ sc, o.1.1.1 = Some sc ∧ Menu.mobileMenu sc = Some mm)).
  apply run_timer_menu.
Qed.

Lemma hideMenu_hides (mm : Handle) (s : State) :
  panel_is mm s →
  style_at mm "display" (document (final_state (run_timer TC_hideMenu s)))
    = "none".
Proof.
  intros [(sc & Hsc & Hmm) Hv]. cbn [run_timer].
  rewrite (hideMenu_eq s sc mm Hsc Hmm). cbn [final_state document set_document].
  by rewrite style_at_assign_eq.
Qed.

(** ** The listeners of the mobile menu *)

Lemma elem_of_add_listener (r r0 : Registration) (rs : list Registration) :
  r ∈ (if decide (r0 ∈ rs) then rs else rs ++ [r0]) ↔ r ∈ rs ∨ r = r0.
Proof.
  case_decide; [|set_solver]. split; [by left|]. by intros [?| ->].
Qed.

Lemma wp_addEventListener (t : Target) (ty : string) (l : Listener)
    (Q : unit → State → Prop) (s : State) :
  (∀ s', document s' = document s → menu s' = menu s →
         globals s' = globals s →
         (∀ r, r ∈ listeners s' ↔ r ∈ listeners s ∨ r = mkReg t ty l) →
         Q () s') →
  wp (addEventListener t ty l) Q s.
Proof.
  intros HQ. unfold addEventListener. apply wp_modify. apply HQ; try done.
  intros r. cbn [listeners set_listeners]. apply elem_of_add_listener.
Qed.

Lemma initMobileMenu_registers (s : State) (btn mh mm : Handle) :
  doc_querySelector (ById "menu-btn") (document s) = Some btn →
  doc_querySelector (ById "main-header") (document s) = Some mh →
  doc_querySelector (ById "mobile-menu") (document s) = Some mm →
  wp initMobileMenu
    (λ _ s', document s' = document s ∧
       menu s' = Some (Menu.mk (Some btn) (Some mh) (Some mm) false 0) ∧
       toggleMenu_defined (globals s') = true ∧
       ∀ r, r ∈ listeners s' ↔
            r ∈ listeners s ∨ menu_registration btn mm (document s) r)
    s.
Proof.
  intros Hbtn Hmh Hmm. unfold initMobileMenu, document_getElementById.
  apply wp_bind, wp_gets. rewrite Hbtn.
  apply wp_bind, wp_gets. rewrite Hmh.
  apply wp_bind, wp_gets. rewrite Hmm.
  cbn [truthy negb orb].
  apply wp_bind. unfold console_log. apply wp_modify.
  apply wp_bind, wp_modify.
  apply wp_bind. unfold elem_addEventListener at 1. apply wp_deref.
  apply wp_addEventListener. intros s1 Hd1 Hm1 Hg1 Hl1.
  cbn [document menu globals listeners set_menu set_console] in Hd1, Hm1, Hl1.
  apply wp_bind, wp_modify.
  apply wp_bind. unfold querySelectorAll. apply wp_deref, wp_gets.
  cbn [document set_globals]. rewrite Hd1.
  set (links := elem_querySelectorAll _ mm (document s)).
  apply wp_bind.
  eapply wp_mono; [|apply (wp_forEach (λ done s',
     document s' = document s ∧
     menu s' = Some (Menu.mk (Some btn) (Some mh) (Some mm) false 0) ∧
     toggleMenu_defined (globals s') = true ∧
     ∀ r, r ∈ listeners s' ↔
          r ∈ listeners s ∨
          r = mkReg (T_element btn) "click" L_menuBtnClick ∨
          ∃ a, a ∈ done ∧ r = mkReg (T_element a) "click" L_menuLinkClick))].
  - intros [] s2 (Hd2 & Hm2 & Hg2 & Hl2).
    apply wp_bind. unfold querySelector. apply wp_deref, wp_gets.
    rewrite Hd2.
    destruct (elem_querySelector (ByTag "button") mm (document s))
      as [cb|] eqn:Hcb; cbn [truthy andb].
    + case_bool_decide as Hne; cbn [negb].
      * apply wp_ret. split_and!; try done.
        intros r. rewrite Hl2. unfold menu_registration.
        split; [naive_solver|].
        intros [?|[?|[?|(cb' & ? & Hcb' & _)]]]; [naive_solver..|].
        congruence.
      * unfold elem_addEventListener. apply wp_deref, wp_addEventListener.
        intros s3 Hd3 Hm3 Hg3 Hl3. split_and!; try congruence.
        intros r. rewrite Hl3, Hl2. unfold menu_registration.
        split; [|naive_solver].
        intros [[?|[?|?]]| ->]; [naive_solver..|].
        right. right. right. exists cb. split_and!; congruence.
    + apply wp_ret. split_and!; try done.
      intros r. rewrite Hl2. unfold menu_registration. naive_solver.
  - split_and!; try done.
    intros r. rewrite Hl1. cbn [listeners set_menu set_console].
    split; [naive_solver|].
    intros [?|[?|(a & Ha & _)]]; [naive_solver..|].
    by apply elem_of_nil in Ha.
  - intros done x rest s' Hl (Hd' & Hm' & Hg' & Hl').
    unfold elem_addEventListener. apply wp_deref, wp_addEventListener.
    intros s3 Hd3 Hm3 Hg3 Hl3. split_and!; try congruence.
    intros r. rewrite Hl3, Hl'. split.
    + intros [[?|[?|(a & Ha & ?)]]| ->]; [naive_solver..| |].
      * right. right. exists a. split; [|done]. apply elem_of_app. by left.
      * right. right. exists x. split; [|done]. apply elem_of_app. right.
        by apply list_elem_of_singleton.
    + intros [?|[?|(a & Ha & ?)]]; [naive_solver..|].
      apply elem_of_app in Ha as [Ha|Ha]; [naive_solver|].
      apply list_elem_of_singleton in Ha as ->. by right.
Qed.

Lemma elem_querySelectorAll_below (sel : Selector) (e q : Handle) (n : Node) :
  q ∈ elem_querySelectorAll sel e n → ∃ p, q = e ++ p ∧ p ≠ [].
Proof.
  unfold elem_querySelectorAll. destruct (node_lookup e n) as [k|];
    [|by intros ?%elem_of_nil].
  intros (p & -> & Hp)%list_elem_of_fmap. exists p. split; [done|].
  unfold select_below in Hp.
  by apply elem_of_select_kids in Hp as (j & k' & p' & _ & _ & ->).
Qed.

Lemma matches_ByTagAttrPrefix (t a pre : string) (d : ElemData) :
  matches (ByTagAttrPrefix t a pre) d = true →
  tagName d = t ∧ ∃ v, attributes d !! a = Some v ∧ String.prefix pre v = true.
Proof.
  cbn [matches]. intros [Ht Ha]%andb_prop.
  apply bool_decide_eq_true in Ht. split; [done|].
  destruct (attributes d !! a) as [v|]; [by exists v | done].
Qed.

(** ** Assignments of [textContent] *)

Lemma node_lookup_assign_text_below (t : string) (h p : Handle) (n : Node) :
  p ≠ [] → node_lookup (h ++ p) (node_alter (assign_text t) h n) = None.
Proof.
  intros Hp. revert n. induction h as [|i h IH]; intros n.
  - destruct p as [|j p]; [done|]. cbn. by rewrite lookup_nil.
  - cbn [app node_alter node_lookup nd_kids]. rewrite list_lookup_alter_eq.
    destruct (nd_kids n !! i) as [k|]; cbn [fmap option_fmap option_map];
      [apply IH | done].
Qed.

Lemma elem_data_node_alter_other (f : Node → Node) (h q : Handle) (n : Node) :
  ¬ h `prefix_of` q → elem_data q (node_alter f h n) = elem_data q n.
Proof.
  unfold elem_data. revert q n. induction h as [|i h IH]; intros q n Hpre.
  - destruct Hpre. apply prefix_nil.
  - destruct q as [|j q]; [done|].
    cbn [node_alter node_lookup nd_kids].
    destruct (decide (i = j)) as [->|Hij].
    + rewrite list_lookup_alter_eq.
      destruct (nd_kids n !! j) as [k|]; cbn [fmap option_fmap option_map];
        [|done].
      apply IH. intros Hp. apply Hpre. by apply prefix_cons.
    + by rewrite list_lookup_alter_ne.
Qed.

(** ** What an event leaves alone *)

Lemma bubble_preserves `{Double} {X} (obs : State → X) (ty : string)
    (path : list Target) (s : State) :
  ty ≠ "DOMContentLoaded" →
  (∀ s c, obs (set_console c s) = obs s) →
  (∀ s' t l, page_inv s' → l ∈ listeners_for t ty s' →
     preserves obs (run_listener l)) →
  page_inv s → obs (bubble ty path s) = obs s.
Proof.
  intros Hty Hc Hl Hs.
  cut (page_inv (bubble ty path s) ∧ obs (bubble ty path s) = obs s).
  { by intros [_ ?]. }
  apply (bubble_inv (λ s', page_inv s' ∧ obs s' = obs s)).
  - intros s' c [? ?]. split; [by apply page_inv_console|].
    by rewrite Hc.
  - intros s' t l [Hs' _] Hin. apply invariant_and.
    + by apply (page_inv_run_listener ty l s' t).
    + apply (invariant_preserves obs (λ o, o = obs s)). by apply (Hl s' t).
  - done.
Qed.

Ltac root_leaf :=
  let s := fresh "s" in
  intros s <-;
  first
    [ reflexivity
    | cbn [document set_document];
      first [ apply elem_data_alter_ne; congruence
            | apply style_at_frame; style_side
            | apply has_class_frame; class_side ] ].

Lemma setVH_elements `{Double} (q : Handle) :
  q ≠ [] → preserves (λ s, elem_data q (document s)) setVH.
Proof.
  intros Hq. unfold setVH, documentElement, style_assign. cbn [deref].
  invariant_auto root_leaf.
Qed.

Lemma setVH_style `{Double} (q : Handle) (p : string) :
  p ≠ "--vh" → preserves (λ s, style_at q p (document s)) setVH.
Proof. intros Hp. unfold setVH, documentElement. invariant_auto root_leaf. Qed.

Lemma setVH_class `{Double} (q : Handle) (c : string) :
  preserves (λ s, has_class q c (document s)) setVH.
Proof. unfold setVH, documentElement. invariant_auto root_leaf. Qed.

Lemma setVH_script `{Double} : preserves obs_script setVH.
Proof. unfold setVH. preserves_field. Qed.

Lemma setVH_window `{Double} : preserves window setVH.
Proof. unfold setVH. preserves_field. Qed.

Lemma resize_bubble `{Double} {X} (obs : State → X) (ty : string)
    (s : State) :
  ty = "resize" ∨ ty = "orientationchange" →
  (∀ s c, obs (set_console c s) = obs s) →
  preserves obs setVH →
  page_inv s → obs (bubble ty [T_window] s) = obs s.
Proof.
  intros Hty Hc Hobs Hs. apply bubble_preserves; [|done| |done].
  - by destruct Hty as [-> | ->].
  - intros s' t l Hs' Hl.
    by destruct (resize_listeners s' t l ty Hty Hs' Hl) as [-> _].
Qed.

Ltac nav_mode_leaf :=
  let s := fresh "s" in
  intros s <-;
  first [ reflexivity
        | unfold nav_mode; cbn [nav set_nav]; by destruct (nav s) ].

Lemma requestTick_document : preserves document requestTick.
Proof. unfold requestTick. preserves_field. Qed.

Lemma requestTick_window : preserves window requestTick.
Proof. unfold requestTick. preserves_field. Qed.

Lemma requestTick_nav_mode : preserves nav_mode requestTick.
Proof. unfold requestTick. invariant_auto nav_mode_leaf. Qed.

Lemma set_window_id (s : State) : set_window (λ _, window s) s = s.
Proof. by destruct s. Qed.

Lemma nav_in_sync_obs (nb : Handle) (s s' : State) :
  document s' = document s → nav_mode s' = nav_mode s →
  nav_in_sync nb s → nav_in_sync nb s'.
Proof.
  intros Hd Hm (sc & cl & Hsc & Hnb & Hcl & Hmode).
  unfold nav_mode in Hm. rewrite Hsc in Hm.
  destruct (nav s') as [sc'|] eqn:Hsc'; [|done].
  cbn in Hm. injection Hm as Hnb' Hsc''.
  exists sc', cl. unfold classes_of. rewrite Hd.
  split_and!; [done|congruence|done|by rewrite Hsc''].
Qed.

Lemma scroll_defers `{Double} (y top : Z) (s : State) :
  page_inv s →
  document (step (E_scroll y top) s) = document s ∧
  nav_mode (step (E_scroll y top) s) = nav_mode s ∧
  window (step (E_scroll y top) s) =
    mkWindow (pageXOffset (window s)) y top (innerHeight (window s)).
Proof.
  intros Hp. cbn [step].
  set (s0 := set_window _ s).
  assert (page_inv s0) as Hp0 by by apply (page_inv_obs s).
  assert (∀ {X} (obs : State → X),
            (∀ s c, obs (set_console c s) = obs s) →
            preserves obs requestTick →
            obs (bubble "scroll" [T_document; T_window] s0) = obs s0)
    as Hb.
  { intros X obs Hc Hobs. apply bubble_preserves; [done|done| |done].
    intros s' t l Hs' Hl.
    by destruct (scroll_listeners s' t l Hs' Hl) as [-> _]. }
  split_and!.
  - by rewrite (Hb _ document) by (try done; apply requestTick_document).
  - by rewrite (Hb _ nav_mode) by (try done; apply requestTick_nav_mode).
  - by rewrite (Hb _ window) by (try done; apply requestTick_window).
Qed.

(** ** The accordion: items and icons *)

Lemma toggleAccordion_parts (e c : Handle) (s : State) :
  elem_querySelector (ByClass "accordion-content") e (document s) = Some c →
  toggleAccordion (Some e) s =
  (close_others (Some e) (Some c)
     (elem_querySelector (ByClass "icon-toggle") e (document s))
     (contents (document s)) (icons (document s)) (items (document s));;
   toggle_current (Some e) (Some c)
     (elem_querySelector (ByClass "icon-toggle") e (document s))) s.
Proof.
  intros Hq. unfold toggleAccordion, close_others.
  unfold querySelector, document_querySelectorAll, deref.
  unfold mbind at 1 2 3 4 5, JS_bind at 1 2 3 4 5, gets. rewrite Hq.
  cbn [truthy negb].
  set (m1 := forEach (doc_querySelectorAll (ByClass "accordion-content") _) _).
  set (m2 := forEach (doc_querySelectorAll (ByClass "icon-toggle") _) _).
  set (m3 := forEach (doc_querySelectorAll (ByClass "accordion-item") _) _).
  unfold contents, icons, items. fold m1 m2 m3.
  unfold mbind, JS_bind.
  destruct (m1 s) as [[] s1|]; [|done].
  destruct (m2 s1) as [[] s2|]; [|done].
  by destruct (m3 s2) as [[] s3|].
Qed.

Lemma forEach_establish {A} (V D : State → Prop) (l : list A)
    (f : A → JS unit) (x : A) :
  x ∈ l →
  (∀ y s, completes (f y s) = true) →
  (∀ y, invariant V (f y)) → (∀ y, invariant D (f y)) →
  (∀ s, V s → D (final_state (f x s))) →
  ∀ s, V s → D (final_state (forEach l f s)).
Proof.
  intros Hin Hc HV HD Hx.
  induction l as [|y l IH]; intros s Hs; [by apply elem_of_nil in Hin|].
  cbn [forEach]. unfold mbind, JS_bind.
  pose proof (Hc y s) as Hcy. pose proof (HV y s Hs) as HVy.
  destruct (f y s) as [[] s1|] eqn:Hy; [|done]. cbn in HVy.
  apply elem_of_cons in Hin as [->|Hin]; [|by apply IH].
  specialize (Hx s Hs). rewrite Hy in Hx. cbn in Hx.
  by apply (invariant_forEach D l f HD s1).
Qed.

Lemma attribute_at_frame (q h : Handle) (a : string)
    (f : ElemData → ElemData) (doc : Node) :
  (∀ d, attributes (f d) !! a = attributes d !! a) →
  attribute_at q a (node_alter (on_data f) h doc) = attribute_at q a doc.
Proof.
  intros Hf. unfold attribute_at. rewrite elem_data_alter.
  case_decide; [|done]. destruct (elem_data q doc); cbn; [apply Hf|done].
Qed.

Lemma has_class_other (q h : Handle) (c : string) (f : ElemData → ElemData)
    (doc : Node) :
  h ≠ q → has_class q c (node_alter (on_data f) h doc) = has_class q c doc.
Proof. intros. unfold has_class. by rewrite elem_data_alter_ne. Qed.

Lemma attribute_at_other (q h : Handle) (a : string)
    (f : ElemData → ElemData) (doc : Node) :
  h ≠ q →
  attribute_at q a (node_alter (on_data f) h doc) = attribute_at q a doc.
Proof. intros. unfold attribute_at. by rewrite elem_data_alter_ne. Qed.

Lemma has_class_removed (q h : Handle) (c : string) (ts : list string)
    (doc : Node) :
  has_class q c doc = Some false →
  has_class q c (remove_classes h ts doc) = Some false.
Proof.
  intros Hc. destruct (decide (h = q)) as [->|Hne].
  - rewrite has_class_remove_classes_eq, Hc. done.
  - unfold remove_classes. by rewrite has_class_other.
Qed.

Lemma attribute_at_set (q h : Handle) (a v : string) (doc : Node) :
  attribute_at q a doc = Some v →
  attribute_at q a (node_alter (on_data (with_attributes <[a:=v]>)) h doc)
    = Some v.
Proof.
  intros Hq. unfold attribute_at in *. rewrite elem_data_alter.
  case_decide; [|done]. destruct (elem_data q doc) as [d|]; [|done].
  cbn in *. by rewrite lookup_insert_eq.
Qed.

(** What [close_others] never undoes: an absent class stays absent, and
    the [icon] attribute it sets stays set. *)
Ltac closing_leaf :=
  let s := fresh "s" in let Hs := fresh "Hs" in
  intros s Hs;
  first
    [ exact Hs
    | cbn [document set_document];
      first
        [ rewrite has_class_frame by class_side; exact Hs
        | apply has_class_removed; exact Hs
        | rewrite attribute_at_frame by (intros; reflexivity); exact Hs
        | apply attribute_at_set; exact Hs
        | by apply valid_frame ] ].

Lemma close_others_completes (element content icon : option Handle)
    (cs ics its : list Handle) (s : State) :
  completes (close_others element content icon cs ics its s) = true.
Proof.
  unfold close_others.
  repeat (apply completes_bind; [|intros ? ?]);
    apply forEach_completes; intros ? ?; by case_bool_decide.
Qed.

Lemma close_others_absent (element content icon : option Handle)
    (cs ics its : list Handle) (q : Handle) (t : string) :
  invariant (λ s, has_class q t (document s) = Some false)
    (close_others element content icon cs ics its).
Proof. unfold close_others. invariant_auto closing_leaf. Qed.

Lemma close_others_icon_set (element content icon : option Handle)
    (cs ics its : list Handle) (q : Handle) :
  invariant
    (λ s, attribute_at q "icon" (document s) = Some "solar:add-linear")
    (close_others element content icon cs ics its).
Proof. unfold close_others. invariant_auto closing_leaf. Qed.

Lemma close_others_valid (element content icon : option Handle)
    (cs ics its : list Handle) (q : Handle) :
  invariant (λ s, valid q (document s))
    (close_others element content icon cs ics its).
Proof. unfold close_others. invariant_auto valid_leaf. Qed.

Lemma wp_of_final {A} (m : JS A) (Q : State → Prop) (s : State) :
  completes (m s) = true → Q (final_state (m s)) → wp m (λ _, Q) s.
Proof. unfold wp. by destruct (m s). Qed.

Lemma has_class_added (h : Handle) (t : string) (ts : list string)
    (doc : Node) :
  valid h doc → t ∈ ts → has_class h t (add_classes h ts doc) = Some true.
Proof.
  intros Hv Ht. rewrite has_class_add_classes_eq.
  destruct (has_class_valid h t doc Hv) as [b ->]. cbn.
  by rewrite (bool_decide_eq_true_2 _ Ht), orb_true_r.
Qed.

Lemma has_class_removed_eq (h : Handle) (t : string) (ts : list string)
    (doc : Node) :
  valid h doc → t ∈ ts → has_class h t (remove_classes h ts doc) = Some false.
Proof.
  intros Hv Ht. rewrite has_class_remove_classes_eq.
  destruct (has_class_valid h t doc Hv) as [b ->]. cbn.
  by rewrite (bool_decide_eq_true_2 _ Ht), andb_false_r.
Qed.

Lemma close_others_items (element content icon : option Handle)
    (cs ics its : list Handle) (x : Handle) (t : string) (s : State) :
  x ∈ its → element ≠ Some x → t ∈ item_tokens → valid x (document s) →
  has_class x t
    (document (final_state (close_others element content icon cs ics its s)))
    = Some false.
Proof.
  intros Hx Hne Ht Hv.
  apply (wp_final_state (close_others element content icon cs ics its)
           (λ s', has_class x t (document s') = Some false)).
  unfold close_others.
  apply (wp_seq_invariant (λ s, valid x (document s))); [| |done|].
  { invariant_auto valid_leaf. }
  { apply forEach_completes; intros ? ?; by case_bool_decide. }
  intros [] s1 Hv1.
  apply (wp_seq_invariant (λ s, valid x (document s))); [| |done|].
  { invariant_auto valid_leaf. }
  { apply forEach_completes; intros ? ?; by case_bool_decide. }
  intros [] s2 Hv2.
  apply wp_of_final.
  { apply forEach_completes; intros ? ?; by case_bool_decide. }
  apply (forEach_establish (λ s, valid x (document s))
           (λ s, has_class x t (document s) = Some false) its _ x);
    [done| | | | |done].
  - intros ? ?; by case_bool_decide.
  - intros y. invariant_auto valid_leaf.
  - intros y. invariant_auto closing_leaf.
  - intros s' Hv'. rewrite bool_decide_eq_false_2 by congruence.
    cbn [negb final_state classList_remove deref update_elem modify document
         set_document].
    by apply has_class_removed_eq.
Qed.

Lemma close_others_icons (element content icon : option Handle)
    (cs ics its : list Handle) (x : Handle) (s : State) :
  x ∈ ics → icon ≠ Some x → valid x (document s) →
  let s' := final_state (close_others element content icon cs ics its s) in
  unmarked x icon_tokens (document s') ∧
  attribute_at x "icon" (document s') = Some "solar:add-linear".
Proof.
  intros Hx Hne Hv.
  set (D := λ s : State,
         unmarked x icon_tokens (document s) ∧
         attribute_at x "icon" (document s) = Some "solar:add-linear").
  assert (∀ {A} (m : JS A),
            (∀ t, invariant (λ s, has_class x t (document s) = Some false) m) →
            invariant (λ s, attribute_at x "icon" (document s)
                            = Some "solar:add-linear") m →
            invariant D m) as HD.
  { intros A m H1 H2 s0 [Hu Ha]. split; [|by apply H2].
    intros t Ht. apply H1. by apply Hu. }
  cbn zeta.
  apply (wp_final_state (close_others element content icon cs ics its) D).
  unfold close_others.
  apply (wp_seq_invariant (λ s, valid x (document s))); [| |done|].
  { invariant_auto valid_leaf. }
  { apply forEach_completes; intros ? ?; by case_bool_decide. }
  intros [] s1 Hv1. apply wp_bind.
  eapply wp_mono; [|apply (wp_of_final _ D)].
  - intros [] s2 Hs2. apply wp_of_final.
    { apply forEach_completes; intros ? ?; by case_bool_decide. }
    revert s2 Hs2. apply HD; [intros t|]; invariant_auto closing_leaf.
  - apply forEach_completes; intros ? ?; by case_bool_decide.
  - apply (forEach_establish (λ s, valid x (document s)) D ics _ x);
      [done| | | | |done].
    + intros ? ?; by case_bool_decide.
    + intros y. invariant_auto valid_leaf.
    + intros y. apply HD; [intros t|]; invariant_auto closing_leaf.
    + intros s' Hv'. rewrite bool_decide_eq_false_2 by congruence.
      cbn [negb]. unfold classList_remove, setAttribute, deref, update_elem,
        modify, mbind, JS_bind. cbn [final_state document set_document].
      split.
      * intros t Ht. cbn [document set_document].
        rewrite has_class_frame by class_side.
        by apply has_class_removed_eq.
      * cbn [document set_document].
        unfold attribute_at. rewrite elem_data_alter_eq.
        assert (valid x (remove_classes x ["rotate-45"; "text-blue-600"]
                           (document s'))) as [d Hd]
          by by apply valid_remove_classes.
        unfold remove_classes in Hd. rewrite Hd. cbn.
        by rewrite lookup_insert_eq.
Qed.

Ltac mark_leaf :=
  let s := fresh "s" in
  intros s <-;
  first
    [ reflexivity
    | cbn [document set_document];
      first [ apply has_class_frame; class_side
            | apply has_class_other; congruence
            | apply style_at_frame; style_side
            | apply attribute_at_frame; intros; reflexivity
            | apply attribute_at_other; congruence
            | unfold style_at; rewrite elem_data_alter_ne by congruence;
              reflexivity ] ].

Ltac toggle_current_auto :=
  unfold toggle_current; unfold_ops; cbn [deref truthy];
  repeat invariant_step mark_leaf.

(** The panel and the icon that [close_others] passes over. *)
Lemma close_others_height (element icon : option Handle) (c : Handle)
    (cs ics its : list Handle) :
  preserves (λ s, style_at c "height" (document s))
    (close_others element (Some c) icon cs ics its).
Proof.
  unfold close_others. apply preserves_invariant. intros h0.
  apply invariant_bind; [|intros ?; invariant_auto mark_leaf].
  apply invariant_forEach. intros item. case_bool_decide; cbn [negb].
  - apply invariant_ret.
  - unfold_ops. cbn [deref]. invariant_auto mark_leaf.
Qed.

Lemma close_others_own_icon (element content : option Handle) (i : Handle)
    (cs ics its : list Handle) :
  preserves (λ s, attribute_at i "icon" (document s))
    (close_others element content (Some i) cs ics its).
Proof.
  unfold close_others. apply preserves_invariant. intros a0.
  apply invariant_bind; [invariant_auto mark_leaf|intros ?].
  apply invariant_bind; [|intros ?; invariant_auto mark_leaf].
  apply invariant_forEach. intros item. case_bool_decide; cbn [negb].
  - apply invariant_ret.
  - unfold_ops. cbn [deref]. invariant_auto mark_leaf.
Qed.

Lemma toggle_current_completes (e c : Handle) (icon : option Handle)
    (s : State) :
  completes (toggle_current (Some e) (Some c) icon s) = true.
Proof.
  unfold toggle_current, style_read, read_scrollHeight, deref, gets.
  unfold mbind at 1, JS_bind at 1.
  by destruct (_ || _), icon.
Qed.

Lemma toggle_current_item_class (e c x : Handle) (icon : option Handle)
    (t : string) :
  t ∈ item_tokens → x ≠ e →
  preserves (λ s, has_class x t (document s))
    (toggle_current (Some e) (Some c) icon).
Proof.
  intros Ht Hx. unfold item_tokens in Ht.
  repeat (apply elem_of_cons in Ht as [->|Ht]);
    [..|by apply elem_of_nil in Ht];
    destruct icon; toggle_current_auto.
Qed.

Lemma toggle_current_icon_class (e c x : Handle) (icon : option Handle)
    (t : string) :
  t ∈ icon_tokens → icon ≠ Some x →
  preserves (λ s, has_class x t (document s))
    (toggle_current (Some e) (Some c) icon).
Proof.
  intros Ht Hx. unfold icon_tokens in Ht.
  repeat (apply elem_of_cons in Ht as [->|Ht]);
    [..|by apply elem_of_nil in Ht];
    destruct icon; toggle_current_auto.
Qed.

Lemma toggle_current_attribute (e c q : Handle) (icon : option Handle)
    (a : string) :
  preserves (λ s, attribute_at q a (document s))
    (toggle_current (Some e) (Some c) icon).
Proof. destruct icon; toggle_current_auto. Qed.

(** The document after [toggle_current]. *)
Lemma toggle_current_document (e c : Handle) (icon : option Handle)
    (s : State) :
  document (final_state (toggle_current (Some e) (Some c) icon s)) =
  if bool_decide (style_at c "height" (document s) = "0px") ||
     bool_decide (style_at c "height" (document s) = "")
  then
    add_classes e item_tokens
      (from_option (λ i, add_classes i icon_tokens) id icon
         (assign_style c "height"
            (pretty (scrollHeight_at c (document s)) +:+ "px") (document s)))
  else
    remove_classes e item_tokens
      (from_option (λ i, remove_classes i icon_tokens) id icon
         (assign_style c "height" "0px" (document s))).
Proof.
  unfold toggle_current, style_read, read_scrollHeight, style_assign,
    classList_add, classList_remove, deref, update_elem, gets, modify.
  unfold mbind at 1, JS_bind at 1. fold (style_at c "height" (document s)).
  by destruct (_ || _), icon.
Qed.

Lemma panel_open_decide (c : Handle) (doc : Node) :
  panel_open c doc ↔
  bool_decide (style_at c "height" doc = "0px") ||
  bool_decide (style_at c "height" doc = "") = false.
Proof.
  unfold panel_open. rewrite orb_false_iff, !bool_decide_eq_false. done.
Qed.

Lemma toggle_current_marks (e c : Handle) (icon : option Handle)
    (s : State) :
  valid e (document s) → (∀ i, icon = Some i → valid i (document s)) →
  let s' := final_state (toggle_current (Some e) (Some c) icon s) in
  (¬ panel_open c (document s) →
     marked e item_tokens (document s') ∧
     ∀ i, icon = Some i → marked i icon_tokens (document s')) ∧
  (panel_open c (document s) →
     unmarked e item_tokens (document s') ∧
     ∀ i, icon = Some i → unmarked i icon_tokens (document s')).
Proof.
  intros Hve Hvi. cbn zeta. rewrite toggle_current_document.
  rewrite panel_open_decide.
  destruct (_ || _); (split; [intros Hc|intros Hc]); try done.
  - split.
    + intros t Ht. apply has_class_added; [|done].
      apply valid_add_classes || idtac.
      destruct icon; cbn [from_option id]; valid_tac.
    + intros i -> t Ht. cbn [from_option]. unfold icon_tokens in Ht.
      repeat (apply elem_of_cons in Ht as [->|Ht]);
        [..|by apply elem_of_nil in Ht];
        (unfold add_classes at 1; rewrite has_class_frame by class_side;
         apply has_class_added; [|set_solver];
         apply valid_assign_style; by apply Hvi).
  - split.
    + intros t Ht. apply has_class_removed_eq; [|done].
      destruct icon; cbn [from_option id]; valid_tac.
    + intros i -> t Ht. cbn [from_option]. unfold icon_tokens in Ht.
      repeat (apply elem_of_cons in Ht as [->|Ht]);
        [..|by apply elem_of_nil in Ht];
        (unfold remove_classes at 1; rewrite has_class_frame by class_side;
         apply has_class_removed_eq; [|set_solver];
         apply valid_assign_style; by apply Hvi).
Qed.

Lemma style_at_assign_same (x h : Handle) (p v : string) (doc : Node) :
  style_at x p doc = v → style_at x p (assign_style h p v doc) = v.
Proof.
  intros Hx. destruct (decide (h = x)) as [->|Hne];
    [|by rewrite style_at_assign_other].
  unfold style_at, assign_style in *. rewrite elem_data_alter_eq.
  destruct (elem_data x doc) as [d|]; [|done]. cbn.
  apply style_get_set_eq.
Qed.

Ltac zero_leaf :=
  let s := fresh "s" in let Hs := fresh "Hs" in
  intros s Hs;
  first
    [ exact Hs
    | cbn [document set_document];
      first
        [ rewrite style_at_frame by style_side; exact Hs
        | apply style_at_assign_same; exact Hs
        | rewrite scrollHeight_at_frame by (intros; reflexivity); exact Hs ] ].

Lemma close_others_heights (element content icon : option Handle)
    (cs ics its : list Handle) (x : Handle) (s : State) :
  x ∈ cs → content ≠ Some x → valid x (document s) →
  style_at x "height"
    (document (final_state (close_others element content icon cs ics its s)))
    = "0px".
Proof.
  intros Hx Hne Hv.
  apply (wp_final_state (close_others element content icon cs ics its)
           (λ s', style_at x "height" (document s') = "0px")).
  unfold close_others. apply wp_bind.
  eapply wp_mono;
    [|apply (wp_of_final _ (λ s', style_at x "height" (document s') = "0px"))].
  - intros [] s1 Hs1. apply wp_of_final.
    { apply completes_bind; [|intros ? ?];
        apply forEach_completes; intros ? ?; by case_bool_decide. }
    revert s1 Hs1.
    refine (_ : invariant
                  (λ s', style_at x "height" (document s') = "0px") _).
    invariant_auto zero_leaf.
  - apply forEach_completes; intros ? ?; by case_bool_decide.
  - apply (forEach_establish (λ s, valid x (document s))
             (λ s, style_at x "height" (document s) = "0px") cs _ x);
      [done| | | | |done].
    + intros ? ?; by case_bool_decide.
    + intros y. invariant_auto valid_leaf.
    + intros y. invariant_auto zero_leaf.
    + intros s' Hv'. rewrite bool_decide_eq_false_2 by congruence.
      cbn [negb final_state style_assign deref update_elem modify document
           set_document].
      by apply style_at_assign_eq.
Qed.

Lemma close_others_scrollHeight (element content icon : option Handle)
    (cs ics its : list Handle) (q : Handle) :
  preserves (λ s, scrollHeight_at q (document s))
    (close_others element content icon cs ics its).
Proof.
  unfold close_others. apply preserves_invariant. intros z.
  invariant_auto zero_leaf.
Qed.

Lemma toggle_current_other_height (e c x : Handle) (icon : option Handle) :
  x ≠ c →
  preserves (λ s, style_at x "height" (document s))
    (toggle_current (Some e) (Some c) icon).
Proof. intros Hx. destruct icon; toggle_current_auto. Qed.

Lemma toggle_current_height (e c : Handle) (icon : option Handle)
    (s : State) :
  valid c (document s) →
  style_at c "height"
    (document (final_state (toggle_current (Some e) (Some c) icon s))) =
  if bool_decide (style_at c "height" (document s) = "0px") ||
     bool_decide (style_at c "height" (document s) = "")
  then pretty (scrollHeight_at c (document s)) +:+ "px" else "0px".
Proof.
  intros Hv. rewrite toggle_current_document.
  destruct (_ || _), icon; cbn [from_option id]; by style_simpl.
Qed.

Lemma toggleAccordion_toggled (s : State) (e c : Handle) :
  elem_querySelector (ByClass "accordion-content") e (document s) = Some c →
  wp (toggleAccordion (Some e)) (λ _, toggled e c (document s)) s.
Proof.
  intros Hq.
  assert (valid e (document s)) as Hve.
  { unfold elem_querySelector, elem_querySelectorAll in Hq. unfold valid,
      elem_data. by destruct (node_lookup e (document s)). }
  assert (valid c (document s)) as Hvc.
  { apply elem_querySelector_sound in Hq as (d & Hd & _). by exists d. }
  set (icon := elem_querySelector (ByClass "icon-toggle") e (document s)).
  assert (∀ i, icon = Some i → valid i (document s)) as Hvi.
  { intros i Hi. apply elem_querySelector_sound in Hi as (d & Hd & _).
    by exists d. }
  unfold wp. rewrite (toggleAccordion_parts e c s Hq). fold icon.
  set (closing := close_others (Some e) (Some c) icon (contents (document s))
                    (icons (document s)) (items (document s))).
  pose proof (close_others_completes (Some e) (Some c) icon
                (contents (document s)) (icons (document s))
                (items (document s)) s) as Hc1.
  fold closing in Hc1. unfold mbind, JS_bind.
  destruct (closing s) as [[] s1|] eqn:Hs1; [|done].
  assert (s1 = final_state (closing s)) as Hfin by by rewrite Hs1.
  pose proof (toggle_current_completes e c icon s1) as Hc2.
  destruct (toggle_current (Some e) (Some c) icon s1) as [[] s2|] eqn:Hs2;
    [|done].
  assert (s2 = final_state (toggle_current (Some e) (Some c) icon s1)) as Hfin2
    by by rewrite Hs2.
  assert (valid e (document s1) ∧ valid c (document s1)) as [Hve1 Hvc1].
  { rewrite Hfin. split; by apply close_others_valid. }
  assert (∀ i, icon = Some i → valid i (document s1)) as Hvi1.
  { intros i Hi. rewrite Hfin. apply close_others_valid. by apply Hvi. }
  pose proof (close_others_height (Some e) icon c (contents (document s))
                (icons (document s)) (items (document s)) s) as Hh.
  pose proof (close_others_scrollHeight (Some e) (Some c) icon
                (contents (document s)) (icons (document s))
                (items (document s)) c s) as Hsh.
  cbn beta in Hh, Hsh. fold closing in Hh, Hsh. rewrite <-Hfin in Hh, Hsh.
  assert (panel_open c (document s1) ↔ panel_open c (document s)) as Hopen.
  { unfold panel_open. by rewrite Hh. }
  destruct (toggle_current_marks e c icon s1 Hve1 Hvi1) as [Hm Hu].
  pose proof (toggle_current_height e c icon s1 Hvc1) as Hc.
  rewrite <-Hfin2 in Hm, Hu, Hc. rewrite Hh, Hsh in Hc.
  split_and!.
  - intros a Ha Hne. rewrite Hfin2.
    rewrite (toggle_current_other_height e c a icon Hne s1).
    rewrite Hfin. apply close_others_heights; [done|congruence|].
    apply select_in_sound in Ha as (d & Hd & _). by exists d.
  - intros Hn. split; [|apply Hm; by rewrite Hopen].
    rewrite Hc. destruct (_ || _) eqn:E; [done|].
    by apply panel_open_decide in E.
  - intros Ho. split; [|apply Hu; by rewrite Hopen].
    rewrite Hc. by rewrite (proj1 (panel_open_decide _ _) Ho).
Qed.

(** ** The timer that opens the first panel *)

Lemma select_below_alter (sel : Selector) (f : ElemData → ElemData)
    (p : Handle) (n : Node) :
  (∀ d, matches sel (f d) = matches sel d) →
  select_below sel (node_alter (on_data f) p n) = select_below sel n.
Proof.
  intros Hf. unfold select_below. destruct p as [|i p]; [done|].
  cbn [node_alter nd_kids]. apply select_kids_alter.
  intros k. by apply select_in_alter.
Qed.

Lemma elem_querySelectorAll_alter (sel : Selector) (f : ElemData → ElemData)
    (e p : Handle) (n : Node) :
  (∀ d, matches sel (f d) = matches sel d) →
  elem_querySelectorAll sel e (node_alter (on_data f) p n) =
  elem_querySelectorAll sel e n.
Proof.
  intros Hf. unfold elem_querySelectorAll.
  cut (select_below sel <$> node_lookup e (node_alter (on_data f) p n) =
       select_below sel <$> node_lookup e n).
  { destruct (node_lookup e (node_alter (on_data f) p n)),
      (node_lookup e n); cbn; intros [=]; congruence. }
  revert p n. induction e as [|j e IH]; intros p n.
  - cbn. f_equal. by apply select_below_alter.
  - destruct p as [|i p]; [done|]. cbn [node_alter node_lookup nd_kids].
    destruct (decide (i = j)) as [->|Hij].
    + rewrite list_lookup_alter_eq.
      destruct (nd_kids n !! j) as [k|]; cbn [fmap option_fmap option_map];
        [apply IH | done].
    + by rewrite list_lookup_alter_ne.
Qed.

Lemma insert_timer_perm (t : Timer) (ts : list Timer) :
  insert_timer t ts ≡ₚ t :: ts.
Proof.
  induction ts as [|u ts IH]; [done|]. cbn [insert_timer].
  case_match; [|done]. rewrite IH. apply Permutation_swap.
Qed.

Lemma sort_timers_perm (ts : list Timer) : sort_timers ts ≡ₚ ts.
Proof.
  unfold sort_timers. induction ts as [|t ts IH]; [done|].
  cbn [foldr]. by rewrite insert_timer_perm, IH.
Qed.

Lemma unique_split {A} (Q : A → Prop) `{∀ x, Decision (Q x)} (l : list A) :
  length (filter Q l) = 1%nat →
  ∃ l1 x l2, l = l1 ++ x :: l2 ∧ Q x ∧
    Forall (λ y, ¬ Q y) l1 ∧ Forall (λ y, ¬ Q y) l2.
Proof.
  induction l as [|y l IH]; [done|]. rewrite filter_cons.
  destruct (decide (Q y)) as [Hy|Hy]; cbn [length].
  - intros [= Hl]. exists [], y, l. split_and!; [done|done|done|].
    apply Forall_forall. intros z Hz HQ.
    assert (z ∈ filter Q l) as Hin by by apply list_elem_of_filter.
    apply length_zero_iff_nil in Hl. rewrite Hl in Hin.
    by apply elem_of_nil in Hin.
  - intros Hl. destruct (IH Hl) as (l1 & x & l2 & -> & Hx & H1 & H2).
    exists (y :: l1), x, l2. split_and!; [done|done| |done].
    by constructor.
Qed.

Lemma run_all_app {A} (run : A → JS unit) (l1 l2 : list A) (s : State) :
  run_all run (l1 ++ l2) s = run_all run l2 (run_all run l1 s).
Proof. unfold run_all. apply foldl_app. Qed.

(** A timer other than the auto-open one changes at most the [display] of
    one element, and no global. *)
Lemma other_timer_document (cb : TimerCallback) (s : State) :
  cb ≠ TC_openFirst →
  globals (final_state (run_timer cb s)) = globals s ∧
  (document (final_state (run_timer cb s)) = document s ∨
   ∃ mm, document (final_state (run_timer cb s))
         = assign_style mm "display" "none" (document s)).
Proof.
  intros Hcb. destruct cb; [| |done]; cbn [run_timer].
  - unfold startAnimations, gets, mbind, JS_bind.
    destruct (_ && _); [|by split; [|left]].
    unfold gsap_call, console_log, modify. rewrite initAnimations_eq.
    by split; [|left].
  - unfold hideMenu, menu_var, mbind, JS_bind.
    destruct (menu s) as [sc|]; [|by split; [|left]].
    destruct (Menu.mobileMenu sc) as [mm|]; [|by split; [|left]].
    split; [done|]. right. by exists mm.
Qed.

Lemma first_panel_display (e c mm : Handle) (l : list Handle) (h0 v : string)
    (sh0 : Z) (s : State) :
  first_panel e c l h0 sh0 s →
  first_panel e c l h0 sh0 (set_document (assign_style mm "display" v) s).
Proof.
  intros (Hg & He & Hc & Hl & Hh & Hsh). unfold first_panel.
  cbn [globals document set_document]. unfold assign_style.
  split_and!; [done|..].
  - unfold doc_querySelector, doc_querySelectorAll.
    by rewrite select_in_alter.
  - unfold elem_querySelector. by rewrite elem_querySelectorAll_alter.
  - by rewrite contents_frame.
  - by rewrite style_at_frame by style_side.
  - by rewrite scrollHeight_at_frame.
Qed.

Lemma first_panel_ext (e c : Handle) (l : list Handle) (h0 : string)
    (sh0 : Z) (s s' : State) :
  globals s' = globals s → document s' = document s →
  first_panel e c l h0 sh0 s → first_panel e c l h0 sh0 s'.
Proof. unfold first_panel. by intros -> ->. Qed.

Lemma first_panel_other_timer (e c : Handle) (l : list Handle) (h0 : string)
    (sh0 : Z) (cb : TimerCallback) :
  cb ≠ TC_openFirst → invariant (first_panel e c l h0 sh0) (run_timer cb).
Proof.
  intros Hcb s Hs.
  destruct (other_timer_document cb s Hcb) as [Hg [Hd|[mm Hd]]].
  - by apply (first_panel_ext e c l h0 sh0 s).
  - apply (first_panel_ext e c l h0 sh0
             (set_document (assign_style mm "display" "none") s));
      [done|done|]. by apply first_panel_display.
Qed.

Lemma toggled_other_timer (e c : Handle) (doc : Node) (cb : TimerCallback) :
  cb ≠ TC_openFirst → invariant (toggled e c doc) (run_timer cb).
Proof.
  intros Hcb s (Hothers & Hclosed & Hopen).
  destruct (other_timer_document cb s Hcb) as [_ Hd].
  assert (∀ q, style_at q "height" (document (final_state (run_timer cb s)))
               = style_at q "height" (document s)) as Hh.
  { intros q. destruct Hd as [->|[mm ->]]; [done|].
    by rewrite style_at_assign_ne. }
  assert (∀ q t, has_class q t (document (final_state (run_timer cb s)))
                 = has_class q t (document s)) as Hcl.
  { intros q t. destruct Hd as [->|[mm ->]]; [done|].
    by rewrite has_class_assign_style. }
  unfold toggled, marked, unmarked. setoid_rewrite Hh. setoid_rewrite Hcl.
  done.
Qed.

Lemma openFirst_toggles (e : Handle) (s : State) :
  toggleAccordion_defined (globals s) = true →
  doc_querySelector (ByClass "accordion-item") (document s) = Some e →
  openFirst s = toggleAccordion (Some e) s.
Proof.
  intros Hg He. unfold openFirst, document_querySelector, gets, mbind, JS_bind.
  by rewrite He, Hg.
Qed.

Lemma elapse_toggles_first `{Double} (s : State) (e c : Handle)
    (dt : Z) :
  toggleAccordion_defined (globals s) = true →
  doc_querySelector (ByClass "accordion-item") (document s) = Some e →
  elem_querySelector (ByClass "accordion-content") e (document s) = Some c →
  length (filter opens_first
            (filter (λ t, due t ≤ clock s + Z.max 0 dt) (timers s))) = 1%nat →
  toggled e c (document s) (step (E_elapse dt) s).
Proof.
  intros Hg He Hc Hone. cbn [step].
  set (now := clock s + Z.max 0 dt) in *.
  set (s0 := set_timers _ _).
  rewrite <-(sort_timers_perm (filter (λ t, due t ≤ now) (timers s))) in Hone.
  apply unique_split in Hone as (r1 & t0 & r2 & -> & Ht0 & Hr1 & Hr2).
  rewrite fmap_app, fmap_cons, Ht0, run_all_app, run_all_cons.
  set (l := contents (document s)).
  set (h0 := style_at c "height" (document s)).
  set (sh0 := scrollHeight_at c (document s)).
  assert (first_panel e c l h0 sh0 s0) as Hs0 by done.
  assert (first_panel e c l h0 sh0
            (run_all run_timer (timer_callback <$> r1) s0)) as Hs1.
  { apply invariant_run_all; [done| |done].
    intros cb Hcb. apply first_panel_other_timer.
    apply list_elem_of_fmap in Hcb as (t & -> & Ht).
    rewrite Forall_forall in Hr1. by apply Hr1. }
  set (s1 := run_all run_timer (timer_callback <$> r1) s0) in *.
  destruct Hs1 as (Hg1 & He1 & Hc1 & Hl1 & Hh1 & Hsh1).
  cbn [run_timer]. rewrite (openFirst_toggles e s1 Hg1 He1).
  pose proof (toggleAccordion_toggled s1 e c Hc1) as Hwp.
  apply wp_elim in Hwp as ([] & s2 & -> & Hs2). cbn [settle].
  apply invariant_run_all.
  - done.
  - intros cb Hcb. apply toggled_other_timer.
    apply list_elem_of_fmap in Hcb as (t & -> & Ht).
    rewrite Forall_forall in Hr2. by apply Hr2.
  - unfold toggled, panel_open in *. by rewrite Hl1, Hh1, Hsh1 in Hs2.
Qed.

(** ** Start-up, at once or on [DOMContentLoaded] *)

Section commutes.
Context (g : State → State).

Lemma commutes_ret {A} (a : A) : commutes g (mret a : JS A).
Proof. by intros s. Qed.

Lemma commutes_bind {A B} (m : JS A) (k : A → JS B) :
  commutes g m → (∀ a, commutes g (k a)) → commutes g (m ≫= k).
Proof.
  intros Hm Hk s. unfold mbind, JS_bind. rewrite Hm.
  destruct (m s) as [a s'|e s']; cbn [outcome_map]; [apply Hk | done].
Qed.

Lemma commutes_gets {A} (f : State → A) :
  (∀ s, f (g s) = f s) → commutes g (gets f).
Proof. intros Hf s. unfold gets. cbn. by rewrite Hf. Qed.

Lemma commutes_modify (h : State → State) :
  (∀ s, h (g s) = g (h s)) → commutes g (modify h).
Proof. intros Hh s. unfold modify. cbn. by rewrite Hh. Qed.

Lemma commutes_throw {A} (e : string) : commutes g (throw e : JS A).
Proof. by intros s. Qed.

Lemma commutes_deref {A} (v : option Handle) (k : Handle → JS A) :
  (∀ h, commutes g (k h)) → commutes g (deref v k).
Proof. intros Hk. destruct v; [apply Hk | apply commutes_throw]. Qed.

Lemma commutes_forEach {A} (l : list A) (f : A → JS unit) :
  (∀ x, commutes g (f x)) → commutes g (forEach l f).
Proof.
  intros Hf. induction l as [|x l IH]; [apply commutes_ret|].
  cbn [forEach]. by apply commutes_bind.
Qed.

Lemma commutes_nav_var {A} (f : Nav.Scope → A) :
  (∀ s, nav (g s) = nav s) → commutes g (nav_var f).
Proof. intros Hn s. unfold nav_var. rewrite Hn. by destruct (nav s). Qed.

Lemma commutes_menu_var {A} (f : Menu.Scope → A) :
  (∀ s, menu (g s) = menu s) → commutes g (menu_var f).
Proof. intros Hn s. unfold menu_var. rewrite Hn. by destruct (menu s). Qed.
End commutes.

Lemma commutes_addEventListener (t : Target) (ty : string) (l : Listener) :
  mkReg t ty l ≠ start_registration →
  commutes deferred (addEventListener t ty l).
Proof.
  intros Hne. unfold addEventListener. apply commutes_modify.
  intros [d w rs c ls ts fs ck gl nv mn cs gc].
  unfold deferred, set_listeners, set_console.
  cbn [listeners console document window readyState timers frames clock
       globals nav menu counters gsapCalls].
  f_equal.
  destruct (decide (mkReg t ty l ∈ start_registration :: ls)) as [Hin|Hin],
    (decide (mkReg t ty l ∈ ls)) as [Hin'|Hin']; try done.
  - apply elem_of_cons in Hin as [?|?]; done.
  - destruct Hin. by apply list_elem_of_further.
Qed.

Ltac deferred_leaf :=
  let s := fresh "s" in
  intros s; destruct s as [d w rs c ls ts fs ck gl nv mn cs gc];
  reflexivity.

Ltac commutes_step :=
  lazymatch goal with
  | |- commutes _ (mret _) => apply commutes_ret
  | |- commutes _ (_ ≫= _) => apply commutes_bind; [|intros ?]
  | |- commutes _ (gets _) => apply commutes_gets; deferred_leaf
  | |- commutes _ (throw _) => apply commutes_throw
  | |- commutes _ (addEventListener _ _ _) =>
      apply commutes_addEventListener; discriminate
  | |- commutes _ (deref _ _) => apply commutes_deref; intros ?
  | |- commutes _ (forEach _ _) => apply commutes_forEach; intros ?
  | |- commutes _ (nav_var _) => apply commutes_nav_var; deferred_leaf
  | |- commutes _ (menu_var _) => apply commutes_menu_var; deferred_leaf
  | |- commutes _ (if ?b then _ else _) => destruct b
  | |- commutes _ (modify _) => apply commutes_modify; deferred_leaf
  end.

Ltac commutes_auto :=
  unfold console_log, console_warn, classList_add, classList_remove,
    style_assign, style_read, setAttribute, getAttribute, read_scrollHeight,
    assign_textContent, querySelector, querySelectorAll,
    document_querySelector, document_querySelectorAll,
    document_getElementById, document_body, elem_addEventListener,
    setTimeout, requestAnimationFrame, scrollTo,
    update_elem, nav_assign, menu_assign, gsap_call, new_counter_scope;
  repeat commutes_step.

Lemma deferred_initAll `{Double} : commutes deferred initAll.
Proof.
  unfold initAll, initNavigation, initMobileMenu, initAccordion,
    initViewportFix, setVH, updateNav.
  commutes_auto.
Qed.

Lemma starting_fresh (doc : Node) (w : Window) (rs : string) (lib : bool) :
  rs ≠ "loading" → starting false (fresh_page doc w rs lib).
Proof.
  intros Hrs. split_and!; done.
Qed.

Lemma no_window_start (s : State) :
  Forall listener_ok (listeners s) →
  listeners_for T_window "DOMContentLoaded" (deferred s) = [].
Proof.
  intros Hok.
  destruct (listeners_for T_window "DOMContentLoaded" (deferred s))
    as [|l ls] eqn:Hl; [done|].
  assert (l ∈ listeners_for T_window "DOMContentLoaded" (deferred s)) as Hin
    by (rewrite Hl; apply list_elem_of_here).
  apply elem_of_listeners_for in Hin.
  assert (mkReg T_window "DOMContentLoaded" l ∈ listeners s) as Hin'.
  { destruct s. cbn in Hin. by apply elem_of_cons in Hin as [?|?]. }
  rewrite Forall_forall in Hok. specialize (Hok _ Hin').
  unfold listener_ok in Hok. cbn in Hok. destruct l; naive_solver.
Qed.

(** ** Reading back a number that was printed *)

Lemma pretty_N_char_digit (d : N) :
  (d < 10)%N →
  digit_of (pretty_N_char d) = Some (Z.of_N d) ∧
  is_space (pretty_N_char d) = false ∧
  pretty_N_char d ≠ "-"%char ∧ pretty_N_char d ≠ "+"%char.
Proof.
  intros Hd.
  assert (d = 0 ∨ d = 1 ∨ d = 2 ∨ d = 3 ∨ d = 4 ∨ d = 5 ∨ d = 6 ∨ d = 7 ∨
          d = 8 ∨ d = 9)%N as Hcases by lia.
  repeat (destruct Hcases as [->|Hcases]); try subst d;
    (split_and!; [reflexivity|vm_compute; reflexivity|discriminate..]).
Qed.

Lemma parse_digits_pretty_go (x : N) (s : string) (acc : Num Z) :
  (0 < x)%N → default 0 acc = 0 →
  parse_digits acc (pretty_N_go x s) = parse_digits (Some (Z.of_N x)) s.
Proof.
  revert s. induction (N.lt_wf_0 x) as [x _ IH]; intros s Hx Hacc.
  rewrite pretty_N_go_step by done.
  assert (x `mod` 10 < 10)%N as Hr by by apply N.mod_lt.
  destruct (pretty_N_char_digit _ Hr) as (Hdig & _).
  pose proof (N.div_mod x 10 ltac:(done)) as Hdm.
  assert (x `div` 10 < x)%N as Hlt by (apply N.div_lt; lia).
  remember (x `mod` 10)%N as r eqn:Er. remember (x `div` 10)%N as q eqn:Eq.
  clear Er Eq.
  destruct (decide (q = 0)%N) as [Hq|Hq].
  - rewrite Hq, pretty_N_go_0. cbn [parse_digits]. rewrite Hdig, Hacc.
    do 2 f_equal. clear IH Hdig. lia.
  - rewrite IH; [|done|clear IH Hdig; lia|done].
    cbn [parse_digits]. rewrite Hdig. cbn [default from_option id].
    do 2 f_equal. clear IH Hdig. lia.
Qed.

Lemma pretty_N_go_head (x : N) (s : string) :
  (0 < x)%N →
  ∃ d rest, (d < 10)%N ∧ pretty_N_go x s = String (pretty_N_char d) rest.
Proof.
  revert s. induction (N.lt_wf_0 x) as [x _ IH]; intros s Hx.
  rewrite pretty_N_go_step by done.
  assert (x `div` 10 < x)%N as Hlt by (apply N.div_lt; lia).
  destruct (decide (x `div` 10 = 0)%N) as [Hq|Hq].
  - rewrite Hq, pretty_N_go_0. eexists _, _. split; [|done].
    by apply N.mod_lt.
  - apply IH; [done|]. clear -Hq. remember (x `div` 10)%N as q. lia.
Qed.

Lemma parseInt10_digits (s : string) (d : N) (rest : string) :
  (d < 10)%N → s = String (pretty_N_char d) rest →
  parseInt10 s = parse_digits None s.
Proof.
  intros Hd ->. destruct (pretty_N_char_digit d Hd) as (_ & Hsp & Hm & Hp).
  unfold parseInt10. cbn [skip_spaces]. rewrite Hsp.
  assert (d = 0 ∨ d = 1 ∨ d = 2 ∨ d = 3 ∨ d = 4 ∨ d = 5 ∨ d = 6 ∨ d = 7 ∨
          d = 8 ∨ d = 9)%N as Hcases by lia.
  by repeat (destruct Hcases as [->|Hcases]); try subst d.
Qed.

Lemma parseInt10_pretty_pos (p : positive) :
  parseInt10 (pretty (Npos p)) = Some (Zpos p) ∧
  parse_digits None (pretty (Npos p)) = Some (Zpos p).
Proof.
  unfold pretty, pretty_N. rewrite decide_False by done.
  destruct (pretty_N_go_head (Npos p) "" ltac:(done)) as (d & rest & Hd & Hs).
  rewrite (parseInt10_digits _ d rest Hd Hs).
  by rewrite parse_digits_pretty_go.
Qed.

Lemma parseInt10_pretty (z : Z) : parseInt10 (pretty z) = Some z.
Proof.
  destruct z as [|p|p]; [done|apply parseInt10_pretty_pos|].
  change (parseInt10 (String "-" (pretty (N.pos p))) = Some (Z.neg p)).
  unfold parseInt10. cbn [skip_spaces].
  change (is_space "-") with false. cbn iota.
  by rewrite (proj2 (parseInt10_pretty_pos p)).
Qed.

Lemma pretty_Z_nonempty (z : Z) : pretty z ≠ "".
Proof.
  intros Hz. pose proof (parseInt10_pretty z) as Hp. by rewrite Hz in Hp.
Qed.

(** ** What each feature writes in the document *)

Lemma tag_frame (q h : Handle) (f : ElemData → ElemData) (doc : Node) :
  (∀ d, tagName (f d) = tagName d) →
  tagName <$> elem_data q (node_alter (on_data f) h doc) =
  tagName <$> elem_data q doc.
Proof.
  intros Hf. rewrite elem_data_alter. case_decide; [|done].
  destruct (elem_data q doc); cbn; [by rewrite Hf | done].
Qed.

Lemma text_frame (q h : Handle) (f : ElemData → ElemData) (doc : Node) :
  (∀ d, textContent (f d) = textContent d) →
  text_at q (node_alter (on_data f) h doc) = text_at q doc.
Proof.
  intros Hf. unfold text_at. rewrite elem_data_alter. case_decide; [|done].
  destruct (elem_data q doc); cbn; [by rewrite Hf | done].
Qed.

Ltac attribute_side :=
  let d := fresh "d" in
  intros d; cbn [attributes with_classList with_style with_attributes];
  first [ reflexivity | apply lookup_insert_ne; congruence ].

Ltac footprint_leaf :=
  let s := fresh "s" in
  intros s <-;
  first
    [ reflexivity
    | cbn [document set_document];
      first [ apply style_at_frame; style_side
            | apply has_class_frame; class_side
            | apply attribute_at_frame; attribute_side
            | apply tag_frame; intros; reflexivity
            | apply text_frame; intros; reflexivity ] ].

Ltac within_auto :=
  let q := fresh "q" in
  intros q; split_and!;
  [ let p := fresh "p" in let Hp := fresh "Hp" in
    intros p Hp; cbn [fp_styles] in Hp;
    rewrite ?not_elem_of_cons in Hp; destruct_and?
  | let t := fresh "t" in let Ht := fresh "Ht" in
    intros t Ht; cbn [fp_tokens] in Ht
  | let a := fresh "a" in let Ha := fresh "Ha" in
    intros a Ha; cbn [fp_attributes] in Ha;
    rewrite ?not_elem_of_cons in Ha; destruct_and?
  | | ];
  invariant_auto footprint_leaf.

Lemma within_toggleAccordion (e : option Handle) :
  within accordion_footprint (toggleAccordion e).
Proof.
  unfold accordion_footprint, accordion_tokens, toggleAccordion. within_auto.
Qed.

Lemma within_toggle : within menu_footprint toggle.
Proof. unfold menu_footprint, toggle, openMenu, closeMenu. within_auto. Qed.

Lemma within_hideMenu : within menu_footprint hideMenu.
Proof. unfold menu_footprint, hideMenu. within_auto. Qed.

Lemma within_updateNav : within navigation_footprint updateNav.
Proof.
  unfold navigation_footprint, expandedClasses, pillClasses, updateNav.
  cbn [app]. within_auto.
Qed.

Lemma within_setVH `{Double} : within viewport_footprint setVH.
Proof. unfold viewport_footprint, setVH. within_auto. Qed.

Lemma within_closeMenu : within menu_footprint closeMenu.
Proof. unfold menu_footprint, closeMenu. within_auto. Qed.

Lemma within_openFirst : within accordion_footprint openFirst.
Proof.
  unfold accordion_footprint, accordion_tokens, openFirst, toggleAccordion.
  within_auto.
Qed.

Lemma within_initNavigation : within navigation_footprint initNavigation.
Proof.
  unfold navigation_footprint, expandedClasses, pillClasses, initNavigation,
    updateNav.
  cbn [app]. within_auto.
Qed.

Lemma within_initAnimations : within (mkFootprint [] [] []) initAnimations.
Proof. unfold initAnimations. within_auto. Qed.

Lemma disjoint_footprints_Forall (f1 f2 : Footprint) :
  Forall (λ p, p ∉ fp_styles f2) (fp_styles f1) →
  Forall (λ t, t ∉ fp_tokens f2) (fp_tokens f1) →
  Forall (λ a, a ∉ fp_attributes f2) (fp_attributes f1) →
  disjoint_footprints f1 f2.
Proof. rewrite !Forall_forall. by intros ???. Qed.

(** ** The page after start-up *)

Lemma within_initAll `{Double} : within start_footprint initAll.
Proof.
  unfold start_footprint, expandedClasses, pillClasses, initAll,
    initNavigation, initMobileMenu, initAccordion, initViewportFix, setVH,
    updateNav.
  cbn [app]. within_auto.
Qed.

Lemma doc_querySelector_frame (sel : Selector) (f : ElemData → ElemData)
    (h : Handle) (doc : Node) :
  (∀ d, matches sel (f d) = matches sel d) →
  doc_querySelector sel (node_alter (on_data f) h doc) =
  doc_querySelector sel doc.
Proof.
  intros Hf. unfold doc_querySelector, doc_querySelectorAll.
  by rewrite select_in_alter.
Qed.

Lemma elem_querySelector_frame (sel : Selector) (f : ElemData → ElemData)
    (e h : Handle) (doc : Node) :
  (∀ d, matches sel (f d) = matches sel d) →
  elem_querySelector sel e (node_alter (on_data f) h doc) =
  elem_querySelector sel e doc.
Proof.
  intros Hf. unfold elem_querySelector.
  by rewrite elem_querySelectorAll_alter.
Qed.

(** The accordion classes are none of the classes that [initAll] writes. *)
Ltac matches_side :=
  let d := fresh "d" in
  intros d; cbn [matches]; apply bool_decide_ext;
  cbn [classList with_classList with_style with_attributes];
  first
    [ reflexivity
    | rewrite elem_of_tokens_add; set_solver
    | rewrite elem_of_tokens_remove; set_solver ].

Ltac start_leaf :=
  let s := fresh "s" in
  intros s <-;
  first
    [ reflexivity
    | cbn [document set_document];
      first [ apply doc_querySelector_frame; matches_side
            | apply elem_querySelector_frame; matches_side
            | apply contents_frame; class_side
            | apply scrollHeight_at_frame; intros; reflexivity ] ].

Ltac initAll_auto leaf :=
  unfold initAll, initNavigation, initMobileMenu, initAccordion,
    initViewportFix, setVH, updateNav, expandedClasses, pillClasses;
  invariant_auto leaf.

Lemma initAll_first_item `{Double} :
  preserves
    (λ s, doc_querySelector (ByClass "accordion-item") (document s)) initAll.
Proof. initAll_auto start_leaf. Qed.

Lemma initAll_content `{Double} (e : Handle) :
  preserves
    (λ s, elem_querySelector (ByClass "accordion-content") e (document s))
    initAll.
Proof. initAll_auto start_leaf. Qed.

Lemma initAll_contents `{Double} :
  preserves (λ s, contents (document s)) initAll.
Proof. initAll_auto start_leaf. Qed.

Lemma initAll_scrollHeight `{Double} (q : Handle) :
  preserves (λ s, scrollHeight_at q (document s)) initAll.
Proof. initAll_auto start_leaf. Qed.

Lemma initAll_obs_start `{Double} : preserves obs_start initAll.
Proof.
  initAll_auto ltac:(
    let s := fresh "s" in
    intros s <-; first [ reflexivity | by destruct s as [? ? ? ? ? ? ? ? [] ? ? ? ?] ]).
Qed.

Lemma initAll_timers `{Double} (s : State) :
  timers (final_state (initAll s)) = timers s ++ start_timers (clock s) ∧
  toggleAccordion_defined (globals (final_state (initAll s))) = true.
Proof.
  apply (wp_final_state initAll
           (λ s', timers s' = timers s ++ start_timers (clock s) ∧
                  toggleAccordion_defined (globals s') = true)).
  unfold initAll.
  apply wp_bind. unfold console_log at 1. apply wp_modify.
  apply wp_bind. unfold setTimeout at 1. apply wp_modify.
  set (P := λ s' : State,
         (timers s', clock s') =
         (timers s ++ [mkTimer (clock s + 100) TC_startAnimations], clock s)).
  apply (wp_seq_invariant P); [| |done|].
  { apply (invariant_preserves (λ s, (timers s, clock s)) (λ o, o = _)).
    unfold initNavigation, updateNav. preserves_field. }
  { apply initNavigation_completes. }
  intros [] s1 H1.
  apply (wp_seq_invariant P); [| |done|].
  { apply (invariant_preserves (λ s, (timers s, clock s)) (λ o, o = _)).
    unfold initMobileMenu. preserves_field. }
  { apply initMobileMenu_completes. }
  intros [] s2 H2. injection H2 as Ht2 Hc2.
  apply wp_bind. eapply wp_intro; [apply initAccordion_eq|].
  eapply wp_intro; [apply initViewportFix_eq|].
  cbn [timers globals set_listeners set_document set_timers set_globals
       logged set_console set_toggleAccordion_defined
       toggleAccordion_defined].
  split; [|done]. rewrite Ht2, Hc2, <-app_assoc. done.
Qed.

Lemma load_at_once `{Double} (doc : Node) (w : Window) (rs : string)
    (lib : bool) :
  rs ≠ "loading" →
  load (fresh_page doc w rs lib) =
  set_console (λ c, c ++ [loaded_message])
    (final_state (initAll (fresh_page doc w rs lib))).
Proof.
  intros Hrs. unfold load, main, gets, console_log, modify, mbind, JS_bind.
  cbn [readyState fresh_page]. rewrite bool_decide_eq_false_2 by done.
  pose proof (initAll_completes (fresh_page doc w rs lib)) as Hc.
  by destruct (initAll _).
Qed.

(* ================================================================== *)
(** * Properties of the script *)
(* ================================================================== *)

(** ** Accordion: an element without content *)

(** C9.  When [toggleAccordion] is called with an element that has no
    [.accordion-content] descendant it returns at once: the whole state,
    and so every content height, icon class, icon attribute and item
    class of the page, is what it was before the call. *)
Theorem toggleAccordion_without_content (s : State) (element : Handle) :
  elem_querySelector (ByClass "accordion-content") element (document s) = None →
  toggleAccordion (Some element) s = Normal () s.
Proof.
  intros H.
  unfold toggleAccordion, querySelector, deref, gets, mbind, JS_bind.
  by rewrite H.
Qed.

Lemma toggleAccordion_without_content_witness :
  toggleAccordion (Some [1; 0]%nat) sample_page = Normal () sample_page.
Proof.
  apply toggleAccordion_without_content. vm_compute. reflexivity.
Defined.

(** ** Navigation: the guard on [#main-header] *)

(** C10.  [initNavigation] starts the feature only when both [#navbar] and
    [#main-header] exist.  Without [#main-header] it logs the warning and
    does nothing else, also when [#navbar] is there; with both it creates
    the scope and registers the scroll listener.  Yet [updateNav] does not
    use the [mainHeader] variable (replacing its value, even by [null],
    changes nothing of what [updateNav] does) and changes no element other
    than the navbar. *)
Theorem navigation_requires_main_header (s : State) :
  (doc_querySelector (ById "main-header") (document s) = None →
   initNavigation s = Normal () (warned "⚠️ Navbar not found" s)) ∧
  (doc_querySelector (ById "navbar") (document s) = None →
   initNavigation s = Normal () (warned "⚠️ Navbar not found" s)) ∧
  (∀ nb mh,
     doc_querySelector (ById "navbar") (document s) = Some nb →
     doc_querySelector (ById "main-header") (document s) = Some mh →
     ∃ s', initNavigation s = Normal () s' ∧
       mkReg T_window "scroll" L_requestTick ∈ listeners s' ∧
       nav s' = Some (Nav.mk (Some nb) (Some mh)
                        (50 <? scrollY_of (window s)) false)) ∧
  (∀ v, updateNav (set_nav (fmap (set_nav_mainHeader v)) s) =
        outcome_map (set_nav (fmap (set_nav_mainHeader v))) (updateNav s)) ∧
  (∀ q, (∀ sc, nav s = Some sc → Nav.navbar sc ≠ Some q) →
        elem_data q (document (final_state (updateNav s))) =
        elem_data q (document s)).
Proof.
  split_and!.
  - intros Hmh. apply initNavigation_absent. unfold nav_elements_present.
    rewrite Hmh. apply andb_false_r.
  - intros Hnb. apply initNavigation_absent. unfold nav_elements_present.
    by rewrite Hnb.
  - intros nb mh Hnb Hmh. rewrite (initNavigation_present s nb mh) by done.
    erewrite updateNav_eq; [|done..]. eexists. split; [done|].
    assert (mkReg T_window "scroll" L_requestTick ∈ listeners (nav_ready nb mh s)).
    { unfold nav_ready. simpl. case_decide; [done|]. set_solver. }
    cbn zeta. repeat case_match; done.
  - apply updateNav_ignores_mainHeader.
  - apply updateNav_touches_navbar_only.
Qed.

Lemma navigation_requires_main_header_witness :
  doc_querySelector (ById "navbar") (document navbar_only_page)
    = Some [0; 0]%nat ∧
  initNavigation navbar_only_page
    = Normal () (warned "⚠️ Navbar not found" navbar_only_page).
Proof.
  split; [reflexivity|].
  apply (proj1 (navigation_requires_main_header navbar_only_page)).
  reflexivity.
Defined.

(** ** Start-up: missing elements *)

(** C4, as the specification words it, fails for the accordion: on a page
    without accordion elements [initAccordion] does not return with only a
    warning logged. *)
Lemma initAccordion_not_guarded :
  accordion_elements_present bare_page = false ∧
  ¬ ∃ m, initAccordion bare_page = Normal () (warned m bare_page).
Proof.
  split; [reflexivity|]. intros [m Hm]. rewrite initAccordion_eq in Hm.
  apply (f_equal (λ o, timers (final_state o))) in Hm. discriminate Hm.
Qed.

(** C4, amended.  [initNavigation] and [initMobileMenu] test for their
    elements and, when one is missing, log a warning and return with no
    other effect.  [initAccordion] has no such test and logs no warning:
    it always publishes [toggleAccordion] and arms the 300 ms timer, whose
    callback does nothing on a page without [.accordion-item].
    [initViewportFix] has no test either.  None of the four throws,
    whatever the document, and neither does [initAll]. *)
Theorem initializers_fault_isolation `{Double} (s : State) :
  (nav_elements_present s = false →
   initNavigation s = Normal () (warned "⚠️ Navbar not found" s)) ∧
  (menu_elements_present s = false →
   initMobileMenu s = Normal () (warned "⚠️ Menu elements not found" s)) ∧
  initAccordion s = Normal ()
    (set_timers (λ ts, ts ++ [mkTimer (clock s + 300) TC_openFirst])
       (set_globals (set_toggleAccordion_defined true)
          (logged "🎵 Accordion initialized" s))) ∧
  (accordion_elements_present s = false → openFirst s = Normal () s) ∧
  completes (initNavigation s) = true ∧
  completes (initMobileMenu s) = true ∧
  completes (initAccordion s) = true ∧
  completes (initViewportFix s) = true ∧
  completes (initAll s) = true.
Proof.
  split_and!.
  - apply initNavigation_absent.
  - apply initMobileMenu_absent.
  - apply initAccordion_eq.
  - apply openFirst_no_item.
  - apply initNavigation_completes.
  - apply initMobileMenu_completes.
  - done.
  - apply initViewportFix_completes.
  - apply initAll_completes.
Qed.

Lemma initializers_fault_isolation_witness :
  initNavigation bare_page
    = Normal () (warned "⚠️ Navbar not found" bare_page) ∧
  initMobileMenu bare_page
    = Normal () (warned "⚠️ Menu elements not found" bare_page) ∧
  openFirst bare_page = Normal () bare_page.
Proof.
  destruct (@initializers_fault_isolation sample_double bare_page)
    as (Hnav & Hmenu & _ & Hfirst & _).
  split_and!; [apply Hnav | apply Hmenu | apply Hfirst]; reflexivity.
Defined.

(** ** Scroll throttling *)

(** C7.  In every state the page can reach, at most one [updateNav]
    callback is pending, and one is pending exactly when [ticking] is
    set.  Once the navigation is initialised a scroll event leaves exactly
    one callback pending; while [ticking] is set a scroll event schedules
    nothing more; the only event that clears [ticking] is the animation
    frame, in which the callback runs and the queue becomes empty. *)
Theorem scroll_updates_are_throttled `{Double} (s : State) :
  reachable s →
  (length (frames s) ≤ 1)%nat ∧
  frames s = (if ticking_of s then [FC_updateNav] else []) ∧
  (is_Some (nav s) → ∀ y top,
     frames (step (E_scroll y top) s) = [FC_updateNav] ∧
     ticking_of (step (E_scroll y top) s) = true) ∧
  (ticking_of s = true → ∀ y top,
     frames (step (E_scroll y top) s) = frames s) ∧
  (ticking_of s = true → ∀ e,
     ticking_of (step e s) = false → e = E_frame) ∧
  (ticking_of s = true →
     ticking_of (step E_frame s) = false ∧ frames (step E_frame s) = []).
Proof.
  intros Hs%reachable_page_inv.
  pose proof Hs as ((Hok & Hn & Hfr) & Hload & Hst).
  split_and!.
  - rewrite Hfr. destruct (ticking_of s); simpl; lia.
  - done.
  - intros Hnav y top. by apply step_scroll_schedules.
  - intros Ht y top. by apply step_scroll_ticking.
  - intros Ht e He.
    assert (¬ quiet e) as Hq.
    { intros Hq. pose proof (step_quiet e s Hq Hs) as Ho.
      unfold obs_sched in Ho. injection Ho as _ _ Hnav _.
      unfold ticking_of in *. rewrite Hnav in He. congruence. }
    destruct e; try (by destruct Hq); [| |done].
    + exfalso. simpl in He. case_decide as Hl; [|congruence].
      destruct (Hload Hl) as [Hnav _]. unfold ticking_of in Ht.
      by rewrite Hnav in Ht.
    + exfalso. destruct (step_scroll_ticking y top s Hs Ht) as [Hnav _].
      unfold ticking_of in *. rewrite Hnav in He. congruence.
  - intros Ht. by apply step_frame_ticking.
Qed.

Lemma scroll_updates_are_throttled_witness :
  @reachable sample_double scrolled_page ∧
  frames scrolled_page = [FC_updateNav] ∧
  frames (@step sample_double (E_scroll 130 130) scrolled_page)
    = frames scrolled_page.
Proof.
  assert (@reachable sample_double scrolled_page) as Hr.
  { unfold scrolled_page, loaded_page, sample_page.
    apply reachable_step. apply reachable_load. }
  split; [exact Hr|].
  destruct (@scroll_updates_are_throttled sample_double scrolled_page Hr)
    as (_ & Hf & _ & Hsame & _).
  split; [rewrite Hf; vm_compute; reflexivity|].
  apply Hsame. vm_compute. reflexivity.
Defined.

(** ** Viewport height *)



(** ** Navigation: the scroll threshold *)



(** ** Mobile menu: opening, then closing *)



(** ** Mobile menu: reopening before the hide timer fires *)

(** C8.  Let the menu be open, close it, let less than 300 ms pass,
    reopen it, and let time pass until 300 ms after the close.  The timer
    armed by the close is still pending after the reopening, when the
    panel has [display: flex]; once it has fired the menu is still open
    for the script ([isOpen] set, open class on the panel and none of the
    closed classes, header hidden, body fixed) and the panel has
    [display: none]. *)
Theorem reopened_menu_hidden_by_stale_timer `{Double} (s : State)
    (sc : Menu.Scope) (mm mh b : Handle) (dt1 dt2 : Z) :
  menu s = Some sc → Menu.mobileMenu sc = Some mm →
  Menu.mainHeader sc = Some mh → Menu.isOpen sc = true →
  toggleMenu_defined (globals s) = true →
  doc_body (document s) = Some b →
  valid mm (document s) → valid mh (document s) →
  0 ≤ dt1 < 300 → 300 ≤ dt1 + dt2 →
  let s1 := step E_call_toggleMenu s in
  let s2 := step (E_elapse dt1) s1 in
  let s3 := step E_call_toggleMenu s2 in
  let s4 := step (E_elapse dt2) s3 in
  (∃ sc1, menu s1 = Some sc1 ∧ Menu.isOpen sc1 = false) ∧
  mkTimer (clock s + 300) TC_hideMenu ∈ timers s3 ∧
  menu_shown mm mh b s3 ∧
  style_at mm "display" (document s3) = "flex" ∧
  menu_shown mm mh b s4 ∧
  style_at mm "display" (document s4) = "none".
Proof.
  intros Hs Hmm Hmh Hop Hg Hb Hvm Hvh Hdt1 Hdt2.
  assert (valid b (document s)) as Hvb by by apply doc_body_valid.
  (* closing *)
  assert (∃ s1, step E_call_toggleMenu s = s1 ∧
            menu s1 = Some (Menu.mk (Menu.menuBtn sc) (Some mh) (Some mm)
                              false (Menu.scrollPos sc)) ∧
            globals s1 = globals s ∧ clock s1 = clock s ∧
            timers s1 = timers s ++ [mkTimer (clock s + 300) TC_hideMenu] ∧
            doc_body (document s1) = Some b ∧
            valid mm (document s1) ∧ valid mh (document s1) ∧
            valid b (document s1)) as (s1 & -> & Hs1 & Hg1 & Hk1 & Ht1 & Hb1 & Hvm1 & Hvh1 & Hvb1).
  { eexists. split; [reflexivity|]. unfold step. rewrite Hg.
    rewrite (toggle_eq s sc) by done. rewrite Hop.
    rewrite (closeMenu_eq s sc mm mh b) by done. cbn [settle].
    cbn [menu globals clock timers document]. unfold close_doc.
    split_and!; try done; try valid_tac.
    by rewrite !doc_body_assign_style, doc_body_remove_classes,
      doc_body_add_classes. }
  cbn zeta. split; [by eexists|].
  (* time passes, the timer stays *)
  destruct (elapse_timers dt1 s1) as (Ht2 & Hk2 & Hs2 & Hg2).
  set (s2 := step (E_elapse dt1) s1) in *.
  assert (doc_body (document s2) = Some b) as Hb2.
  { unfold s2. rewrite (elapse_preserves (λ s, doc_body (document s)));
      [done|done|done|done|apply run_timer_body]. }
  assert (valid mm (document s2) ∧ valid mh (document s2) ∧
          valid b (document s2)) as (Hvm2 & Hvh2 & Hvb2).
  { split_and!; apply (elapse_invariant (λ s, valid _ (document s)));
      try done; intros; apply run_timer_valid. }
  assert (mkTimer (clock s + 300) TC_hideMenu ∈ timers s2) as Hin2.
  { rewrite Ht2, Ht1. apply list_elem_of_filter. split; [simpl; lia|].
    set_solver. }
  (* reopening *)
  assert (∃ s3, step E_call_toggleMenu s2 = s3 ∧
            menu s3 = Some (Menu.mk (Menu.menuBtn sc) (Some mh) (Some mm)
                              true (pageYOffset (window s2))) ∧
            clock s3 = clock s2 ∧ timers s3 = timers s2 ∧
            document s3 = open_doc mm mh b (pageYOffset (window s2))
                            (document s2))
    as (s3 & -> & Hs3 & Hk3 & Ht3 & Hd3).
  { rewrite Hs1 in Hs2.
    eexists. split; [reflexivity|]. unfold step. rewrite Hg2, Hg1, Hg.
    rewrite (toggle_eq s2 _ Hs2). cbn [Menu.isOpen].
    rewrite (openMenu_eq s2 _ mm mh b Hs2 eq_refl eq_refl Hb2).
    cbn [settle]. done. }
  destruct (menu_shown_open_doc mm mh b (pageYOffset (window s2)) s3 _
              Hs3 eq_refl eq_refl (document s2) Hvm2 Hvh2 Hvb2 Hd3)
    as [Hshown3 Hflex3].
  split; [by rewrite Ht3|]. split; [done|]. split; [done|].
  (* the timer fires *)
  unfold step.
  set (now := clock s3 + Z.max 0 dt2).
  set (s3' := set_timers _ _).
  assert (menu_shown mm mh b s3') as Hshown3' by done.
  assert (valid mm (document s3')) as Hvm3.
  { unfold s3'. cbn [document set_timers set_clock]. rewrite Hd3.
    unfold open_doc. valid_tac. }
  cut ((menu_shown mm mh b (run_all run_timer
          (timer_callback <$>
             sort_timers (filter (λ t, due t ≤ now) (timers s3))) s3') ∧
        valid mm (document (run_all run_timer
          (timer_callback <$>
             sort_timers (filter (λ t, due t ≤ now) (timers s3))) s3'))) ∧
       style_at mm "display" (document (run_all run_timer
          (timer_callback <$>
             sort_timers (filter (λ t, due t ≤ now) (timers s3))) s3'))
         = "none").
  { tauto. }
  assert (∀ cb, invariant
            (λ s, menu_shown mm mh b s ∧ valid mm (document s))
            (run_timer cb)) as HP.
  { intros cb. apply invariant_and;
      [apply menu_shown_run_timer | apply run_timer_valid]. }
  assert (∀ s', menu_shown mm mh b s' ∧ valid mm (document s') →
            style_at mm "display"
              (document (final_state (run_timer TC_hideMenu s'))) = "none")
    as Hhide.
  { intros s' [Hsh Hv]. destruct Hsh as ((sc' & Hsc' & Hmm' & _) & _).
    cbn [run_timer]. rewrite (hideMenu_eq s' sc' mm Hsc' Hmm').
    cbn [final_state document set_document].
    by rewrite style_at_assign_eq. }
  apply (run_all_establish
    (λ s, menu_shown mm mh b s ∧ valid mm (document s))
    (λ s, style_at mm "display" (document s) = "none")
    run_timer _ TC_hideMenu).
  - intros ?? [? ?]. done.
  - done.
  - apply list_elem_of_fmap. exists (mkTimer (clock s + 300) TC_hideMenu).
    split; [done|]. apply elem_of_sort_timers, list_elem_of_filter.
    split; [|by rewrite Ht3]. unfold now. simpl. lia.
  - done.
  - intros cb s' [HPs Hd]. split; [by apply HP|].
    destruct (decide (cb = TC_hideMenu)) as [->|Hcb]; [by apply Hhide|].
    by rewrite (run_timer_display cb mm Hcb s').
  - done.
  - done.
Qed.

Lemma reopened_menu_hidden_by_stale_timer_witness :
  style_at [1; 1]%nat "display"
    (document
       (@step sample_double (E_elapse 250)
          (@step sample_double E_call_toggleMenu
             (@step sample_double (E_elapse 100)
                (@step sample_double E_call_toggleMenu opened_page)))))
    = "none".
Proof.
  assert (menu opened_page =
            Some (Menu.mk (Some [1; 0; 0; 0]%nat) (Some [1; 0]%nat)
                    (Some [1; 1]%nat) true 0)) as Hs
    by (vm_compute; reflexivity).
  assert (toggleMenu_defined (globals opened_page) = true) as Hg
    by (vm_compute; reflexivity).
  assert (doc_body (document opened_page) = Some [1]%nat) as Hb
    by (vm_compute; reflexivity).
  assert (valid [1; 1]%nat (document opened_page)) as Hvm
    by (vm_compute; eexists; reflexivity).
  assert (valid [1; 0]%nat (document opened_page)) as Hvh
    by (vm_compute; eexists; reflexivity).
  destruct (@reopened_menu_hidden_by_stale_timer sample_double opened_page _
              [1; 1]%nat [1; 0]%nat [1]%nat 100 250
              Hs eq_refl eq_refl eq_refl Hg Hb Hvm Hvh)
    as (_ & _ & _ & _ & _ & Hnone); [lia|lia|].
  exact Hnone.
Defined.

(** ** Accordion: one panel at a time *)

(** C1.  A call of [toggleAccordion] on an element whose content is [c]
    completes and leaves every other [.accordion-content] element with
    the inline height ["0px"], so that at most one content has an inline
    height other than ["0px"] after the call; in particular a panel that
    was open is closed by the call that toggles another one.  If the
    inline height of [c] was neither ["0px"] nor empty, the call sets it to
    ["0px"]; otherwise it sets it to the scroll height of [c] in
    pixels. *)
Theorem accordion_single_open (s : State) (element c : Handle) :
  elem_querySelector (ByClass "accordion-content") element (document s)
    = Some c →
  ∃ s', toggleAccordion (Some element) s = Normal () s' ∧
    contents (document s') = contents (document s) ∧
    (∀ a, a ∈ contents (document s') → a ≠ c →
          style_at a "height" (document s') = "0px") ∧
    (∀ a b, a ∈ contents (document s') → b ∈ contents (document s') →
            style_at a "height" (document s') ≠ "0px" →
            style_at b "height" (document s') ≠ "0px" → a = b) ∧
    (panel_open c (document s) →
       style_at c "height" (document s') = "0px") ∧
    (¬ panel_open c (document s) →
       style_at c "height" (document s')
         = pretty (scrollHeight_at c (document s)) +:+ "px").
Proof.
  intros Hq.
  assert (valid c (document s)) as Hvc.
  { apply elem_querySelector_sound in Hq as (d & Hd & _). by exists d. }
  set (l := contents (document s)).
  set (h0 := style_at c "height" (document s)).
  set (sh0 := scrollHeight_at c (document s)).
  cut (wp (toggleAccordion (Some element))
         (λ _ s', contents (document s') = l ∧
            (∀ a, a ∈ l → a ≠ c → style_at a "height" (document s') = "0px") ∧
            style_at c "height" (document s') =
              (if bool_decide (h0 = "0px") || bool_decide (h0 = "")
               then pretty sh0 +:+ "px" else "0px")) s).
  { intros Hwp. apply wp_elim in Hwp as ([] & s' & Heq & Hl & Hothers & Hc).
    exists s'. split; [done|]. split; [done|]. rewrite Hl. split_and!.
    - done.
    - intros a b Ha Hb Hna Hnb.
      destruct (decide (a = c)) as [->|Hac];
        [|by rewrite Hothers in Hna].
      destruct (decide (b = c)) as [->|Hbc]; [done|].
      by rewrite Hothers in Hnb.
    - intros [H1 H2]. rewrite Hc.
      rewrite (bool_decide_eq_false_2 _ H1), (bool_decide_eq_false_2 _ H2).
      done.
    - intros Hclosed. rewrite Hc.
      destruct (decide (h0 = "0px")) as [E|E];
        [by rewrite (bool_decide_eq_true_2 _ E)|].
      destruct (decide (h0 = "")) as [E'|E'];
        [rewrite (bool_decide_eq_true_2 _ E'); by rewrite orb_true_r|].
      destruct Hclosed. done. }
  unfold toggleAccordion.
  apply wp_bind. unfold querySelector. apply wp_deref, wp_gets. rewrite Hq.
  apply wp_bind. apply wp_deref, wp_gets.
  set (icon := elem_querySelector (ByClass "icon-toggle") element _).
  cbn [truthy negb].
  apply wp_bind, wp_gets. apply wp_bind, wp_gets. apply wp_bind, wp_gets.
  fold (contents (document s)). fold l.
  (* the other panels are closed *)
  apply wp_bind. eapply wp_mono; [|apply close_other_contents_spec].
  2: { intros a Ha. apply select_in_sound in Ha as (d & Hd & _).
       by exists d. }
  intros [] s1 (H0 & Hc1 & Hsh1 & Hct1 & Hv1).
  assert (others_closed c l h0 sh0 s1) as Hs1.
  { split_and!; try done. by apply Hv1. }
  clear H0 Hc1 Hsh1 Hct1 Hv1.
  (* icons and items are reset *)
  apply (wp_seq_invariant (others_closed c l h0 sh0));
    [apply others_closed_icons| |done|].
  { apply forEach_completes. intros x s'. by case_bool_decide. }
  intros [] s2 Hs2.
  apply (wp_seq_invariant (others_closed c l h0 sh0));
    [apply others_closed_items| |done|].
  { apply forEach_completes. intros x s'. by case_bool_decide. }
  intros [] s3 (Hothers & Hc3 & Hsh3 & Hct3 & Hv3).
  (* the panel is toggled *)
  apply wp_bind. unfold style_read. apply wp_deref, wp_gets.
  fold (style_at c "height" (document s3)). rewrite Hc3.
  destruct Hv3 as [d3 Hd3].
  destruct (bool_decide (h0 = "0px") || bool_decide (h0 = "")).
  - apply wp_bind. unfold read_scrollHeight. apply wp_deref, wp_gets.
    fold (scrollHeight_at c (document s3)). rewrite Hsh3.
    wp_auto. cbn [document set_document].
    destruct icon as [i|]; cbn [truthy]; wp_auto; cbn [document set_document].
    all: split_and!;
      [ by rewrite !contents_frame by class_side
      | intros a Ha Hac; rewrite ?style_at_frame by style_side;
        unfold style_at; rewrite elem_data_alter_ne by done;
        by apply Hothers
      | rewrite ?style_at_frame by style_side;
        unfold style_at; rewrite elem_data_alter_eq, Hd3;
        apply style_get_set_eq ].
  - wp_auto. cbn [document set_document].
    destruct icon as [i|]; cbn [truthy]; wp_auto; cbn [document set_document].
    all: split_and!;
      [ by rewrite !contents_frame by class_side
      | intros a Ha Hac; rewrite ?style_at_frame by style_side;
        unfold style_at; rewrite elem_data_alter_ne by done;
        by apply Hothers
      | rewrite ?style_at_frame by style_side;
        unfold style_at; rewrite elem_data_alter_eq, Hd3;
        apply style_get_set_eq ].
Qed.

Lemma accordion_single_open_witness :
  style_at [1; 2; 1]%nat "height" (document first_open_page) = "120px" ∧
  ∃ s', toggleAccordion (Some [1; 3]%nat) first_open_page = Normal () s' ∧
    style_at [1; 2; 1]%nat "height" (document s') = "0px" ∧
    style_at [1; 3; 1]%nat "height" (document s') = "80px".
Proof.
  split; [vm_compute; reflexivity|].
  assert (elem_querySelector (ByClass "accordion-content") [1; 3]%nat
            (document first_open_page) = Some [1; 3; 1]%nat) as Hq
    by (vm_compute; reflexivity).
  destruct (accordion_single_open first_open_page _ _ Hq)
    as (s' & Heq & Hct & Hothers & _ & _ & Hopen).
  exists s'. split; [exact Heq|]. split.
  - apply Hothers; [|done]. rewrite Hct.
    assert (contents (document first_open_page)
              = [[1; 2; 1]; [1; 3; 1]]%nat) as ->
      by (vm_compute; reflexivity).
    constructor.
  - rewrite Hopen.
    + vm_compute. reflexivity.
    + intros [H _]. apply H. vm_compute. reflexivity.
Defined.

(** ** Counters *)



(* ================================================================== *)
(** * Further properties of the script *)
(* ================================================================== *)

(** ** Start-up: GSAP that arrives late *)

(** X1.  The test for GSAP is made once, by the timer [initAll] sets.  If
    [gsap] or [ScrollTrigger] is not defined when that timer runs, the
    script logs its warning and asks nothing of GSAP, and nothing is asked
    later either, whatever events follow, the arrival of the library
    among them. *)
Theorem animations_never_retried `{Double} (s : State) (dt : Z) :
  reachable s → readyState s ≠ "loading" → library_defined s = false →
  (∀ t, t ∈ timers s → timer_callback t = TC_startAnimations →
        due t ≤ clock s + Z.max 0 dt) →
  let s' := step (E_elapse dt) s in
  gsapCalls s' = gsapCalls s ∧
  (TC_startAnimations ∈ timer_callback <$> timers s →
   skipped_warning ∈ console s') ∧
  ∀ es, gsapCalls (run es s') = gsapCalls s.
Proof.
  intros Hreach Hr Hlib Hdue s'.
  pose proof (reachable_page_inv s Hreach) as Hp.
  assert (library_missing (gsapCalls s) s') as [_ Hg].
  { subst s'. cbn [step]. apply invariant_run_all; [done| |done].
    intros cb _. apply missing_run_timer. }
  split; [done|]. split.
  - intros Hin. subst s'. cbn [step].
    apply (missing_warns (gsapCalls s)); [done|].
    apply list_elem_of_fmap in Hin as (t & Ht & Hin).
    apply list_elem_of_fmap. exists t. split; [done|].
    apply elem_of_sort_timers, list_elem_of_filter. split; [|done].
    by apply Hdue.
  - intros es.
    apply (closed_run (gsapCalls s) es s'); [by apply page_inv_step|].
    split; [split|]; [| |done].
    + pose proof (step_quiet (E_elapse dt) s I Hp) as Hq.
      apply (f_equal (λ o, o.1.1.2)) in Hq.
      change (readyState s' = readyState s) in Hq. by rewrite Hq.
    + intros t Hin Ht. subst s'.
      rewrite (proj1 (elapse_timers dt s)) in Hin.
      apply list_elem_of_filter in Hin as [Hnd Hin]. apply Hnd.
      by apply Hdue.
Qed.

Lemma animations_never_retried_witness :
  gsapCalls
    (@run sample_double [E_library_loaded; E_elapse 1000; E_scroll 200 200]
       (@step sample_double (E_elapse 100) (@load sample_double bare_page)))
    = [] ∧
  skipped_warning ∈
    console (@step sample_double (E_elapse 100) (@load sample_double bare_page)).
Proof.
  assert (@reachable sample_double (@load sample_double bare_page)) as Hre.
  { unfold bare_page. apply (@reachable_load sample_double). }
  destruct (@animations_never_retried sample_double
              (@load sample_double bare_page) 100 Hre)
    as (_ & Hw & Hes).
  - vm_compute. discriminate.
  - vm_compute. reflexivity.
  - intros t Hin Ht.
    assert (timers (@load sample_double bare_page)
            = [mkTimer 100 TC_startAnimations; mkTimer 300 TC_openFirst])
      as Hts by (vm_compute; reflexivity).
    rewrite Hts in Hin.
    apply elem_of_cons in Hin as [->|Hin]; [vm_compute; discriminate|].
    apply list_elem_of_singleton in Hin as ->. discriminate.
  - split; [apply Hes|]. apply Hw. vm_compute. constructor.
Defined.

(** ** Animations: what is asked of GSAP *)



(** ** Start-up: the test for GSAP *)

(** X3.  The function that [initAll] hands to its timer asks something of
    GSAP only when both [gsap] and [ScrollTrigger] are defined: then it
    registers the plugin before any other request and goes on with
    [initAnimations]; when either is missing it logs a warning and does
    nothing else. *)
Theorem startAnimations_outcome (s : State) :
  (library_defined s = false →
   startAnimations s =
     Normal () (warned "⚠️ GSAP not loaded, skipping animations" s)) ∧
  (library_defined s = true →
   ∃ s', startAnimations s = Normal () s' ∧
     gsapCalls s' =
       gsapCalls s ++
       G_registerPlugin ::
         animation_requests (document s) (length (counters s)) ∧
     document s' = document s ∧
     console s' =
       console s ++ [(LLog, "✅ GSAP loaded");
                     (LLog, "🎬 Initializing animations");
                     (LLog, "✅ Animations initialized")]).
Proof.
  unfold library_defined, startAnimations, gets, mbind, JS_bind.
  split; intros ->; [done|].
  unfold gsap_call, console_log, modify, mbind, JS_bind.
  rewrite initAnimations_eq. eexists. split; [reflexivity|].
  cbn [animated gsapCalls document console counters set_console
       set_gsapCalls].
  by rewrite <-!app_assoc.
Qed.

Lemma startAnimations_outcome_witness :
  ∃ s', startAnimations sample_page = Normal () s' ∧
    head (gsapCalls s') = Some G_registerPlugin.
Proof.
  destruct (startAnimations_outcome sample_page) as [_ Hok].
  destruct Hok as (s' & Heq & Hg & _); [vm_compute; reflexivity|].
  exists s'. split; [exact Heq|]. rewrite Hg. reflexivity.
Defined.

(** ** Mobile menu: closing what is not open *)

(** X4.  The listeners of the in-menu links and of the close button call
    [closeMenu] without looking at [isOpen].  Whether the menu is open or
    not, they leave the panel with the closed classes, the header visible
    and the body unlocked, set the timer that hides the panel, and scroll
    the window to the offset saved by the last [openMenu], which is [0]
    when the menu has never been opened. *)
Theorem close_listeners_not_guarded `{Double} (l : Listener) (s : State)
    (sc : Menu.Scope) (mm mh b : Handle) :
  closes_menu l → menu s = Some sc → Menu.mobileMenu sc = Some mm →
  Menu.mainHeader sc = Some mh → doc_body (document s) = Some b →
  valid mm (document s) → valid mh (document s) →
  ∃ s', run_listener l s = Normal () s' ∧
    menu_closed mm mh b s' ∧
    pageXOffset (window s') = 0 ∧
    pageYOffset (window s') = Menu.scrollPos sc ∧
    timers s' = timers s ++ [mkTimer (clock s + 300) TC_hideMenu].
Proof.
  intros Hl Hs Hmm Hmh Hb Hvm Hvh.
  assert (valid b (document s)) as Hvb by by apply doc_body_valid.
  destruct (closing_listener_eq l s sc mm mh b) as [m ->]; [done..|].
  rewrite (closeMenu_eq (logged m s) sc mm mh b) by done.
  eexists. split; [reflexivity|].
  cbn [window timers clock pageXOffset pageYOffset logged set_console].
  split_and!; try done.
  eapply (menu_closed_close_doc mm mh b _
            (Menu.mk (Menu.menuBtn sc) (Some mh) (Some mm) false
               (Menu.scrollPos sc)));
    [reflexivity|reflexivity|reflexivity| | | |reflexivity]; done.
Qed.

Lemma close_listeners_not_guarded_witness :
  pageYOffset (window scrolled_page) = 120 ∧
  ∃ s', @run_listener sample_double L_menuLinkClick scrolled_page
          = Normal () s' ∧
        pageYOffset (window s') = 0.
Proof.
  split; [reflexivity|].
  assert (menu scrolled_page =
          Some (Menu.mk (Some [1; 0; 0; 0]%nat) (Some [1; 0]%nat)
                  (Some [1; 1]%nat) false 0)) as Hs
    by (vm_compute; reflexivity).
  destruct (@close_listeners_not_guarded sample_double L_menuLinkClick
              scrolled_page _ [1; 1]%nat [1; 0]%nat [1]%nat
              (or_introl eq_refl) Hs eq_refl eq_refl)
    as (s' & Heq & _ & _ & Hy & _).
  - vm_compute. reflexivity.
  - vm_compute. by eexists.
  - vm_compute. by eexists.
  - exists s'. split; [exact Heq|exact Hy].
Defined.

(** ** Mobile menu: the toggle *)

(** X5.  [toggle] opens a closed menu and closes an open one.  Opening
    shows the panel ([display: flex], open class), hides the header,
    fixes the body, saves the current offset and leaves the window and
    the timers alone.  Closing puts the closed classes back, shows the
    header, unlocks the body, keeps the [display] of the panel for the
    time being, sets the timer that hides it and scrolls to the saved
    offset.  A second call undoes the first as far as [isOpen] goes. *)
Theorem toggle_alternates (s : State) (sc : Menu.Scope) (mm mh b : Handle) :
  menu s = Some sc → Menu.mobileMenu sc = Some mm →
  Menu.mainHeader sc = Some mh → doc_body (document s) = Some b →
  valid mm (document s) → valid mh (document s) →
  ∃ s' sc' s'' sc'',
    toggle s = Normal () s' ∧ menu s' = Some sc' ∧
    Menu.isOpen sc' = negb (Menu.isOpen sc) ∧
    (Menu.isOpen sc = false →
       menu_shown mm mh b s' ∧
       style_at mm "display" (document s') = "flex" ∧
       Menu.scrollPos sc' = pageYOffset (window s) ∧
       window s' = window s ∧ timers s' = timers s) ∧
    (Menu.isOpen sc = true →
       menu_closed mm mh b s' ∧
       style_at mm "display" (document s') =
         style_at mm "display" (document s) ∧
       pageYOffset (window s') = Menu.scrollPos sc ∧
       timers s' = timers s ++ [mkTimer (clock s + 300) TC_hideMenu]) ∧
    toggle s' = Normal () s'' ∧ menu s'' = Some sc'' ∧
    Menu.isOpen sc'' = Menu.isOpen sc.
Proof.
  intros Hs Hmm Hmh Hb Hvm Hvh.
  assert (valid b (document s)) as Hvb by by apply doc_body_valid.
  rewrite (toggle_eq s sc Hs).
  destruct (Menu.isOpen sc) eqn:Hop.
  - rewrite (closeMenu_eq s sc mm mh b) by done.
    set (s' := mkState _ _ _ _ _ _ _ _ _ _ _ _ _).
    assert (menu s' = Some (Menu.mk (Menu.menuBtn sc) (Some mh) (Some mm) false
                              (Menu.scrollPos sc))) as Hs' by done.
    assert (doc_body (document s') = Some b) as Hb'
      by (unfold s'; cbn [document]; by rewrite doc_body_close_doc).
    exists s'. eexists. eexists. eexists.
    split; [reflexivity|]. split; [exact Hs'|]. split; [done|].
    split; [done|]. split.
    { intros _. split_and!; try done.
      - by apply (menu_closed_close_doc mm mh b s' _ Hs' eq_refl eq_refl
                    (document s)).
      - unfold s'. cbn [document].
        by destruct (style_at_close_doc mm mh b (document s) Hvh Hvb)
          as (_ & _ & _ & ->). }
    rewrite (toggle_eq s' _ Hs'). cbn [Menu.isOpen].
    rewrite (openMenu_eq s' _ mm mh b Hs' eq_refl eq_refl Hb').
    split; [reflexivity|]. cbn [menu]. split; [reflexivity|done].
  - rewrite (openMenu_eq s sc mm mh b) by done.
    set (s' := mkState _ _ _ _ _ _ _ _ _ _ _ _ _).
    assert (menu s' = Some (Menu.mk (Menu.menuBtn sc) (Some mh) (Some mm) true
                              (pageYOffset (window s)))) as Hs' by done.
    assert (doc_body (document s') = Some b) as Hb'
      by (unfold s'; cbn [document]; by rewrite doc_body_open_doc).
    exists s'. eexists. eexists. eexists.
    split; [reflexivity|]. split; [exact Hs'|]. split; [done|]. split.
    { intros _.
      destruct (menu_shown_open_doc mm mh b (pageYOffset (window s)) s' _
                  Hs' eq_refl eq_refl (document s) Hvm Hvh Hvb eq_refl)
        as [? ?].
      done. }
    split; [done|].
    rewrite (toggle_eq s' _ Hs'). cbn [Menu.isOpen].
    rewrite (closeMenu_eq s' _ mm mh b Hs' eq_refl eq_refl Hb').
    split; [reflexivity|]. cbn [menu]. split; [reflexivity|done].
Qed.

Lemma toggle_alternates_witness :
  ∃ s' s'' sc'',
    toggle loaded_page = Normal () s' ∧
    style_at [1; 1]%nat "display" (document s') = "flex" ∧
    toggle s' = Normal () s'' ∧
    menu s'' = Some sc'' ∧ Menu.isOpen sc'' = false.
Proof.
  assert (menu loaded_page =
          Some (Menu.mk (Some [1; 0; 0; 0]%nat) (Some [1; 0]%nat)
                  (Some [1; 1]%nat) false 0)) as Hs
    by (vm_compute; reflexivity).
  destruct (toggle_alternates loaded_page _ [1; 1]%nat [1; 0]%nat [1]%nat
              Hs eq_refl eq_refl)
    as (s' & sc' & s'' & sc'' & Heq & _ & _ & Hopen & _ & Heq' & Hs'' & Hop'').
  - vm_compute. reflexivity.
  - vm_compute. by eexists.
  - vm_compute. by eexists.
  - exists s', s'', sc''. destruct (Hopen eq_refl) as (_ & Hflex & _).
    split; [exact Heq|]. split; [exact Hflex|]. split; [exact Heq'|].
    split; [exact Hs''|exact Hop''].
Defined.

(** ** Mobile menu: the fade-out *)

(** X6.  When an open menu is closed and no older hiding timer is
    pending, the panel keeps its [display] for 300 ms, with the hiding
    timer pending, and has [display: none] once 300 ms have passed, with
    no hiding timer left. *)
Theorem panel_hidden_after_fade `{Double} (s : State) (sc : Menu.Scope)
    (mm mh b : Handle) (dt : Z) :
  menu s = Some sc → Menu.mobileMenu sc = Some mm →
  Menu.mainHeader sc = Some mh → Menu.isOpen sc = true →
  toggleMenu_defined (globals s) = true →
  doc_body (document s) = Some b →
  valid mm (document s) → valid mh (document s) →
  (∀ t, t ∈ timers s → timer_callback t ≠ TC_hideMenu) →
  let s1 := step E_call_toggleMenu s in
  let s2 := step (E_elapse dt) s1 in
  (dt < 300 →
     style_at mm "display" (document s2) = style_at mm "display" (document s) ∧
     mkTimer (clock s + 300) TC_hideMenu ∈ timers s2) ∧
  (300 ≤ dt →
     style_at mm "display" (document s2) = "none" ∧
     ∀ t, t ∈ timers s2 → timer_callback t ≠ TC_hideMenu).
Proof.
  intros Hs Hmm Hmh Hop Hg Hb Hvm Hvh Hold.
  assert (valid b (document s)) as Hvb by by apply doc_body_valid.
  assert (∃ s1, step E_call_toggleMenu s = s1 ∧
            menu s1 = Some (Menu.mk (Menu.menuBtn sc) (Some mh) (Some mm)
                              false (Menu.scrollPos sc)) ∧
            clock s1 = clock s ∧
            timers s1 = timers s ++ [mkTimer (clock s + 300) TC_hideMenu] ∧
            document s1 = close_doc mm mh b (document s))
    as (s1 & -> & Hs1 & Hk1 & Ht1 & Hd1).
  { eexists. split; [reflexivity|]. unfold step. rewrite Hg.
    rewrite (toggle_eq s sc) by done. rewrite Hop.
    rewrite (closeMenu_eq s sc mm mh b) by done. done. }
  cbn zeta.
  destruct (elapse_timers dt s1) as (Ht2 & _).
  rewrite Ht2, Ht1, Hk1.
  assert (style_at mm "display" (document s1) =
          style_at mm "display" (document s)) as Hdisp.
  { rewrite Hd1.
    by destruct (style_at_close_doc mm mh b (document s) Hvh Hvb)
      as (_ & _ & _ & ->). }
  split.
  - intros Hdt. split.
    + rewrite <-Hdisp. unfold step.
      rewrite (preserves_run_all (λ s, style_at mm "display" (document s)));
        [done|done|].
      intros cb Hcb. apply run_timer_display. intros ->.
      apply list_elem_of_fmap in Hcb as (t & Hcb & Hin).
      apply elem_of_sort_timers, list_elem_of_filter in Hin as [Hdue Hin].
      rewrite Ht1 in Hin. apply elem_of_app in Hin as [Hin|Hin].
      * by apply (Hold t).
      * apply list_elem_of_singleton in Hin as ->. simpl in Hdue. lia.
    + apply list_elem_of_filter. split; [simpl; lia|]. set_solver.
  - intros Hdt. split.
    + unfold step.
      set (s1' := set_timers _ _).
      assert (panel_is mm s1') as Hp.
      { split; [by eexists|]. unfold s1'. cbn [document set_timers set_clock].
        rewrite Hd1. by apply valid_close_doc. }
      apply (run_all_establish (panel_is mm)
               (λ s, style_at mm "display" (document s) = "none")
               run_timer _ TC_hideMenu); try done.
      * apply list_elem_of_fmap.
        exists (mkTimer (clock s + 300) TC_hideMenu).
        split; [done|]. apply elem_of_sort_timers, list_elem_of_filter.
        split; [simpl; lia|]. rewrite Ht1. set_solver.
      * apply panel_is_run_timer.
      * intros cb s' [HPs Hd]. split; [by apply panel_is_run_timer|].
        destruct (decide (cb = TC_hideMenu)) as [->|Hcb];
          [by apply hideMenu_hides|].
        by rewrite (run_timer_display cb mm Hcb s').
      * apply hideMenu_hides.
    + intros t Hin. apply list_elem_of_filter in Hin as [Hdue Hin].
      apply elem_of_app in Hin as [Hin|Hin]; [by apply Hold|].
      apply list_elem_of_singleton in Hin as ->. simpl in Hdue. lia.
Qed.

Lemma panel_hidden_after_fade_witness :
  style_at [1; 1]%nat "display"
    (document (@step sample_double (E_elapse 299)
                 (@step sample_double E_call_toggleMenu opened_page)))
    = "flex" ∧
  style_at [1; 1]%nat "display"
    (document (@step sample_double (E_elapse 300)
                 (@step sample_double E_call_toggleMenu opened_page)))
    = "none".
Proof.
  assert (menu opened_page =
          Some (Menu.mk (Some [1; 0; 0; 0]%nat) (Some [1; 0]%nat)
                  (Some [1; 1]%nat) true 0)) as Hs
    by (vm_compute; reflexivity).
  assert (toggleMenu_defined (globals opened_page) = true) as Hg
    by (vm_compute; reflexivity).
  assert (doc_body (document opened_page) = Some [1]%nat) as Hb
    by (vm_compute; reflexivity).
  assert (valid [1; 1]%nat (document opened_page)) as Hvm
    by (vm_compute; by eexists).
  assert (valid [1; 0]%nat (document opened_page)) as Hvh
    by (vm_compute; by eexists).
  assert (∀ t, t ∈ timers opened_page → timer_callback t ≠ TC_hideMenu)
    as Hold.
  { assert (timers opened_page
            = [mkTimer 100 TC_startAnimations; mkTimer 300 TC_openFirst])
      as -> by (vm_compute; reflexivity).
    intros t Hin.
    apply elem_of_cons in Hin as [->|Hin]; [discriminate|].
    apply list_elem_of_singleton in Hin as ->. discriminate. }
  split.
  - destruct (@panel_hidden_after_fade sample_double opened_page _
                [1; 1]%nat [1; 0]%nat [1]%nat 299
                Hs eq_refl eq_refl eq_refl Hg Hb Hvm Hvh Hold)
      as [Hbefore _].
    destruct Hbefore as [-> _]; [lia|]. vm_compute. reflexivity.
  - destruct (@panel_hidden_after_fade sample_double opened_page _
                [1; 1]%nat [1; 0]%nat [1]%nat 300
                Hs eq_refl eq_refl eq_refl Hg Hb Hvm Hvh Hold)
      as [_ Hafter].
    destruct Hafter as [Hnone _]; [lia|]. exact Hnone.
Defined.

(** ** Mobile menu: the listeners *)

(** X7.  On a page with the three menu elements, [initMobileMenu] changes
    nothing in the document, starts with the menu closed and the saved
    offset [0], publishes [toggleMenu], and adds exactly these click
    listeners: the toggling one on the button; the closing one on every
    [a] element below the panel whose [href] starts with [#], and on no
    other link; the closing one on the first [button] below the panel,
    unless that is the menu button itself. *)
Theorem initMobileMenu_listeners (s : State) (btn mh mm : Handle) :
  doc_querySelector (ById "menu-btn") (document s) = Some btn →
  doc_querySelector (ById "main-header") (document s) = Some mh →
  doc_querySelector (ById "mobile-menu") (document s) = Some mm →
  ∃ s', initMobileMenu s = Normal () s' ∧
    document s' = document s ∧
    menu s' = Some (Menu.mk (Some btn) (Some mh) (Some mm) false 0) ∧
    toggleMenu_defined (globals s') = true ∧
    (∀ r, r ∈ listeners s' ↔
          r ∈ listeners s ∨ menu_registration btn mm (document s) r) ∧
    (∀ h, mkReg (T_element h) "click" L_menuLinkClick ∈ listeners s' →
          mkReg (T_element h) "click" L_menuLinkClick ∈ listeners s ∨
          ∃ p d v, h = mm ++ p ∧ p ≠ [] ∧
            elem_data h (document s) = Some d ∧ tagName d = "a" ∧
            attributes d !! "href" = Some v ∧ String.prefix "#" v = true) ∧
    (mkReg (T_element btn) "click" L_closeBtnClick ∈ listeners s' →
     mkReg (T_element btn) "click" L_closeBtnClick ∈ listeners s).
Proof.
  intros Hbtn Hmh Hmm.
  pose proof (initMobileMenu_registers s btn mh mm Hbtn Hmh Hmm) as Hwp.
  apply wp_elim in Hwp as ([] & s' & Heq & Hd & Hm & Hg & Hl).
  exists s'. split_and!; try done.
  - intros h [Hin|Hreg]%Hl; [by left|]. right.
    destruct Hreg as [?|[(a & Ha & ?)|(cb & _ & _ & ?)]]; [done| |done].
    simplify_eq.
    destruct (elem_querySelectorAll_below _ _ _ _ Ha) as (p & -> & Hp).
    apply elem_querySelectorAll_sound in Ha as (d & Hd' & Hmatch).
    apply matches_ByTagAttrPrefix in Hmatch as (Ht & v & Hv & Hpre).
    by exists p, d, v.
  - intros [Hin|Hreg]%Hl; [done|].
    destruct Hreg as [?|[(a & _ & ?)|(cb & _ & Hne & ?)]]; [done|done|].
    by simplify_eq.
Qed.

Lemma initMobileMenu_listeners_witness :
  ∃ s', initMobileMenu sample_page = Normal () s' ∧
    mkReg (T_element [1; 1; 1]%nat) "click" L_menuLinkClick ∈ listeners s' ∧
    mkReg (T_element [1; 1; 0]%nat) "click" L_closeBtnClick ∈ listeners s'.
Proof.
  destruct (initMobileMenu_listeners sample_page
              [1; 0; 0; 0]%nat [1; 0]%nat [1; 1]%nat)
    as (s' & Heq & _ & _ & _ & Hl & _).
  - vm_compute. reflexivity.
  - vm_compute. reflexivity.
  - vm_compute. reflexivity.
  - exists s'. split; [exact Heq|]. split; apply Hl; right.
    + right. left. exists [1; 1; 1]%nat. split; [|reflexivity].
      vm_compute. constructor.
    + right. right. exists [1; 1; 0]%nat.
      split; [vm_compute; reflexivity|]. split; [discriminate|reflexivity].
Defined.

(** ** Counters: the text replaces what the element held *)

(** X8.  A tick of a counter assigns [textContent]: the element keeps its
    attributes, classes and style and gets the rounded value as its text,
    every element that was inside it is gone from the document, and no
    element outside it changes. *)
Theorem counter_tick_replaces_children (s : State) (i : nat)
    (sc : CounterScope) (v : Num Q) :
  counters s !! i = Some sc → valid (counter sc) (document s) →
  ∃ s', counter_tick i v s = Normal () s' ∧
    elem_data (counter sc) (document s') =
      with_text (num_to_string (Math_round v)) <$>
        elem_data (counter sc) (document s) ∧
    (∀ p, p ≠ [] → ¬ valid (counter sc ++ p) (document s')) ∧
    (∀ q, ¬ counter sc `prefix_of` q →
          elem_data q (document s') = elem_data q (document s)).
Proof.
  intros Hi Hv. rewrite (counter_tick_eq i v sc s Hi).
  eexists. split; [reflexivity|]. cbn [document set_document set_counters].
  split_and!.
  - apply elem_data_assign_text.
  - intros p Hp [d Hd]. unfold elem_data in Hd.
    by rewrite node_lookup_assign_text_below in Hd.
  - intros q Hq. by apply elem_data_node_alter_other.
Qed.

Lemma counter_tick_replaces_children_witness :
  valid [0; 0; 0]%nat (document badge_page) ∧
  ∃ s', counter_tick 0 (Some 7%Q) badge_page = Normal () s' ∧
    ¬ valid [0; 0; 0]%nat (document s') ∧
    elem_data [0; 1]%nat (document s') = elem_data [0; 1]%nat (document badge_page).
Proof.
  split; [vm_compute; by eexists|].
  assert (counters badge_page !! 0%nat =
          Some (mkCounter [0; 0]%nat (Some 12) (Some 0%Q))) as Hi
    by (vm_compute; reflexivity).
  destruct (counter_tick_replaces_children badge_page 0 _ (Some 7%Q) Hi)
    as (s' & Heq & _ & Hgone & Hother).
  - vm_compute. by eexists.
  - exists s'. split; [exact Heq|]. split.
    + apply (Hgone [0%nat]). discriminate.
    + apply Hother. cbn [counter]. intros [k Hk]. discriminate.
Defined.

(** ** Viewport: what a resize leaves alone *)

(** X9.  All that a resize or an orientation change of a started page
    does to the document is to set [--vh] on the root: every other
    element, every other style property and every class stays as it was,
    and so do the listeners, timers, frame callbacks, scopes and requests
    of the script and the scroll offsets of the window. *)
Theorem resize_changes_only_vh `{Double} (s : State) (h : Z) (e : Event) :
  reachable s → e = E_resize h ∨ e = E_orientationchange h →
  let s' := step e s in
  (∀ q, q ≠ [] → elem_data q (document s') = elem_data q (document s)) ∧
  (∀ q p, p ≠ "--vh" →
          style_at q p (document s') = style_at q p (document s)) ∧
  (∀ q c, has_class q c (document s') = has_class q c (document s)) ∧
  obs_script s' = obs_script s ∧
  window s' = mkWindow (pageXOffset (window s)) (pageYOffset (window s))
                (scrollTop (window s)) h.
Proof.
  intros Hr He.
  pose proof (reachable_page_inv s Hr) as Hp.
  set (s0 := set_window (λ w, mkWindow (pageXOffset w) (pageYOffset w)
                                (scrollTop w) h) s).
  assert (page_inv s0) as Hp0 by by apply (page_inv_obs s).
  assert (∃ ty, (ty = "resize" ∨ ty = "orientationchange") ∧
                step e s = bubble ty [T_window] s0) as (ty & Hty & ->).
  { destruct He as [-> | ->]; eexists; (split; [|reflexivity]); auto. }
  cbn zeta. split_and!.
  - intros q Hq.
    rewrite (resize_bubble (λ s, elem_data q (document s)) ty s0);
      [done|done|done|by apply setVH_elements|done].
  - intros q p Hq.
    rewrite (resize_bubble (λ s, style_at q p (document s)) ty s0);
      [done|done|done|by apply setVH_style|done].
  - intros q c.
    rewrite (resize_bubble (λ s, has_class q c (document s)) ty s0);
      [done|done|done|by apply setVH_class|done].
  - rewrite (resize_bubble obs_script ty s0);
      [done|done|done|apply setVH_script|done].
  - rewrite (resize_bubble window ty s0);
      [done|done|done|apply setVH_window|done].
Qed.

Lemma resize_changes_only_vh_witness :
  elem_data [1; 0; 0]%nat
    (document (@step sample_double (E_resize 600) scrolled_page)) =
  elem_data [1; 0; 0]%nat (document scrolled_page).
Proof.
  assert (@reachable sample_double scrolled_page) as Hr.
  { unfold scrolled_page, loaded_page, sample_page.
    apply reachable_step. apply reachable_load. }
  destruct (@resize_changes_only_vh sample_double scrolled_page 600
              (E_resize 600) Hr (or_introl eq_refl)) as (Hel & _).
  apply Hel. discriminate.
Defined.

(** ** Navigation: from the scroll event to the classes *)

(** X10.  On a started page whose navbar classes agree with [isScrolled],
    a scroll event changes nothing in the document: it only asks for an
    animation frame.  When that frame comes, the navbar carries the pill
    classes and none of the expanded ones if the new offset is above 50,
    and the reverse otherwise; the offset is [pageYOffset], or
    [scrollTop] when [pageYOffset] is [0]. *)
Theorem navbar_follows_scroll_events `{Double} (s : State) (nb : Handle)
    (y top : Z) :
  reachable s → nav_in_sync nb s →
  let s1 := step (E_scroll y top) s in
  let s2 := step E_frame s1 in
  document s1 = document s ∧ frames s1 = [FC_updateNav] ∧
  nav_in_sync nb s2 ∧ frames s2 = [] ∧
  ∃ cl, classes_of nb s2 = Some cl ∧
    (50 < num_or y top → pill_mode cl) ∧
    (num_or y top ≤ 50 → expanded_mode cl).
Proof.
  intros Hr Hsync.
  pose proof (reachable_page_inv s Hr) as Hp.
  destruct (scroll_defers y top s Hp) as (Hd1 & Hm1 & Hw1).
  assert (is_Some (nav s)) as Hnav.
  { destruct Hsync as (sc & _ & -> & _). by eexists. }
  destruct (step_scroll_schedules y top s Hp Hnav) as [Hf1 Ht1].
  set (s1 := step (E_scroll y top) s) in *.
  assert (page_inv s1) as Hp1 by by apply page_inv_step.
  destruct (step_frame_ticking s1 Hp1 Ht1) as [_ Hf2].
  cbn zeta. split; [done|]. split; [done|].
  cut (nav_in_sync nb (step E_frame s1) ∧
       ∃ sc, nav (step E_frame s1) = Some sc ∧
             Nav.isScrolled sc = (50 <? num_or y top)).
  { intros [Hsync2 (sc2 & Hsc2 & Hscr)]. split; [done|]. split; [done|].
    destruct Hsync2 as (sc & cl & Hsc & _ & Hcl & Hmode).
    exists cl. split; [done|]. simplify_eq. rewrite Hscr in Hmode.
    split; intros Hy.
    - by rewrite (proj2 (Z.ltb_lt _ _) Hy) in Hmode.
    - by rewrite (proj2 (Z.ltb_ge _ _) Hy) in Hmode. }
  cbn [step]. rewrite Hf1.
  set (s1' := set_frames (λ _, []) s1).
  assert (nav_in_sync nb s1') as Hsync1
    by by apply (nav_in_sync_obs nb s).
  destruct (scroll_update_in_sync nb (window s1') s1' Hsync1)
    as (Hsync2 & _ & Hscr & _).
  unfold scroll_update in *. rewrite set_window_id in *.
  destruct Hsync1 as (sc1 & cl1 & Hsc1 & Hnb1 & _).
  destruct (updateNav_sched s1' sc1 nb Hsc1 Hnb1) as (s2 & Heq & _).
  rewrite Heq in *. cbn [run_all foldl run_frame settle final_state] in *.
  rewrite Heq. cbn [settle]. split; [done|].
  destruct Hscr as (sc2 & Hsc2 & Hscr). exists sc2. split; [done|].
  rewrite Hscr. unfold s1'. cbn [window set_frames]. by rewrite Hw1.
Qed.

Lemma navbar_follows_scroll_events_witness :
  ∃ cl,
    classes_of [1; 0; 0]%nat
      (@step sample_double E_frame
         (@step sample_double (E_scroll 120 120) loaded_page)) = Some cl ∧
    pill_mode cl.
Proof.
  assert (@reachable sample_double loaded_page) as Hr.
  { unfold loaded_page, sample_page. apply reachable_load. }
  assert (nav_in_sync [1; 0; 0]%nat loaded_page) as Hsync.
  { exists (Nav.mk (Some [1; 0; 0]%nat) (Some [1; 0]%nat) false false),
      ["fixed"; "max-w-[92%]"; "md:max-w-7xl"; "bg-transparent"].
    split; [vm_compute; reflexivity|]. split; [reflexivity|].
    split; [vm_compute; reflexivity|].
    split; [apply carries_Forall | apply lacks_Forall]; compute_done. }
  destruct (@navbar_follows_scroll_events sample_double loaded_page
              [1; 0; 0]%nat 120 120 Hr Hsync)
    as (_ & _ & _ & _ & cl & Hcl & Hpill & _).
  exists cl. split; [exact Hcl|]. apply Hpill. vm_compute. reflexivity.
Defined.

(** ** Accordion: the marks of the open panel *)

(** X11.  After [toggleAccordion] on an element [e] with content [c],
    every other [.accordion-item] is without the border and shadow
    classes, and every [.icon-toggle] other than the icon of [e] is
    without the rotation and colour classes and has its [icon] attribute
    set to [solar:add-linear].  The element [e] and its icon carry their
    classes exactly when the call opened the panel.  The [icon] attribute
    of the icon of [e] is left as it was, also when the panel opens. *)
Theorem accordion_marks_current (s : State) (e c : Handle) :
  elem_querySelector (ByClass "accordion-content") e (document s) = Some c →
  let icon := elem_querySelector (ByClass "icon-toggle") e (document s) in
  ∃ s', toggleAccordion (Some e) s = Normal () s' ∧
    (∀ x, x ∈ items (document s) → x ≠ e →
          unmarked x item_tokens (document s')) ∧
    (∀ x, x ∈ icons (document s) → icon ≠ Some x →
          unmarked x icon_tokens (document s') ∧
          attribute_at x "icon" (document s') = Some "solar:add-linear") ∧
    (¬ panel_open c (document s) →
       marked e item_tokens (document s') ∧
       ∀ i, icon = Some i → marked i icon_tokens (document s')) ∧
    (panel_open c (document s) →
       unmarked e item_tokens (document s') ∧
       ∀ i, icon = Some i → unmarked i icon_tokens (document s')) ∧
    (∀ i, icon = Some i →
          attribute_at i "icon" (document s') =
          attribute_at i "icon" (document s)).
Proof.
  intros Hq icon.
  assert (valid e (document s)) as Hve.
  { unfold elem_querySelector, elem_querySelectorAll in Hq. unfold valid,
      elem_data. by destruct (node_lookup e (document s)). }
  assert (∀ i, icon = Some i → valid i (document s)) as Hvi.
  { intros i Hi. apply elem_querySelector_sound in Hi as (d & Hd & _).
    by exists d. }
  rewrite (toggleAccordion_parts e c s Hq). fold icon.
  set (closing := close_others (Some e) (Some c) icon (contents (document s))
                    (icons (document s)) (items (document s))).
  pose proof (close_others_completes (Some e) (Some c) icon
                (contents (document s)) (icons (document s))
                (items (document s)) s) as Hc1.
  fold closing in Hc1. unfold mbind, JS_bind.
  destruct (closing s) as [[] s1|] eqn:Hs1; [|done].
  assert (s1 = final_state (closing s)) as Hfin by by rewrite Hs1.
  pose proof (toggle_current_completes e c icon s1) as Hc2.
  destruct (toggle_current (Some e) (Some c) icon s1) as [[] s2|] eqn:Hs2;
    [|done].
  assert (s2 = final_state (toggle_current (Some e) (Some c) icon s1)) as Hfin2
    by by rewrite Hs2.
  exists s2. split; [done|].
  assert (valid e (document s1)) as Hve1.
  { rewrite Hfin. by apply close_others_valid. }
  assert (∀ i, icon = Some i → valid i (document s1)) as Hvi1.
  { intros i Hi. rewrite Hfin. apply close_others_valid. by apply Hvi. }
  assert (panel_open c (document s1) ↔ panel_open c (document s)) as Hopen.
  { pose proof (close_others_height (Some e) icon c (contents (document s))
                  (icons (document s)) (items (document s)) s) as Hh.
    cbn beta in Hh. fold closing in Hh. rewrite <-Hfin in Hh.
    unfold panel_open. by rewrite Hh. }
  destruct (toggle_current_marks e c icon s1 Hve1 Hvi1) as [Hm Hu].
  rewrite <-Hfin2 in Hm, Hu.
  split_and!.
  - intros x Hx Hne t Ht. rewrite Hfin2.
    rewrite (toggle_current_item_class e c x icon t Ht Hne s1).
    rewrite Hfin. apply close_others_items; [done|congruence|done|].
    apply select_in_sound in Hx as (d & Hd & _). by exists d.
  - intros x Hx Hne.
    assert (valid x (document s)) as Hvx.
    { apply select_in_sound in Hx as (d & Hd & _). by exists d. }
    destruct (close_others_icons (Some e) (Some c) icon
                (contents (document s)) (icons (document s))
                (items (document s)) x s Hx Hne Hvx) as [Hun Hat].
    fold closing in Hun, Hat. rewrite <-Hfin in Hun, Hat. split.
    + intros t Ht. rewrite Hfin2.
      rewrite (toggle_current_icon_class e c x icon t Ht Hne s1).
      by apply Hun.
    + rewrite Hfin2.
      by rewrite (toggle_current_attribute e c x icon "icon" s1).
  - intros Hn. apply Hm. by rewrite Hopen.
  - intros Ho. apply Hu. by rewrite Hopen.
  - intros i Hi. rewrite Hfin2.
    rewrite (toggle_current_attribute e c i icon "icon" s1).
    rewrite Hfin. unfold closing. rewrite Hi.
    apply (close_others_own_icon (Some e) (Some c) i).
Qed.

Lemma accordion_marks_current_witness :
  has_class [1; 2]%nat "border-blue-500" (document first_open_page)
    = Some true ∧
  ∃ s', toggleAccordion (Some [1; 3]%nat) first_open_page = Normal () s' ∧
    has_class [1; 2]%nat "border-blue-500" (document s') = Some false ∧
    has_class [1; 3]%nat "border-blue-500" (document s') = Some true ∧
    has_class [1; 3; 0]%nat "rotate-45" (document s') = Some true.
Proof.
  split; [vm_compute; reflexivity|].
  assert (elem_querySelector (ByClass "accordion-content") [1; 3]%nat
            (document first_open_page) = Some [1; 3; 1]%nat) as Hq
    by (vm_compute; reflexivity).
  destruct (accordion_marks_current first_open_page _ _ Hq)
    as (s' & Heq & Hitems & _ & Hopened & _).
  exists s'. split; [exact Heq|].
  destruct Hopened as [He Hi].
  { intros [H _]. apply H. vm_compute. reflexivity. }
  split_and!.
  - apply (Hitems [1; 2]%nat);
      [vm_compute; constructor|discriminate|unfold item_tokens; constructor].
  - apply He. unfold item_tokens. constructor.
  - apply (Hi [1; 3; 0]%nat); [vm_compute; reflexivity|].
    unfold icon_tokens. constructor.
Defined.

(** ** Accordion: the timer that opens the first panel *)

(** X12.  When, among the timers that come due, exactly one is the one
    set by [initAccordion], the first [.accordion-item] of the document
    is toggled, whatever other timers run before or after it: every
    content but its own gets the height [0px]; its own content gets its
    scroll height in pixels and the item its border and shadow classes
    if the content had no inline height or [0px], and the height [0px]
    without those classes if it had another inline height. *)
Theorem first_panel_toggled_by_timer `{Double} (s : State) (e c : Handle)
    (dt : Z) :
  toggleAccordion_defined (globals s) = true →
  doc_querySelector (ByClass "accordion-item") (document s) = Some e →
  elem_querySelector (ByClass "accordion-content") e (document s) = Some c →
  length (filter opens_first
            (filter (λ t, due t ≤ clock s + Z.max 0 dt) (timers s))) = 1%nat →
  toggled e c (document s) (step (E_elapse dt) s).
Proof. apply elapse_toggles_first. Qed.

Lemma first_panel_toggled_by_timer_witness :
  style_at [1; 2; 1]%nat "height"
    (document (@step sample_double (E_elapse 300) loaded_page)) = "120px" ∧
  style_at [1; 3; 1]%nat "height"
    (document (@step sample_double (E_elapse 300) loaded_page)) = "0px".
Proof.
  destruct (@first_panel_toggled_by_timer sample_double loaded_page
              [1; 2]%nat [1; 2; 1]%nat 300)
    as (Hothers & Hclosed & _).
  - vm_compute. reflexivity.
  - vm_compute. reflexivity.
  - vm_compute. reflexivity.
  - vm_compute. reflexivity.
  - split.
    + destruct Hclosed as [-> _]; [|vm_compute; reflexivity].
      intros [_ Hn]. apply Hn. vm_compute. reflexivity.
    + apply Hothers; [vm_compute|discriminate].
      apply list_elem_of_further, list_elem_of_here.
Defined.

(** ** Start-up: at once or on [DOMContentLoaded] *)

(** X13.  A script that loads while the document is still loading only
    registers [initAll] for [DOMContentLoaded] and logs its last message:
    nothing else is initialised.  When the event comes, [initAll] runs
    once, and the page is the one an immediate start would have given:
    the same document, window, timers, frame callbacks, globals, scopes
    and requests, and the same listeners after the one for
    [DOMContentLoaded]; only the order of the console messages
    differs. *)
Theorem deferred_start_same_page `{Double} (doc : Node) (w : Window)
    (lib : bool) :
  let waiting := load (fresh_page doc w "loading" lib) in
  let late := step E_DOMContentLoaded waiting in
  let early := load (fresh_page doc w "interactive" lib) in
  waiting = deferred (fresh_page doc w "loading" lib) ∧
  ∃ t, initAll (fresh_page doc w "interactive" lib) = Normal () t ∧
    late = deferred t ∧
    early = set_console (λ c, c ++ [loaded_message]) t.
Proof.
  cbn zeta. split; [done|].
  pose proof (initAll_completes (fresh_page doc w "interactive" lib)) as Hc.
  pose proof (starting_initAll false (fresh_page doc w "interactive" lib)
                (starting_fresh doc w "interactive" lib ltac:(done))) as Hst.
  destruct (initAll (fresh_page doc w "interactive" lib)) as [[] t|] eqn:Ht;
    [|done].
  cbn [final_state] in Hst. exists t. split; [done|]. split.
  - unfold load, main, gets, addEventListener, console_log, modify, mbind,
      JS_bind.
    cbn [readyState fresh_page bool_decide decide_rel]. cbn [settle step].
    rewrite decide_True by done.
    change (set_readyState "interactive" _)
      with (deferred (fresh_page doc w "interactive" lib)).
    rewrite bubble_cons.
    change (listeners_for T_document "DOMContentLoaded"
              (deferred (fresh_page doc w "interactive" lib)))
      with [L_initAll].
    cbn [existsb stops_propagation orb]. rewrite run_all_cons.
    cbn [run_listener run_all foldl].
    rewrite deferred_initAll, Ht. cbn [outcome_map settle].
    rewrite bubble_cons.
    rewrite no_window_start by by destruct Hst as [[? _] _].
    done.
  - unfold load, main, gets, console_log, modify, mbind, JS_bind.
    cbn [readyState fresh_page]. rewrite bool_decide_eq_false_2 by done.
    by rewrite Ht.
Qed.

(** ** Counters: a target written in decimal *)

(** X14.  [parseInt] reads back what the conversion of an integer to a
    string writes.  So a counter whose [data-target] is the decimal
    writing of an integer, in the range where JavaScript numbers are
    exact, has that integer as its target, and the text shown for the
    final value of the animation is the text of the attribute. *)
Theorem counter_shows_its_attribute (doc : Node) (c : Handle) (z : Z) :
  safe_integer z →
  attribute_at c "data-target" doc = Some (num_to_string (Some z)) →
  parseInt10 (num_to_string (Some z)) = Some z ∧
  counter_target c doc = Some z ∧
  Some (num_to_string (Math_round (Some (inject_Z z)))) =
    attribute_at c "data-target" doc.
Proof.
  intros _ Ha. cbn [num_to_string] in *. split; [apply parseInt10_pretty|].
  split.
  - unfold counter_target. rewrite Ha. cbn [str_or].
    rewrite decide_False by apply pretty_Z_nonempty.
    apply parseInt10_pretty.
  - rewrite Ha. f_equal.
    change (pretty (rounded (inject_Z z)) = pretty z).
    by rewrite rounded_inject_Z.
Qed.

Lemma counter_shows_its_attribute_witness :
  counter_target [0; 0]%nat badge_document = Some 12.
Proof.
  apply (counter_shows_its_attribute badge_document [0; 0]%nat 12).
  - unfold safe_integer. vm_compute. discriminate.
  - vm_compute. reflexivity.
Defined.

(** ** The features keep to themselves *)

(** X15.  Each feature writes only its own part of the document, on
    whatever element: the accordion the [height] property, its four class
    tokens and the [icon] attribute; the menu its eight style properties
    and three class tokens; the navigation its thirteen class tokens; the
    viewport fix the [--vh] property; the set-up of the animations
    nothing.  None of them changes a tag or a text, and the parts are
    disjoint, so that no feature undoes what another one has set. *)
Theorem features_keep_to_themselves `{Double} :
  (∀ e, within accordion_footprint (toggleAccordion e)) ∧
  within accordion_footprint openFirst ∧
  within menu_footprint toggle ∧
  within menu_footprint closeMenu ∧
  within menu_footprint hideMenu ∧
  within navigation_footprint updateNav ∧
  within navigation_footprint initNavigation ∧
  within viewport_footprint setVH ∧
  within (mkFootprint [] [] []) initAnimations ∧
  disjoint_footprints accordion_footprint menu_footprint ∧
  disjoint_footprints accordion_footprint navigation_footprint ∧
  disjoint_footprints accordion_footprint viewport_footprint ∧
  disjoint_footprints menu_footprint navigation_footprint ∧
  disjoint_footprints menu_footprint viewport_footprint ∧
  disjoint_footprints navigation_footprint viewport_footprint.
Proof.
  split_and!;
    first [ apply within_toggleAccordion | apply within_openFirst
          | apply within_toggle | apply within_closeMenu
          | apply within_hideMenu | apply within_updateNav
          | apply within_initNavigation | apply within_setVH
          | apply within_initAnimations
          | apply disjoint_footprints_Forall; compute_done ].
Qed.

Lemma features_keep_to_themselves_witness :
  style_at [1; 1]%nat "display"
    (document (final_state (toggleAccordion (Some [1; 3]%nat) opened_page)))
  = style_at [1; 1]%nat "display" (document opened_page).
Proof.
  destruct (@features_keep_to_themselves sample_double) as [Hacc _].
  destruct (Hacc (Some [1; 3]%nat) [1; 1]%nat) as [Hstyle _].
  apply (Hstyle "display"). compute_done.
Defined.

(** ** Start-up: what the page is like afterwards *)

(** X16.  When the script loads into a page that is no longer loading,
    [initAll] runs at once and leaves exactly two timers, the test for
    GSAP at 100 ms and the opening of the first accordion panel at
    300 ms, with [toggleAccordion] published.  In the document it has
    written nothing but the classes of the navigation and [--vh]: every
    other style property and class, and every attribute and text, is
    that of the markup, and so are the accordion items and contents
    that the selectors find.  Nothing has been asked of GSAP yet. *)
Theorem load_sets_up `{Double} (doc : Node) (w : Window) (rs : string)
    (lib : bool) :
  rs ≠ "loading" →
  let s := load (fresh_page doc w rs lib) in
  timers s = start_timers 0 ∧ clock s = 0 ∧
  toggleAccordion_defined (globals s) = true ∧
  library_defined s = lib ∧ counters s = [] ∧ gsapCalls s = [] ∧
  readyState s ≠ "loading" ∧
  (∀ q p, p ∉ fp_styles start_footprint →
          style_at q p (document s) = style_at q p doc) ∧
  (∀ q t, t ∉ fp_tokens start_footprint →
          has_class q t (document s) = has_class q t doc) ∧
  (∀ q a, attribute_at q a (document s) = attribute_at q a doc) ∧
  (∀ q, text_at q (document s) = text_at q doc) ∧
  items (document s) = items doc ∧
  contents (document s) = contents doc.
Proof.
  intros Hrs. cbn zeta. rewrite load_at_once by done.
  set (s0 := fresh_page doc w rs lib).
  cbn [timers clock globals counters gsapCalls readyState document
       set_console].
  change (library_defined (set_console _ (final_state (initAll s0))))
    with (library_defined (final_state (initAll s0))).
  destruct (initAll_timers s0) as [Ht Hg].
  pose proof (initAll_obs_start s0) as Hobs. unfold obs_start in Hobs.
  injection Hobs as Hck Hlib Hcs Hgc.
  pose proof (starting_initAll false s0 (starting_fresh doc w rs lib Hrs))
    as (_ & _ & Hready & _).
  split_and!.
  - by rewrite Ht.
  - by rewrite Hck.
  - done.
  - rewrite Hlib. unfold library_defined, s0. cbn. by destruct lib.
  - by rewrite Hcs.
  - by rewrite Hgc.
  - done.
  - intros q p Hp. destruct (within_initAll q) as (Hst & _).
    apply (Hst p Hp s0).
  - intros q t Ht'. destruct (within_initAll q) as (_ & Hcl & _).
    apply (Hcl t Ht' s0).
  - intros q a. destruct (within_initAll q) as (_ & _ & Hat & _).
    apply (Hat a (not_elem_of_nil a) s0).
  - intros q. destruct (within_initAll q) as (_ & _ & _ & _ & Htx).
    apply (Htx s0).
  - unfold items, doc_querySelectorAll.
    assert (preserves (λ s, select_in (ByClass "accordion-item") (document s))
              initAll) as Hit.
    { initAll_auto ltac:(
        let s := fresh "s" in
        intros s <-;
        first [ reflexivity
              | cbn [document set_document]; apply select_in_alter;
                matches_side ]). }
    apply (Hit s0).
  - apply (initAll_contents s0).
Qed.

Lemma load_sets_up_witness :
  timers loaded_page =
    [mkTimer 100 TC_startAnimations; mkTimer 300 TC_openFirst] ∧
  style_at [1; 2; 1]%nat "height" (document loaded_page) = "".
Proof.
  destruct (@load_sets_up sample_double sample_document sample_window
              "complete" true)
    as (Ht & _ & _ & _ & _ & _ & _ & Hst & _); [discriminate|].
  split; [exact Ht|]. unfold loaded_page, sample_page. rewrite Hst.
  - vm_compute. reflexivity.
  - compute_done.
Defined.

(** ** Accordion: the first panel, after start-up *)

(** X17.  On a page that is no longer loading when the script starts and
    whose first [.accordion-item] has a content, that item is toggled
    300 ms after the start, whether or not GSAP is there: every other
    content has the height [0px]; the content of the first item has its
    scroll height in pixels, and the item its border and shadow classes,
    if the markup gave the content no inline height or [0px]; if the
    markup gave it another height, the timer closes the panel. *)
Theorem first_panel_after_load `{Double} (doc : Node) (w : Window)
    (rs : string) (lib : bool) (e c : Handle) :
  rs ≠ "loading" →
  doc_querySelector (ByClass "accordion-item") doc = Some e →
  elem_querySelector (ByClass "accordion-content") e doc = Some c →
  toggled e c doc (step (E_elapse 300) (load (fresh_page doc w rs lib))).
Proof.
  intros Hrs He Hc. rewrite load_at_once by done.
  set (s0 := fresh_page doc w rs lib).
  set (s := set_console _ (final_state (initAll s0))).
  destruct (initAll_timers s0) as [Ht Hg].
  pose proof (initAll_obs_start s0) as Hobs. unfold obs_start in Hobs.
  injection Hobs as Hck _ _ _.
  assert (document s = document (final_state (initAll s0))) as Hd by done.
  assert (toggled e c (document s) (step (E_elapse 300) s)) as Htog.
  { apply elapse_toggles_first.
    - done.
    - rewrite Hd. by rewrite (initAll_first_item s0).
    - rewrite Hd. by rewrite (initAll_content e s0).
    - change (timers s) with (timers (final_state (initAll s0))).
      change (clock s) with (clock (final_state (initAll s0))).
      rewrite Ht, Hck. done. }
  unfold toggled, panel_open in *. rewrite Hd in Htog.
  rewrite (initAll_contents s0), (initAll_scrollHeight c s0) in Htog.
  destruct (within_initAll c) as (Hst & _).
  rewrite (Hst "height" ltac:(compute_done) s0) in Htog.
  done.
Qed.

Lemma first_panel_after_load_witness :
  style_at [1; 2; 1]%nat "height"
    (document (@step sample_double (E_elapse 300) loaded_page)) = "120px".
Proof.
  destruct (@first_panel_after_load sample_double sample_document
              sample_window "complete" true [1; 2]%nat [1; 2; 1]%nat)
    as (_ & Hclosed & _).
  - discriminate.
  - vm_compute. reflexivity.
  - vm_compute. reflexivity.
  - destruct Hclosed as [Hh _]; [|exact Hh].
    intros [_ Hn]. apply Hn. vm_compute. reflexivity.
Defined.
